(** * movie-riddles: the riddle solver of [riddles/riddle_solver.py]

    A shallow embedding of the solver and the properties of its
    specification.

    Conventions of the embedding.
    - A Python [str] is a [string]: one [ascii] per code point, so the
      embedding covers the strings whose code points are below U+0100.
      On these [strip], [lower], [split] and the UTF-8 encoding are
      written out as CPython computes them.
    - [None] is [None : option _]; a function annotated [str | None]
      returns an [option string].
    - A [dict] is an insertion-ordered association list ([PyDict]).
    - [hashlib.sha1] is FIPS 180-4 SHA-1 on 32-bit words held in [Z].
    - The file system and the standard output are explicit: a [World]
      that the procedures read and update, and a list of [event]s, the
      lines printed and the procedures entered.  A file holds text;
      reading it in text mode goes through [read_text].
    - A [World] is a disk in good order.  Where a listing or a read
      can fail (no [movies] folder, a file that does not decode, an
      archive cut short) the procedures are given over a [Disk.t],
      from the same lines; [agrees_main] shows that the two do the
      same on the disk of a world.
    - An exception is a value of [exn]; a procedure that raises
      returns it with the world as it stands at that point.
    - Integers are unbounded; CPython converts them to and from text
      up to [PyInt.max_str_digits] digits. *)

From Stdlib Require Import ZArith List Bool Ascii String Lia Arith.
From Stdlib Require Import DecimalString DecimalZ.
Import ListNotations.

Local Open Scope string_scope.
Local Open Scope list_scope.
Local Open Scope nat_scope.

(* ================================================================== *)
(** * Python strings                                                    *)
(* ================================================================== *)

Module PyStr.

Definition code (c : ascii) : nat := nat_of_ascii c.

(** [str.isspace] on one code point below U+0100: TAB..CR, FS..US,
    SPACE, NEL (U+0085) and NBSP (U+00A0). *)
Definition isspace (c : ascii) : bool :=
  let n := code c in
  ((9 <=? n) && (n <=? 13)) || ((28 <=? n) && (n <=? 32))
  || (n =? 133) || (n =? 160).

(** Dropping the leading characters that satisfy [p]. *)
Fixpoint lstrip_with (p : ascii -> bool) (s : string) : string :=
  match s with
  | String c s' => if p c then lstrip_with p s' else s
  | EmptyString => EmptyString
  end.

(** Dropping the trailing characters that satisfy [p]: a character
    goes when it satisfies [p] and everything after it has gone. *)
Fixpoint rstrip_with (p : ascii -> bool) (s : string) : string :=
  match s with
  | String c s' =>
      match rstrip_with p s' with
      | EmptyString => if p c then EmptyString else String c EmptyString
      | r => String c r
      end
  | EmptyString => EmptyString
  end.

Definition strip_with (p : ascii -> bool) (s : string) : string :=
  rstrip_with p (lstrip_with p s).

(** [str.strip()] *)
Definition strip (s : string) : string := strip_with isspace s.

(** [str.lower()] on one code point below U+0100: A..Z and the
    Latin-1 capitals U+00C0..U+00DE other than the multiplication
    sign U+00D7 move up by 32. *)
Definition lower_char (c : ascii) : ascii :=
  let n := code c in
  if ((65 <=? n) && (n <=? 90))
     || ((192 <=? n) && (n <=? 222) && negb (n =? 215))
  then ascii_of_nat (n + 32) else c.

Fixpoint lower (s : string) : string :=
  match s with
  | String c s' => String (lower_char c) (lower s')
  | EmptyString => EmptyString
  end.

(** [str.encode("utf-8")] as a list of byte values: one byte below
    U+0080, two bytes from U+0080 to U+00FF. *)
Fixpoint encode_utf8 (s : string) : list Z :=
  match s with
  | String c s' =>
      let n := Z.of_nat (code c) in
      if (n <? 128)%Z then n :: encode_utf8 s'
      else Z.lor 192 (Z.shiftr n 6) :: Z.lor 128 (Z.land n 63) :: encode_utf8 s'
  | EmptyString => []
  end.

(** [str.split(sep)] for a one-character separator: always at least
    one field. *)
Fixpoint split (sep : ascii) (s : string) : list string :=
  match s with
  | String c s' =>
      if Ascii.eqb c sep then EmptyString :: split sep s'
      else match split sep s' with
           | f :: fs => String c f :: fs
           | [] => [String c EmptyString]
           end
  | EmptyString => [EmptyString]
  end.

Definition tab : ascii := ascii_of_nat 9.
Definition newline : ascii := ascii_of_nat 10.

(** [file.readlines()] on the text of a file: every line keeps its
    terminating newline; text after the last newline is a last line. *)
Fixpoint readlines (s : string) : list string :=
  match s with
  | String c s' =>
      if Ascii.eqb c newline then String c EmptyString :: readlines s'
      else match readlines s' with
           | l :: ls => String c l :: ls
           | [] => [String c EmptyString]
           end
  | EmptyString => []
  end.

(** Truth value of a string: the empty string is false. *)
Definition truthy (s : string) : bool :=
  match s with EmptyString => false | String _ _ => true end.

End PyStr.

(* ================================================================== *)
(** * SHA-1 (hashlib.sha1)                                              *)
(* ================================================================== *)

Module SHA1.
Local Open Scope Z_scope.

Definition mask32 : Z := 0xFFFFFFFF.
Definition add32 (x y : Z) : Z := Z.land (x + y) mask32.
Definition rotl (n x : Z) : Z :=
  Z.land (Z.lor (Z.shiftl x n) (Z.shiftr x (32 - n))) mask32.
Definition not32 (x : Z) : Z := Z.lxor x mask32.

(** Section 4.1.1: the round functions. *)
Definition f (t : nat) (b c d : Z) : Z :=
  if (t <? 20)%nat then Z.lor (Z.land b c) (Z.land (not32 b) d)
  else if (t <? 40)%nat then Z.lxor (Z.lxor b c) d
  else if (t <? 60)%nat then
    Z.lor (Z.lor (Z.land b c) (Z.land b d)) (Z.land c d)
  else Z.lxor (Z.lxor b c) d.

(** Section 4.2.1: the round constants. *)
Definition K (t : nat) : Z :=
  if (t <? 20)%nat then 0x5A827999
  else if (t <? 40)%nat then 0x6ED9EBA1
  else if (t <? 60)%nat then 0x8F1BBCDC
  else 0xCA62C1D6.

(** Section 5.3.1: the initial hash value. *)
Definition H0 : Z * Z * Z * Z * Z :=
  (0x67452301, 0xEFCDAB89, 0x98BADCFE, 0x10325476, 0xC3D2E1F0).

(** Section 5.1.1: padding to a multiple of 64 bytes. *)
Definition be_bytes (width : nat) (x : Z) : list Z :=
  map (fun i => Z.land (Z.shiftr x (8 * Z.of_nat i)) 255) (rev (seq 0 width)).

Definition pad (msg : list Z) : list Z :=
  let len := Z.of_nat (List.length msg) in
  let zeros := Z.to_nat ((55 - len) mod 64) in
  msg ++ [128] ++ repeat 0 zeros ++ be_bytes 8 (8 * len).

(** Big-endian 32-bit words of a byte list. *)
Fixpoint words (bs : list Z) : list Z :=
  match bs with
  | b0 :: b1 :: b2 :: b3 :: rest =>
      Z.lor (Z.shiftl b0 24) (Z.lor (Z.shiftl b1 16) (Z.lor (Z.shiftl b2 8) b3))
      :: words rest
  | _ => []
  end.

(** Section 6.1.2, step 1: the message schedule; [w] holds the words
    computed so far, the latest first. *)
Fixpoint expand (n : nat) (w : list Z) : list Z :=
  match n with
  | O => w
  | S n' =>
      let x := Z.lxor (Z.lxor (nth 2 w 0) (nth 7 w 0))
                      (Z.lxor (nth 13 w 0) (nth 15 w 0)) in
      expand n' (rotl 1 x :: w)
  end.

Definition schedule (block : list Z) : list Z :=
  rev (expand 64 (rev block)).

(** Section 6.1.2, step 3: the eighty rounds. *)
Fixpoint rounds (t : nat) (ws : list Z) (st : Z * Z * Z * Z * Z)
  : Z * Z * Z * Z * Z :=
  match ws with
  | [] => st
  | w :: ws' =>
      let '(a, b, c, d, e) := st in
      let tmp := add32 (add32 (add32 (add32 (rotl 5 a) (f t b c d)) e) (K t)) w in
      rounds (S t) ws' (tmp, a, rotl 30 b, c, d)
  end.

Definition compress (h : Z * Z * Z * Z * Z) (block : list Z)
  : Z * Z * Z * Z * Z :=
  let '(a, b, c, d, e) := rounds 0 (schedule block) h in
  let '(h0, h1, h2, h3, h4) := h in
  (add32 h0 a, add32 h1 b, add32 h2 c, add32 h3 d, add32 h4 e).

(** The blocks of sixteen words; [fuel] bounds the number of blocks. *)
Fixpoint blocks (fuel : nat) (ws : list Z) (h : Z * Z * Z * Z * Z)
  : Z * Z * Z * Z * Z :=
  match fuel, ws with
  | S fuel', _ :: _ => blocks fuel' (skipn 16 ws) (compress h (firstn 16 ws))
  | _, _ => h
  end.

Definition digest (msg : list Z) : Z * Z * Z * Z * Z :=
  let ws := words (pad msg) in
  blocks (List.length ws) ws H0.

Definition hex_digit (x : Z) : ascii :=
  if x <? 10 then ascii_of_nat (48 + Z.to_nat x)
  else ascii_of_nat (87 + Z.to_nat x).

Definition hex32 (x : Z) : string :=
  string_of_list_ascii
    (map (fun i => hex_digit (Z.land (Z.shiftr x (4 * Z.of_nat i)) 15))
         (rev (seq 0 8))).

(** [sha1(msg).hexdigest()]: forty lower-case hexadecimal digits. *)
Definition hexdigest (msg : list Z) : string :=
  let '(a, b, c, d, e) := digest msg in
  (hex32 a ++ hex32 b ++ hex32 c ++ hex32 d ++ hex32 e)%string.

End SHA1.

(* ================================================================== *)
(** * Python integers: [int(str)] and the format [{i:02d}]              *)
(* ================================================================== *)

Module PyInt.
Local Open Scope Z_scope.

Definition digit_val (c : ascii) : option Z :=
  let n := PyStr.code c in
  if ((48 <=? n) && (n <=? 57))%nat then Some (Z.of_nat (n - 48)) else None.

(** Decimal digits, single underscores allowed between two digits. *)
Fixpoint parse_digits (acc : Z) (after_digit : bool) (s : string) : option Z :=
  match s with
  | EmptyString => if after_digit then Some acc else None
  | String c s' =>
      match digit_val c with
      | Some d => parse_digits (10 * acc + d) true s'
      | None =>
          if Ascii.eqb c "_"%char && after_digit
          then parse_digits acc false s'
          else None
      end
  end.

(** The white space [int] skips: that of [str.isspace] without
    FS..US. *)
Definition int_space (c : ascii) : bool :=
  let n := PyStr.code c in
  (((9 <=? n) && (n <=? 13)) || (n =? 32) || (n =? 133) || (n =? 160))%nat.

(** [int(s)]: surrounding white space is dropped, one sign is
    allowed; [None] stands for [ValueError]. *)
Definition int (s : string) : option Z :=
  match PyStr.strip_with int_space s with
  | String "+"%char r => parse_digits 0 false r
  | String "-"%char r => option_map Z.opp (parse_digits 0 false r)
  | t => parse_digits 0 false t
  end.

(** [f"{i:02d}"]: the decimal numeral, padded with zeros to two
    characters, the sign counted. *)
Definition format_02d (i : Z) : string :=
  let s := NilZero.string_of_int (Z.to_int i) in
  if (String.length s <? 2)%nat then String "0"%char s else s.

(** CPython converts between [int] and [str] up to this many digits
    ([sys.int_info.default_max_str_digits]) and raises [ValueError]
    beyond; [int] and [format_02d] are the conversions below it. *)
Definition max_str_digits : Z := 4300.

End PyInt.

(* ================================================================== *)
(** * Python dictionaries                                               *)
(* ================================================================== *)

(** A [dict] keyed by integers: the entries in insertion order, no key
    twice.  Assigning to a key that is present keeps its place. *)
Module PyDict.
Section Dict.
Context {V : Type}.

Definition t := list (Z * V).

Definition empty : t := [].

Fixpoint get (k : Z) (d : t) : option V :=
  match d with
  | [] => None
  | (k', v) :: d' => if Z.eqb k k' then Some v else get k d'
  end.

Definition mem (k : Z) (d : t) : bool :=
  match get k d with Some _ => true | None => false end.

(** [d[k] = v] *)
Fixpoint set (k : Z) (v : V) (d : t) : t :=
  match d with
  | [] => [(k, v)]
  | (k', v') :: d' =>
      if Z.eqb k k' then (k, v) :: d' else (k', v') :: set k v d'
  end.

(** [del d[k]], for a key that is present. *)
Fixpoint del (k : Z) (d : t) : t :=
  match d with
  | [] => []
  | (k', v') :: d' => if Z.eqb k k' then d' else (k', v') :: del k d'
  end.

Definition keys (d : t) : list Z := map fst d.
Definition items (d : t) : list (Z * V) := d.
Definition len (d : t) : nat := List.length d.

(** The invariant of a dictionary. *)
Definition wf (d : t) : Prop := NoDup (keys d).
End Dict.
Arguments t : clear implicits.
End PyDict.

(* ================================================================== *)
(** * The world: riddle folders, the dataset, the network               *)
(* ================================================================== *)

(** A world is a disk in good order: the [movies] folder is there,
    every file holds text that decodes, and an archive is one that
    [gzip] reads or one that it refuses.  What the program does when a
    listing or a read fails is told over a disk, further down, where
    the procedures are given once more; on the disk of a world the two
    agree ([agrees_main]).

    A riddle folder holds at most the two artifacts the solver looks
    at; [None] is an absent file, [Some txt] a file that holds the text
    [txt]. *)
Record riddle_dir := {
  verify_py : option string;
  solution_txt : option string
}.

(** An entry of the [movies] folder. *)
Inductive node :=
| File
| Dir (d : riddle_dir).

(** A gzip archive is held by what it decompresses to; [None] is an
    archive [gzip] cannot read. *)
Definition archive := option string.

Record World := {
  movies : list (string * node);  (* in the order of [os.listdir] *)
  data_tsv : option string;       (* ./data.tsv *)
  data_tsv_gz : option archive;   (* ./data.tsv.gz *)
  remote : option archive         (* what [dataset_url] serves *)
}.

Definition CR : ascii := ascii_of_nat 13.

(** Reading in text mode: [\r\n] and a lone [\r] come back as [\n]. *)
Fixpoint universal_newlines (s : string) : string :=
  match s with
  | String c s' =>
      if Ascii.eqb c CR then
        String PyStr.newline
          match s' with
          | String c' s'' =>
              if Ascii.eqb c' PyStr.newline then universal_newlines s''
              else universal_newlines s'
          | EmptyString => EmptyString
          end
      else String c (universal_newlines s')
  | EmptyString => EmptyString
  end.

(** No carriage return in [s]. *)
Fixpoint no_cr (s : string) : bool :=
  match s with
  | EmptyString => true
  | String c s' => negb (Ascii.eqb c CR) && no_cr s'
  end.

(** [open(path, "r").read()] on a file that holds [stored]. *)
Definition read_text (stored : string) : string := universal_newlines stored.

Definition title_index : nat := 3.

Fixpoint lookup (name : string) (l : list (string * node)) : option node :=
  match l with
  | [] => None
  | (n, x) :: l' => if String.eqb name n then Some x else lookup name l'
  end.

(** The folder at [os.path.join(movies_dir_path, name)], when it is one. *)
Definition riddle_at (w : World) (name : string) : option riddle_dir :=
  match lookup name (movies w) with
  | Some (Dir d) => Some d
  | _ => None
  end.

(** [get_solution]: the stripped text of [solution.txt]; [None] when the
    file is absent or blank. *)
Definition get_solution (w : World) (dir : string) : option string :=
  match riddle_at w dir with
  | Some d =>
      match solution_txt d with
      | Some txt =>
          let solution := PyStr.strip (read_text txt) in
          if negb (String.eqb solution "") then Some solution else None
      | None => None
      end
  | None => None
  end.

(** ** The pattern of [get_hash]

    [re.search(r"assert sha1\(solution\)\.hexdigest\(\) == '(.+)'", text)]:
    the literal text up to the opening quote, then the greedy group
    [.+] (no newline), then a quote. *)
Definition assert_prefix : string := "assert sha1(solution).hexdigest() == '".

Definition quote : ascii := "'"%char.

(** [.*'] at the head of [s]: the longest newline-free [g] with
    [s = g ++ "'" ++ _]. *)
Fixpoint dot_star_quote (s : string) : option string :=
  match s with
  | EmptyString => None
  | String c s' =>
      if Ascii.eqb c PyStr.newline then None
      else match dot_star_quote s' with
           | Some g => Some (String c g)
           | None => if Ascii.eqb c quote then Some EmptyString else None
           end
  end.

(** [(.+)'] at the head of [s]: the group. *)
Definition dot_plus_quote (s : string) : option string :=
  match s with
  | EmptyString => None
  | String c s' =>
      if Ascii.eqb c PyStr.newline then None
      else option_map (String c) (dot_star_quote s')
  end.

Fixpoint drop_prefix (p s : string) : option string :=
  match p, s with
  | EmptyString, _ => Some s
  | String a p', String b s' => if Ascii.eqb a b then drop_prefix p' s' else None
  | String _ _, EmptyString => None
  end.

(** No newline in [s]: what the group [.+] may consume. *)
Fixpoint no_newline (s : string) : bool :=
  match s with
  | EmptyString => true
  | String c s' => negb (Ascii.eqb c PyStr.newline) && no_newline s'
  end.

(** A quote before the end of the first line of [s]. *)
Fixpoint quote_on_line (s : string) : bool :=
  match s with
  | EmptyString => false
  | String c s' =>
      if Ascii.eqb c PyStr.newline then false
      else Ascii.eqb c quote || quote_on_line s'
  end.

(** The whole pattern at the head of [s]. *)
Definition match_here (s : string) : option string :=
  match drop_prefix assert_prefix s with
  | Some rest => dot_plus_quote rest
  | None => None
  end.

(** The literal [p] starts at a position of [pre] in [pre ++ tail]. *)
Fixpoint starts_within (p pre tail : string) : bool :=
  match pre with
  | EmptyString => false
  | String c pre' =>
      match drop_prefix p (String c (pre' ++ tail)) with
      | Some _ => true
      | None => starts_within p pre' tail
      end
  end.

(** [re.search]: the leftmost position where the pattern matches;
    the result is [match.group(1)]. *)
Fixpoint re_search (s : string) : option string :=
  match match_here s with
  | Some g => Some g
  | None =>
      match s with
      | String _ s' => re_search s'
      | EmptyString => None
      end
  end.

(** [get_hash] *)
Definition get_hash (w : World) (dir : string) : option string :=
  match riddle_at w dir with
  | Some d =>
      match verify_py d with
      | Some txt =>
          match re_search (read_text txt) with
          | Some g => if PyStr.truthy g then Some g else None
          | None => None
          end
      | None => None
      end
  | None => None
  end.

(** Normalisation of a candidate: [.strip().lower()]. *)
Definition normalize (s : string) : string := PyStr.lower (PyStr.strip s).

Definition sha1_hex (s : string) : string :=
  SHA1.hexdigest (PyStr.encode_utf8 s).

(** [==] between a string and a value that may be [None]. *)
Definition eq_opt (s : string) (h : option string) : bool :=
  match h with
  | Some h' => String.eqb s h'
  | None => false
  end.

(** [check_hash]:
    [solution and sha1(...).hexdigest() == hash or False]. *)
Definition check_hash (hash : option string) (solution : option string) : bool :=
  match solution with
  | Some s =>
      if PyStr.truthy s then eq_opt (sha1_hex (normalize s)) hash || false
      else false
  | None => false
  end.

(** [get_movie_dir], relative to [movies_dir_path]. *)
Definition get_movie_dir (i : Z) : string := PyInt.format_02d i.

(** [check_riddle] *)
Definition check_riddle (w : World) (dir : string) : bool :=
  check_hash (get_hash w dir) (get_solution w dir).

(* ================================================================== *)
(** * Effects: exceptions, output, the world as state                   *)
(* ================================================================== *)

Inductive exn :=
| ValueError
| IndexError
| AttributeError
| FileNotFoundError
| NotADirectoryError
| URLError
| BadGzipFile
| UnicodeDecodeError
| EOFError.

Definition result (A : Type) : Type := (exn + A)%type.

(** The procedures whose calls the trace records; a call is recorded
    when the procedure is entered and prints nothing. *)
Inductive proc :=
| P_get_hashes_and_solutions
| P_download_data
| P_find_solutions
| P_write_solutions
| P_check_solutions.

(** What is printed, one constructor per [print] of the source with the
    values it formats. *)
Inductive msg :=
| Text (s : string)
| Total (total : nat)
| Found (riddle : Z) (hash : option string) (title : string)
| CheckRow (file : string) (hash solution : option string) (correct : bool)
| HashesHeader (n : nat)
| HashRow (k : Z) (hash : option string)
| Line
| SolutionsHeader (n : nat)
| SolutionRows (rows : list (Z * option string))
| NotFoundHeader (n : nat)
| NotFoundRows (rows : list (Z * option string)).

Inductive event :=
| Call (p : proc)
| Printed (m : msg).

(** A procedure: from the world to its outcome, the world it leaves
    and what it printed. *)
Definition M (A : Type) : Type := World -> result A * World * list event.

Definition ret {A} (a : A) : M A := fun w => (inr a, w, []).

Definition raise {A} (e : exn) : M A := fun w => (inl e, w, []).

Definition bind {A B} (m : M A) (k : A -> M B) : M B :=
  fun w =>
    match m w with
    | (inl e, w1, o1) => (inl e, w1, o1)
    | (inr a, w1, o1) =>
        match k a w1 with
        | (r, w2, o2) => (r, w2, o1 ++ o2)
        end
    end.

Definition emit (e : event) : M unit := fun w => (inr tt, w, [e]).
Definition print (m : msg) : M unit := emit (Printed m).
Definition call (p : proc) : M unit := emit (Call p).
Definition ask : M World := fun w => (inr w, w, []).
Definition put (w' : World) : M unit := fun _ => (inr tt, w', []).

Declare Scope proc_scope.
Delimit Scope proc_scope with proc.
Notation "x <- c1 ;; c2" := (bind c1 (fun x => c2))
  (at level 61, c1 at next level, right associativity) : proc_scope.
Notation "c1 ;; c2" := (bind c1 (fun _ => c2))
  (at level 61, right associativity) : proc_scope.

(** ** Files *)

Fixpoint update (name : string) (x : node) (l : list (string * node))
  : list (string * node) :=
  match l with
  | [] => []
  | (n, y) :: l' =>
      if String.eqb name n then (n, x) :: l' else (n, y) :: update name x l'
  end.

Definition with_movies (w : World) (m : list (string * node)) : World :=
  {| movies := m; data_tsv := data_tsv w;
     data_tsv_gz := data_tsv_gz w; remote := remote w |}.

(** [open(os.path.join(dir, "solution.txt"), "w")] followed by
    [write(content)]; opening alone leaves an empty file. *)
Definition write_solution_txt (dir : string) (content : string) : M unit :=
  fun w =>
    match lookup dir (movies w) with
    | Some (Dir d) =>
        let d' := {| verify_py := verify_py d; solution_txt := Some content |} in
        (inr tt, with_movies w (update dir (Dir d') (movies w)), [])
    | Some File => (inl NotADirectoryError, w, [])
    | None => (inl FileNotFoundError, w, [])
    end.

Definition listdir (w : World) : list string := map fst (movies w).

Definition isdir (w : World) (name : string) : bool :=
  match riddle_at w name with Some _ => true | None => false end.

(* ================================================================== *)
(** * The solver                                                        *)
(* ================================================================== *)

Local Open Scope proc_scope.

(** Both dictionaries of the solver map a riddle index to a string or
    [None]. *)
Definition dict : Type := PyDict.t (option string).

(** ** [get_hashes_and_solutions] *)

(** The loop over [os.listdir(movies_dir_path)]. *)
Fixpoint scan_loop (w : World) (files : list string) (hashes solutions : dict)
  : result (dict * dict) :=
  match files with
  | [] => inr (hashes, solutions)
  | file :: rest =>
      if isdir w file then
        if check_riddle w file then
          match PyInt.int file with
          | Some k =>
              scan_loop w rest hashes (PyDict.set k (get_solution w file) solutions)
          | None => inl ValueError
          end
        else
          match PyInt.int file with
          | Some k =>
              scan_loop w rest (PyDict.set k (get_hash w file) hashes) solutions
          | None => inl ValueError
          end
      else scan_loop w rest hashes solutions
  end.

Definition scan (w : World) : result (dict * dict) :=
  scan_loop w (listdir w) PyDict.empty PyDict.empty.

Definition get_hashes_and_solutions : M (dict * dict) :=
  call P_get_hashes_and_solutions ;;
  w <- ask ;;
  match scan w with
  | inr r => ret r
  | inl e => raise e
  end.

(** ** [find_solutions] *)

(** [range(start, stop)] *)
Definition range (start stop : Z) : list Z :=
  map (fun i => (start + Z.of_nat i)%Z) (seq 0 (Z.to_nat (stop - start))).

(** [line.split("\t")[title_index]]; [None] stands for [IndexError]. *)
Definition title_of (line : string) : option string :=
  nth_error (PyStr.split PyStr.tab line) title_index.

(** The loop over [hashes.items()] for one title.  The dictionaries
    change only in the iteration that ends the loop with [break]. *)
Fixpoint inner_loop (title : string) (items : list (Z * option string))
    (hashes solutions : dict) : dict * dict * list event :=
  match items with
  | [] => (hashes, solutions, [])
  | (riddle, hash) :: rest =>
      if check_hash hash (Some title) then
        (PyDict.del riddle hashes,
         PyDict.set riddle (Some title) solutions,
         [Printed (Found riddle hash title)])
      else inner_loop title rest hashes solutions
  end.

(** One title against the pending hashes. *)
Definition try_title (title : string) (hashes solutions : dict)
  : dict * dict * list event :=
  inner_loop title (PyDict.items hashes) hashes solutions.

(** The resolver as the specification words it (section 4.4): a
    sequence of candidates consumed in order, each by [try_title]; the
    result is the pair of dictionaries.  It is compared with the loop
    of [find_solutions] below. *)
Fixpoint resolve (titles : list string) (hashes solutions : dict) : dict * dict :=
  match titles with
  | [] => (hashes, solutions)
  | title :: titles' =>
      match try_title title hashes solutions with
      | (hashes', solutions', _) => resolve titles' hashes' solutions'
      end
  end.

(** No index is pending and solved at once. *)
Definition disjoint (hashes solutions : dict) : Prop :=
  forall k, PyDict.mem k hashes = true -> PyDict.mem k solutions = false.

(** The loop [for i in range(1, total-1)]; [lines[i]] is in range for
    every [i] of it.  The dictionaries are returned as they stand when
    the loop ends or raises. *)
Fixpoint outer_loop (lines : list string) (indices : list Z)
    (hashes solutions : dict) : result unit * (dict * dict) * list event :=
  match indices with
  | [] => (inr tt, (hashes, solutions), [])
  | i :: indices' =>
      let line := nth (Z.to_nat i) lines "" in
      match title_of line with
      | None => (inl IndexError, (hashes, solutions), [])
      | Some title =>
          match try_title title hashes solutions with
          | (hashes', solutions', o1) =>
              match outer_loop lines indices' hashes' solutions' with
              | (r, d, o2) => (r, d, o1 ++ o2)
              end
          end
      end
  end.

Definition find_solutions (w : World) (hashes solutions : dict)
  : result unit * (dict * dict) * list event :=
  match data_tsv w with
  | None => (inl FileNotFoundError, (hashes, solutions), [Call P_find_solutions])
  | Some stored =>
      let lines := PyStr.readlines (read_text stored) in
      let total := List.length lines in
      match outer_loop lines (range 1 (Z.of_nat total - 1)) hashes solutions with
      | (r, d, o) =>
          (r, d,
           [Call P_find_solutions;
            Printed (Text "Start brute forcing movies riddles.");
            Printed (Total total)] ++ o)
      end
  end.

(** The candidate source as the specification words it (section
    4.3): the records with an index in [[1, total - 2]]. *)
Definition records (lines : list string) : list string :=
  firstn (List.length lines - 2) (skipn 1 lines).

(** The loop of [find_solutions] over title fields that are given one
    by one instead of by index; [None] is a record without a field at
    [title_index]. *)
Fixpoint titles_loop (titles : list (option string)) (hashes solutions : dict)
  : result unit * (dict * dict) * list event :=
  match titles with
  | [] => (inr tt, (hashes, solutions), [])
  | None :: _ => (inl IndexError, (hashes, solutions), [])
  | Some title :: titles' =>
      match try_title title hashes solutions with
      | (hashes', solutions', o1) =>
          match titles_loop titles' hashes' solutions' with
          | (r, d, o2) => (r, d, o1 ++ o2)
          end
      end
  end.

(** [find_solutions] as a step of a procedure: the caller sees the
    dictionaries again only when no exception was raised. *)
Definition find_solutions_proc (hashes solutions : dict) : M (dict * dict) :=
  fun w =>
    match find_solutions w hashes solutions with
    | (inr _, d, o) => (inr d, w, o)
    | (inl e, _, o) => (inl e, w, o)
    end.

(** ** [write_solutions] *)

Fixpoint write_loop (items : list (Z * option string)) : M unit :=
  match items with
  | [] => ret tt
  | (k, solution) :: rest =>
      let dir := get_movie_dir k in
      write_solution_txt dir "" ;;
      match solution with
      | Some s => write_solution_txt dir (PyStr.strip s) ;; write_loop rest
      | None => raise AttributeError
      end
  end.

Definition write_solutions (solutions : dict) : M unit :=
  call P_write_solutions ;;
  print (Text "Writing solutions...") ;;
  write_loop (PyDict.items solutions) ;;
  print (Text "solutions writen.").

(** ** [check_solutions] *)

Fixpoint check_loop (files : list string) : M unit :=
  match files with
  | [] => ret tt
  | file :: rest =>
      w <- ask ;;
      (if isdir w file then
         let solution := get_solution w file in
         let hash := get_hash w file in
         let correct := check_hash hash solution in
         print (CheckRow file hash solution correct)
       else ret tt) ;;
      check_loop rest
  end.

Definition check_solutions : M unit :=
  call P_check_solutions ;;
  print (Text "check solutions:") ;;
  w <- ask ;;
  check_loop (listdir w).

(** ** [download_data] *)

Definition with_data (w : World) (tsv : option string) (gz : option archive)
  : World :=
  {| movies := movies w; data_tsv := tsv; data_tsv_gz := gz; remote := remote w |}.

Definition fetch : M unit :=
  print (Text "Downloading movies dataset...") ;;
  w <- ask ;;
  match remote w with
  | Some a =>
      put (with_data w (data_tsv w) (Some a)) ;;
      print (Text "Downloaded movies dataset.")
  | None => raise URLError
  end.

Definition unzip : M unit :=
  print (Text "Unzipping movies dataset...") ;;
  w <- ask ;;
  match data_tsv_gz w with
  | Some a =>
      put (with_data w (Some "") (data_tsv_gz w)) ;;
      match a with
      | Some text =>
          put (with_data w (Some text) (data_tsv_gz w)) ;;
          print (Text "Unzipped movies dataset.")
      | None => raise BadGzipFile
      end
  | None => raise FileNotFoundError
  end.

Definition download_data : M unit :=
  call P_download_data ;;
  w <- ask ;;
  match data_tsv w with
  | Some _ => ret tt
  | None =>
      match data_tsv_gz w with
      | None => fetch ;; unzip
      | Some _ => unzip
      end
  end.

(** ** [execute_riddle_solver] *)

Fixpoint print_hashes (items : list (Z * option string)) : M unit :=
  match items with
  | [] => ret tt
  | (k, hash) :: rest => print (HashRow k hash) ;; print_hashes rest
  end.

Definition execute_riddle_solver : M unit :=
  print (Text (String PyStr.newline
                 "Searching for hashes and allready found solutions...")) ;;
  r <- get_hashes_and_solutions ;;
  let hashes := fst r in
  let solutions := snd r in
  if PyDict.len hashes =? 0 then
    print (Text "No hashes to solve!") ;;
    check_solutions
  else
    download_data ;;
    print (HashesHeader (PyDict.len hashes)) ;;
    print_hashes (PyDict.items hashes) ;;
    print Line ;;
    r' <- find_solutions_proc hashes solutions ;;
    let hashes := fst r' in
    let solutions := snd r' in
    print Line ;;
    print (SolutionsHeader (PyDict.len solutions)) ;;
    print (SolutionRows (PyDict.items solutions)) ;;
    print (Text "") ;;
    print (NotFoundHeader (PyDict.len hashes)) ;;
    print (NotFoundRows (PyDict.items hashes)) ;;
    print Line ;;
    write_solutions solutions.

(** ** [clear_solutions] *)

(** [os.path.exists(get_solution_path(dir))] *)
Definition solution_exists (w : World) (dir : string) : bool :=
  match riddle_at w dir with
  | Some d => match solution_txt d with Some _ => true | None => false end
  | None => false
  end.

(** [os.remove(get_solution_path(dir))] *)
Definition remove_solution_txt (dir : string) : M unit :=
  fun w =>
    match lookup dir (movies w) with
    | Some (Dir d) =>
        match solution_txt d with
        | Some _ =>
            let d' := {| verify_py := verify_py d; solution_txt := None |} in
            (inr tt, with_movies w (update dir (Dir d') (movies w)), [])
        | None => (inl FileNotFoundError, w, [])
        end
    | Some File => (inl NotADirectoryError, w, [])
    | None => (inl FileNotFoundError, w, [])
    end.

(** The loop over the listing taken before the first removal. *)
Fixpoint clear_loop (files : list string) : M unit :=
  match files with
  | [] => ret tt
  | file :: rest =>
      w <- ask ;;
      (if isdir w file then
         if solution_exists w file then remove_solution_txt file else ret tt
       else ret tt) ;;
      clear_loop rest
  end.

Definition clear_solutions : M unit :=
  w <- ask ;;
  clear_loop (listdir w) ;;
  print (Text "solutions cleared.").

(** ** The command line *)

(** The three flags of [argparse], each [store_true]. *)
Record args := {
  solve : bool;
  check : bool;
  clear : bool
}.

(** The body under [if __name__ == "__main__"], after [parse_args]. *)
Definition main (a : args) : M unit :=
  (if clear a then clear_solutions else ret tt) ;;
  if check a then check_solutions
  else if solve a then execute_riddle_solver
  else ret tt.

(* ================================================================== *)
(** * The disk: where listing and reading can fail                      *)
(* ================================================================== *)

(** A world keeps a text in every file, always has its [movies] folder
    and knows archives that [gzip] reads or refuses.  The program can
    meet less: no [movies] folder, a file whose bytes do not decode, an
    archive that was cut short.  The procedures are given once more
    over a disk that can be so, from the same lines, with the
    exceptions these raise.  [to_disk] places a world on a disk. *)

(** A file that is opened in text mode. *)
Inductive content :=
| Decodes (stored : string)   (* bytes that decode to [stored] *)
| Undecodable.                (* bytes that do not: [read] raises *)

(** A file that is opened with [gzip.open]. *)
Inductive gz :=
| Gzip (payload : content)    (* decompresses to the bytes of [payload] *)
| Truncated                   (* ends before its end-of-stream marker *)
| NotGzip.                    (* is no gzip stream *)

Declare Scope disk_scope.
Delimit Scope disk_scope with disk.

Module Disk.

Record riddle_dir := {
  verify_py : option content;
  solution_txt : option content
}.

Inductive node :=
| File
| Dir (d : riddle_dir).

Record t := {
  movies : option (list (string * node));  (* [None]: no such folder *)
  data_tsv : option content;               (* ./data.tsv *)
  data_tsv_gz : option gz;                 (* ./data.tsv.gz *)
  remote : option gz                       (* what [dataset_url] serves *)
}.

(** [open(path, "r").read()] *)
Definition read (c : content) : result string :=
  match c with
  | Decodes stored => inr (read_text stored)
  | Undecodable => inl UnicodeDecodeError
  end.

Fixpoint lookup (name : string) (l : list (string * node)) : option node :=
  match l with
  | [] => None
  | (n, x) :: l' => if String.eqb name n then Some x else lookup name l'
  end.

(** What [os.path.join(movies_dir_path, name)] names. *)
Definition entry (d : t) (name : string) : option node :=
  match movies d with
  | Some l => lookup name l
  | None => None
  end.

Definition riddle_at (d : t) (name : string) : option riddle_dir :=
  match entry d name with
  | Some (Dir r) => Some r
  | _ => None
  end.

(** [get_solution] *)
Definition get_solution (d : t) (dir : string) : result (option string) :=
  match riddle_at d dir with
  | Some r =>
      match solution_txt r with
      | Some c =>
          match read c with
          | inr txt =>
              let solution := PyStr.strip txt in
              inr (if negb (String.eqb solution "") then Some solution else None)
          | inl e => inl e
          end
      | None => inr None
      end
  | None => inr None
  end.

(** [get_hash] *)
Definition get_hash (d : t) (dir : string) : result (option string) :=
  match riddle_at d dir with
  | Some r =>
      match verify_py r with
      | Some c =>
          match read c with
          | inr txt =>
              inr match re_search txt with
                  | Some g => if PyStr.truthy g then Some g else None
                  | None => None
                  end
          | inl e => inl e
          end
      | None => inr None
      end
  | None => inr None
  end.

(** [check_riddle]: the digest is read before the answer. *)
Definition check_riddle (d : t) (dir : string) : result bool :=
  match get_hash d dir with
  | inr hash =>
      match get_solution d dir with
      | inr solution => inr (check_hash hash solution)
      | inl e => inl e
      end
  | inl e => inl e
  end.

(** [os.listdir(movies_dir_path)] *)
Definition listdir (d : t) : result (list string) :=
  match movies d with
  | Some l => inr (map fst l)
  | None => inl FileNotFoundError
  end.

Definition isdir (d : t) (name : string) : bool :=
  match riddle_at d name with Some _ => true | None => false end.

(** ** Procedures *)

Definition M (A : Type) : Type := t -> result A * t * list event.

Definition ret {A} (a : A) : M A := fun d => (inr a, d, []).

Definition raise {A} (e : exn) : M A := fun d => (inl e, d, []).

Definition bind {A B} (m : M A) (k : A -> M B) : M B :=
  fun d =>
    match m d with
    | (inl e, d1, o1) => (inl e, d1, o1)
    | (inr a, d1, o1) =>
        match k a d1 with
        | (r, d2, o2) => (r, d2, o1 ++ o2)
        end
    end.

Definition emit (e : event) : M unit := fun d => (inr tt, d, [e]).
Definition print (m : msg) : M unit := emit (Printed m).
Definition call (p : proc) : M unit := emit (Call p).
Definition ask : M t := fun d => (inr d, d, []).
Definition put (d' : t) : M unit := fun _ => (inr tt, d', []).

(** A value that evaluating may raise. *)
Definition eval {A} (r : result A) : M A :=
  match r with
  | inr a => ret a
  | inl e => raise e
  end.

Notation "x <- c1 ;; c2" := (bind c1 (fun x => c2))
  (at level 61, c1 at next level, right associativity) : disk_scope.
Notation "c1 ;; c2" := (bind c1 (fun _ => c2))
  (at level 61, right associativity) : disk_scope.

Local Open Scope disk_scope.

(** ** [get_hashes_and_solutions] *)

Fixpoint scan_loop (d : t) (files : list string) (hashes solutions : dict)
  : result (dict * dict) :=
  match files with
  | [] => inr (hashes, solutions)
  | file :: rest =>
      if isdir d file then
        match check_riddle d file with
        | inr true =>
            match get_solution d file with
            | inr solution =>
                match PyInt.int file with
                | Some k =>
                    scan_loop d rest hashes (PyDict.set k solution solutions)
                | None => inl ValueError
                end
            | inl e => inl e
            end
        | inr false =>
            match get_hash d file with
            | inr hash =>
                match PyInt.int file with
                | Some k =>
                    scan_loop d rest (PyDict.set k hash hashes) solutions
                | None => inl ValueError
                end
            | inl e => inl e
            end
        | inl e => inl e
        end
      else scan_loop d rest hashes solutions
  end.

Definition scan (d : t) : result (dict * dict) :=
  match listdir d with
  | inr files => scan_loop d files PyDict.empty PyDict.empty
  | inl e => inl e
  end.

Definition get_hashes_and_solutions : M (dict * dict) :=
  call P_get_hashes_and_solutions ;;
  d <- ask ;;
  eval (scan d).

(** ** [find_solutions] *)

Definition find_solutions (d : t) (hashes solutions : dict)
  : result unit * (dict * dict) * list event :=
  match data_tsv d with
  | None => (inl FileNotFoundError, (hashes, solutions), [Call P_find_solutions])
  | Some c =>
      match read c with
      | inl e => (inl e, (hashes, solutions), [Call P_find_solutions])
      | inr text =>
          let lines := PyStr.readlines text in
          let total := List.length lines in
          match outer_loop lines (range 1 (Z.of_nat total - 1)) hashes solutions with
          | (r, ds, o) =>
              (r, ds,
               [Call P_find_solutions;
                Printed (Text "Start brute forcing movies riddles.");
                Printed (Total total)] ++ o)
          end
      end
  end.

Definition find_solutions_proc (hashes solutions : dict) : M (dict * dict) :=
  fun d =>
    match find_solutions d hashes solutions with
    | (inr _, ds, o) => (inr ds, d, o)
    | (inl e, _, o) => (inl e, d, o)
    end.

(** ** [write_solutions] *)

Fixpoint update (name : string) (x : node) (l : list (string * node))
  : list (string * node) :=
  match l with
  | [] => []
  | (n, y) :: l' =>
      if String.eqb name n then (n, x) :: l' else (n, y) :: update name x l'
  end.

Definition with_movies (d : t) (m : list (string * node)) : t :=
  {| movies := Some m; data_tsv := data_tsv d;
     data_tsv_gz := data_tsv_gz d; remote := remote d |}.

(** What a change of the file [solution.txt] of [dir] to [file] does. *)
Definition set_solution_txt (dir : string) (file : option content) : M unit :=
  fun d =>
    match movies d with
    | Some l =>
        match lookup dir l with
        | Some (Dir r) =>
            let r' := {| verify_py := verify_py r; solution_txt := file |} in
            (inr tt, with_movies d (update dir (Dir r') l), [])
        | Some File => (inl NotADirectoryError, d, [])
        | None => (inl FileNotFoundError, d, [])
        end
    | None => (inl FileNotFoundError, d, [])
    end.

(** [open(os.path.join(dir, "solution.txt"), "w")] followed by
    [write(content)]; opening alone leaves an empty file. *)
Definition write_solution_txt (dir : string) (content : string) : M unit :=
  set_solution_txt dir (Some (Decodes content)).

Fixpoint write_loop (items : list (Z * option string)) : M unit :=
  match items with
  | [] => ret tt
  | (k, solution) :: rest =>
      let dir := get_movie_dir k in
      write_solution_txt dir "" ;;
      match solution with
      | Some s => write_solution_txt dir (PyStr.strip s) ;; write_loop rest
      | None => raise AttributeError
      end
  end.

Definition write_solutions (solutions : dict) : M unit :=
  call P_write_solutions ;;
  print (Text "Writing solutions...") ;;
  write_loop (PyDict.items solutions) ;;
  print (Text "solutions writen.").

(** ** [check_solutions] *)

Fixpoint check_loop (files : list string) : M unit :=
  match files with
  | [] => ret tt
  | file :: rest =>
      d <- ask ;;
      (if isdir d file then
         solution <- eval (get_solution d file) ;;
         hash <- eval (get_hash d file) ;;
         let correct := check_hash hash solution in
         print (CheckRow file hash solution correct)
       else ret tt) ;;
      check_loop rest
  end.

Definition check_solutions : M unit :=
  call P_check_solutions ;;
  print (Text "check solutions:") ;;
  d <- ask ;;
  files <- eval (listdir d) ;;
  check_loop files.

(** ** [download_data] *)

Definition with_data (d : t) (tsv : option content) (z : option gz) : t :=
  {| movies := movies d; data_tsv := tsv; data_tsv_gz := z; remote := remote d |}.

Definition fetch : M unit :=
  print (Text "Downloading movies dataset...") ;;
  d <- ask ;;
  match remote d with
  | Some z =>
      put (with_data d (data_tsv d) (Some z)) ;;
      print (Text "Downloaded movies dataset.")
  | None => raise URLError
  end.

(** [data.tsv] is opened for writing before the archive is read. *)
Definition unzip : M unit :=
  print (Text "Unzipping movies dataset...") ;;
  d <- ask ;;
  match data_tsv_gz d with
  | Some z =>
      put (with_data d (Some (Decodes "")) (data_tsv_gz d)) ;;
      match z with
      | Gzip payload =>
          put (with_data d (Some payload) (data_tsv_gz d)) ;;
          print (Text "Unzipped movies dataset.")
      | Truncated => raise EOFError
      | NotGzip => raise BadGzipFile
      end
  | None => raise FileNotFoundError
  end.

Definition download_data : M unit :=
  call P_download_data ;;
  d <- ask ;;
  match data_tsv d with
  | Some _ => ret tt
  | None =>
      match data_tsv_gz d with
      | None => fetch ;; unzip
      | Some _ => unzip
      end
  end.

(** ** [execute_riddle_solver] *)

Fixpoint print_hashes (items : list (Z * option string)) : M unit :=
  match items with
  | [] => ret tt
  | (k, hash) :: rest => print (HashRow k hash) ;; print_hashes rest
  end.

Definition execute_riddle_solver : M unit :=
  print (Text (String PyStr.newline
                 "Searching for hashes and allready found solutions...")) ;;
  r <- get_hashes_and_solutions ;;
  let hashes := fst r in
  let solutions := snd r in
  if PyDict.len hashes =? 0 then
    print (Text "No hashes to solve!") ;;
    check_solutions
  else
    download_data ;;
    print (HashesHeader (PyDict.len hashes)) ;;
    print_hashes (PyDict.items hashes) ;;
    print Line ;;
    r' <- find_solutions_proc hashes solutions ;;
    let hashes := fst r' in
    let solutions := snd r' in
    print Line ;;
    print (SolutionsHeader (PyDict.len solutions)) ;;
    print (SolutionRows (PyDict.items solutions)) ;;
    print (Text "") ;;
    print (NotFoundHeader (PyDict.len hashes)) ;;
    print (NotFoundRows (PyDict.items hashes)) ;;
    print Line ;;
    write_solutions solutions.

(** ** [clear_solutions] *)

(** [os.path.exists(get_solution_path(dir))] *)
Definition solution_exists (d : t) (dir : string) : bool :=
  match riddle_at d dir with
  | Some r => match solution_txt r with Some _ => true | None => false end
  | None => false
  end.

(** [os.remove(get_solution_path(dir))] *)
Definition remove_solution_txt (dir : string) : M unit :=
  fun d =>
    match riddle_at d dir with
    | Some r =>
        match solution_txt r with
        | Some _ => set_solution_txt dir None d
        | None => (inl FileNotFoundError, d, [])
        end
    | None => set_solution_txt dir None d
    end.

Fixpoint clear_loop (files : list string) : M unit :=
  match files with
  | [] => ret tt
  | file :: rest =>
      d <- ask ;;
      (if isdir d file then
         if solution_exists d file then remove_solution_txt file else ret tt
       else ret tt) ;;
      clear_loop rest
  end.

Definition clear_solutions : M unit :=
  d <- ask ;;
  files <- eval (listdir d) ;;
  clear_loop files ;;
  print (Text "solutions cleared.").

(** ** The command line *)

Definition main (a : args) : M unit :=
  (if clear a then clear_solutions else ret tt) ;;
  if check a then check_solutions
  else if solve a then execute_riddle_solver
  else ret tt.

(** ** Vocabulary *)

(** The riddle folders, in the order of the listing; none without a
    [movies] folder. *)
Definition dirs (d : t) : list string :=
  match movies d with
  | Some l => filter (isdir d) (map fst l)
  | None => []
  end.

Definition undecodable (file : option content) : bool :=
  match file with Some Undecodable => true | _ => false end.

(** A folder with a [verify.py] or [solution.txt] that does not
    decode. *)
Definition unreadable (d : t) (name : string) : bool :=
  match riddle_at d name with
  | Some r => undecodable (verify_py r) || undecodable (solution_txt r)
  | None => false
  end.

(** What clearing and writing keep of a disk: the listing, the data
    files, which names are folders, and what [get_hash] does on each. *)
Definition agree (d d' : t) : Prop :=
  listdir d' = listdir d
  /\ data_tsv d' = data_tsv d
  /\ data_tsv_gz d' = data_tsv_gz d
  /\ remote d' = remote d
  /\ (forall name, isdir d' name = isdir d name)
  /\ (forall name, get_hash d' name = get_hash d name).

(** What is wrong with a folder for the scan: a file that does not
    decode, or else a name that [int] does not read. *)
Definition fault (d : t) (name : string) : option exn :=
  if unreadable d name then Some UnicodeDecodeError
  else match PyInt.int name with
       | Some _ => None
       | None => Some ValueError
       end.

(** The title fields of the records [find_solutions] reads, [None]
    for a record without one. *)
Definition dataset_titles (d : t) : list (option string) :=
  match data_tsv d with
  | Some (Decodes stored) =>
      map title_of (records (PyStr.readlines (read_text stored)))
  | _ => []
  end.

(** Every riddle folder bears the name [get_movie_dir] gives its
    index, and the listing names none twice. *)
Definition canonical (d : t) : Prop :=
  NoDup (dirs d)
  /\ forall file k, In file (dirs d) -> PyInt.int file = Some k ->
                    file = get_movie_dir k.

End Disk.

(** ** A world on a disk *)

Definition to_disk_dir (d : riddle_dir) : Disk.riddle_dir :=
  {| Disk.verify_py := option_map Decodes (verify_py d);
     Disk.solution_txt := option_map Decodes (solution_txt d) |}.

Definition to_disk_node (x : node) : Disk.node :=
  match x with
  | File => Disk.File
  | Dir d => Disk.Dir (to_disk_dir d)
  end.

Definition to_disk_entry (p : string * node) : string * Disk.node :=
  (fst p, to_disk_node (snd p)).

Definition to_disk_gz (a : archive) : gz :=
  match a with
  | Some text => Gzip (Decodes text)
  | None => NotGzip
  end.

Definition to_disk (w : World) : Disk.t :=
  {| Disk.movies := Some (map to_disk_entry (movies w));
     Disk.data_tsv := option_map Decodes (data_tsv w);
     Disk.data_tsv_gz := option_map to_disk_gz (data_tsv_gz w);
     Disk.remote := option_map to_disk_gz (remote w) |}.

(** ** The texts of a disk *)






(** The outcome of a procedure on a world, seen on the disk. *)
Definition on_disk {A : Type} (x : result A * World * list event)
  : result A * Disk.t * list event :=
  match x with
  | (r, w, out) => (r, to_disk w, out)
  end.

(** A procedure over disks does on the disk of a world what a
    procedure over worlds does on that world. *)
Definition agrees {A : Type} (m : Disk.M A) (m' : M A) : Prop :=
  forall w, m (to_disk w) = on_disk (m' w).

(* ================================================================== *)
(** * Vocabulary of the statements                                      *)
(* ================================================================== *)

(** A digit or one of [a]..[f]. *)
Definition is_lower_hex (c : ascii) : bool :=
  let n := PyStr.code c in
  ((48 <=? n) && (n <=? 57)) || ((97 <=? n) && (n <=? 102)).

Fixpoint all_chars (p : ascii -> bool) (s : string) : bool :=
  match s with
  | EmptyString => true
  | String c s' => p c && all_chars p s'
  end.

(** Forty lower-case hexadecimal digits. *)
Definition is_hex40 (s : string) : bool :=
  (String.length s =? 40) && all_chars is_lower_hex s.

(** The riddle folders: the entries of [movies] that are directories,
    in the order of [os.listdir]. *)
Definition dirs (w : World) : list string := filter (isdir w) (listdir w).

(** [k] is the index of a folder among [files]. *)
Definition keyed (w : World) (files : list string) (k : Z) : Prop :=
  exists file, In file files /\ isdir w file = true /\ PyInt.int file = Some k.

(** A row printed by [check_solutions]. *)
Definition is_check_row (e : event) : Prop :=
  match e with
  | Printed (CheckRow _ _ _ _) => True
  | _ => False
  end.

(** The pattern of [get_hash] matches at the head of [s]: the
    literal, then at least one character and a quote before the line
    ends. *)
Definition pattern_at (s : string) : Prop :=
  exists g post,
    s = (assert_prefix ++ g ++ String quote post)%string
    /\ g <> ""%string /\ no_newline g = true.

(** The decimal numeral of an integer. *)
Definition numeral (z : Z) : string := NilZero.string_of_int (Z.to_int z).

(** What [write_solutions] keeps of a world: the listing, the data
    files, which names are folders, and every digest. *)
Definition agree (w w' : World) : Prop :=
  listdir w' = listdir w
  /\ data_tsv w' = data_tsv w
  /\ data_tsv_gz w' = data_tsv_gz w
  /\ remote w' = remote w
  /\ (forall name, isdir w' name = isdir w name)
  /\ (forall name, get_hash w' name = get_hash w name).

(** The row [check_solutions] prints for a folder. *)
Definition check_row (w : World) (file : string) : event :=
  Printed (CheckRow file (get_hash w file) (get_solution w file)
             (check_riddle w file)).

(** The title fields of the records [find_solutions] reads, [None]
    for a record without one. *)
Definition dataset_titles (w : World) : list (option string) :=
  match data_tsv w with
  | Some stored => map title_of (records (PyStr.readlines (read_text stored)))
  | None => []
  end.


(** What the solver keeps of the riddle folders: the listing, which
    names are folders, every digest, and what the network serves. *)
Definition same_folders (w w' : World) : Prop :=
  listdir w' = listdir w
  /\ remote w' = remote w
  /\ (forall name, isdir w' name = isdir w name)
  /\ (forall name, get_hash w' name = get_hash w name).

(** Every riddle folder bears the name [get_movie_dir] gives its
    index, and the listing names none twice. *)
Definition canonical (w : World) : Prop :=
  NoDup (dirs w)
  /\ forall file k, In file (dirs w) -> PyInt.int file = Some k ->
                    file = get_movie_dir k.

(* ================================================================== *)
(** * Sample folders and data                                           *)
(* ================================================================== *)

Definition nl : string := String PyStr.newline "".

Definition inception_digest : string := "77e492d109db59d1fe3093815f1ee944242db20c".

Definition verify_inception : string :=
  ("from hashlib import sha1" ++ nl
   ++ "assert sha1(solution).hexdigest() == '" ++ inception_digest ++ "'" ++ nl)%string.

(** One folder, [00], whose [verify.py] holds [txt]. *)
Definition world_of_verify (txt : string) : World :=
  {| movies := [("00", Dir {| verify_py := Some txt; solution_txt := None |})];
     data_tsv := None; data_tsv_gz := None; remote := None |}.

(** One folder with an answer and no [verify.py]. *)
Definition bare_world : World :=
  {| movies := [("00", Dir {| verify_py := None; solution_txt := Some "Alien" |})];
     data_tsv := None; data_tsv_gz := None; remote := None |}.

(** A folder solved on disk, a pending one, one without [verify.py],
    and a plain file. *)
Definition registry_world : World :=
  {| movies :=
       [("00", Dir {| verify_py := Some verify_inception;
                      solution_txt := Some "  InCePtIoN  " |});
        ("01", Dir {| verify_py := Some verify_inception;
                      solution_txt := Some "Alien" |});
        ("02", Dir {| verify_py := None; solution_txt := None |});
        ("README.md", File)];
     data_tsv := None; data_tsv_gz := None; remote := None |}.

(** A folder solved on disk and a folder without [verify.py]: no
    digest is left to find. *)
Definition digestless_world : World :=
  {| movies :=
       [("00", Dir {| verify_py := Some verify_inception;
                      solution_txt := Some "Inception" |});
        ("01", Dir {| verify_py := None; solution_txt := None |})];
     data_tsv := None; data_tsv_gz := None; remote := None |}.

(** A disk with one folder, [00], that holds the two files given. *)
Definition disk_of_folder (verify solution : option content) : Disk.t :=
  {| Disk.movies :=
       Some [("00", Disk.Dir {| Disk.verify_py := verify;
                                Disk.solution_txt := solution |})];
     Disk.data_tsv := None; Disk.data_tsv_gz := None; Disk.remote := None |}.


(** Sample data: a header, two records and a blank last line. *)
Definition tb : string := String PyStr.tab "".

Definition record_of (id title : string) : string :=
  (id ++ tb ++ "movie" ++ tb ++ title ++ tb ++ title ++ tb ++ "0" ++ nl)%string.

Definition dataset : string :=
  ("tconst" ++ tb ++ "titleType" ++ tb ++ "primaryTitle" ++ tb ++ "originalTitle" ++ nl
   ++ record_of "tt1" "Inception" ++ record_of "tt2" "inception" ++ nl)%string.

Definition pending_folder : node :=
  Dir {| verify_py := Some verify_inception; solution_txt := None |}.

Definition dataset_world (folders : list (string * node)) : World :=
  {| movies := folders; data_tsv := Some dataset;
     data_tsv_gz := None; remote := None |}.

(** No data on disk; the network serves the archive of [dataset]. *)
Definition remote_world : World :=
  {| movies := [("00", pending_folder)]; data_tsv := None;
     data_tsv_gz := None; remote := Some (Some dataset) |}.

(* ================================================================== *)
(** * The library functions on known values                             *)
(* ================================================================== *)

Example sha1_empty :
  SHA1.hexdigest [] = "da39a3ee5e6b4b0d3255bfef95601890afd80709".
Proof. vm_compute. reflexivity. Qed.

Example sha1_abc :
  SHA1.hexdigest (PyStr.encode_utf8 "abc")
  = "a9993e364706816aba3e25717850c26c9cd0d89d".
Proof. vm_compute. reflexivity. Qed.

(** Two blocks, and the block boundary at 55 and 56 bytes. *)
Example sha1_two_blocks :
  SHA1.hexdigest
    (PyStr.encode_utf8 "abcdbcdecdefdefgefghfghighijhijkijkljklmklmnlmnomnopnopq")
  = "84983e441c3bd26ebaae4aa1f95129e5e54670f1".
Proof. vm_compute. reflexivity. Qed.

Example sha1_padding_boundary :
  SHA1.hexdigest (repeat 97%Z 55) = "c1c8bbdc22796e28c0e15163d20899b65621d65a"
  /\ SHA1.hexdigest (repeat 97%Z 56) = "c2db330f6083854c99d4b5bfb6e8f29f201be699"
  /\ SHA1.hexdigest (repeat 97%Z 64) = "0098ba824b5c16427bd7a1122a5a442a25ec644d".
Proof. repeat split; vm_compute; reflexivity. Qed.

(** U+00E9 is encoded in two bytes. *)
Example sha1_latin1 :
  PyStr.encode_utf8 (String (ascii_of_nat 233) "") = [195; 169]%Z
  /\ sha1_hex (String (ascii_of_nat 233) "")
     = "bf15be717ac1b080b4f1c456692825891ff5073d".
Proof. split; vm_compute; reflexivity. Qed.

Example sha1_inception : sha1_hex "inception" = inception_digest.
Proof. vm_compute. reflexivity. Qed.

Example normalize_example :
  normalize (String PyStr.tab " Hello World" ++ nl)%string = "hello world".
Proof. reflexivity. Qed.

Example split_examples :
  PyStr.split PyStr.tab ("a" ++ tb ++ "b" ++ tb ++ tb ++ "c")%string = ["a"; "b"; ""; "c"]
  /\ PyStr.split PyStr.tab "" = [""].
Proof. split; reflexivity. Qed.

Example readlines_examples :
  PyStr.readlines
    (read_text ("h" ++ String CR nl ++ "row1" ++ String CR "row2" ++ nl ++ nl ++ "last")%string)
  = [("h" ++ nl)%string; ("row1" ++ nl)%string; ("row2" ++ nl)%string; nl; "last"]
  /\ PyStr.readlines (read_text ("h" ++ nl ++ "a" ++ nl)%string)
     = [("h" ++ nl)%string; ("a" ++ nl)%string].
Proof. split; reflexivity. Qed.

Example range_examples :
  range 1 (-1) = [] /\ range 1 0 = [] /\ range 1 3 = [1; 2]%Z.
Proof. repeat split. Qed.

Example fmt_examples :
  map PyInt.format_02d [0; 7; 42; 123; -5; -12]%Z = ["00"; "07"; "42"; "123"; "-5"; "-12"].
Proof. reflexivity. Qed.

Example int_examples :
  map PyInt.int ["07"; " 7 "; "+1_0"; "-3"; "1__0"; "_1"; "x"; ""; "-"; "7_"; "+ 7"]
  = [Some 7; Some 7; Some 10; Some (-3); None; None; None; None; None; None; None]%Z.
Proof. reflexivity. Qed.

Example re_examples :
  map re_search
    ["x = 1" ++ String PyStr.newline "assert sha1(solution).hexdigest() == 'abc'" ++ String PyStr.newline "";
     "assert sha1(solution).hexdigest() == 'abc' # it's";
     "assert sha1(solution).hexdigest() == ''";
     "assert sha1(solution).hexdigest() == '''";
     "assert sha1(solution).hexdigest() == 'ab" ++ String PyStr.newline "c'"]%string
  = [Some "abc"; Some "abc' # it"; None; Some "'"; None].
Proof. reflexivity. Qed.

(** The literal alone on a line does not match; of two lines that do,
    the first gives the value. *)
Example re_first_line :
  re_search (assert_prefix ++ nl
             ++ assert_prefix ++ "aaa'" ++ nl
             ++ assert_prefix ++ "bbb'")%string
  = Some "aaa".
Proof. reflexivity. Qed.

(* ================================================================== *)
(** * Properties of the digest matcher                                  *)
(* ================================================================== *)

Section CheckHash.

Lemma truthy_true (s : string) : PyStr.truthy s = true <-> s <> "".
Proof.
  destruct s; simpl; split; intro H; try congruence; try discriminate.
Qed.

Lemma eq_opt_true (s : string) (h : option string) :
  eq_opt s h = true <-> h = Some s.
Proof.
  destruct h as [h'|]; simpl.
  - rewrite String.eqb_eq. split; intro H; [subst | inversion H]; reflexivity.
  - split; discriminate.
Qed.

(** When [check_hash] answers [True]. *)
Lemma check_hash_true (hash : option string) (s : string) :
  check_hash hash (Some s) = true
  <-> s <> "" /\ hash = Some (sha1_hex (normalize s)).
Proof.
  unfold check_hash. destruct (PyStr.truthy s) eqn:T.
  - rewrite orb_false_r, eq_opt_true.
    apply truthy_true in T. tauto.
  - split; [discriminate|]. intros [Hs _].
    apply truthy_true in Hs. congruence.
Qed.

Lemma check_hash_none_solution (hash : option string) :
  check_hash hash None = false.
Proof. reflexivity. Qed.

Lemma check_hash_none_hash (solution : option string) :
  check_hash None solution = false.
Proof.
  destruct solution as [s|]; [|reflexivity].
  unfold check_hash. destruct (PyStr.truthy s); reflexivity.
Qed.

End CheckHash.

(** C1 (as amended).  [check_hash] answers true exactly when the
    candidate itself is not the empty string and the SHA-1 digest of its
    normal form is the given digest, compared character by character.
    The guard looks at the candidate before it is trimmed. *)
Theorem check_hash_iff (d c : string) :
  check_hash (Some d) (Some c) = true
  <-> c <> "" /\ sha1_hex (normalize c) = d.
Proof.
  rewrite check_hash_true. split; intros [Hc Hd]; split; auto; congruence.
Qed.

(** C1 fails as stated: a candidate of one space is empty after
    normalisation, and [check_hash] accepts it for the digest of the
    empty string. *)
Lemma check_hash_accepts_blank :
  normalize " " = ""
  /\ check_hash (Some "da39a3ee5e6b4b0d3255bfef95601890afd80709") (Some " ") = true
  /\ ~ (forall d c : string,
          check_hash (Some d) (Some c) = true
          <-> sha1_hex (normalize c) = d /\ normalize c <> "").
Proof.
  assert (E : check_hash (Some "da39a3ee5e6b4b0d3255bfef95601890afd80709")
                (Some " ") = true) by (vm_compute; reflexivity).
  split; [reflexivity|]. split; [exact E|].
  intro H. apply H in E. destruct E as [_ Hn]. apply Hn. reflexivity.
Qed.

(** C3 (as amended).  A string that is not empty matches the digest of
    its own normal form; a string matches the digest of another
    string's normal form as soon as the two normal forms are equal and
    it is not empty; and it does not match when the digests of the two
    normal forms differ. *)
Theorem digest_round_trip :
  (forall s, s <> "" ->
     check_hash (Some (sha1_hex (normalize s))) (Some s) = true)
  /\ (forall s1 s2, s2 <> "" -> normalize s1 = normalize s2 ->
        check_hash (Some (sha1_hex (normalize s1))) (Some s2) = true)
  /\ (forall s1 s2, sha1_hex (normalize s1) <> sha1_hex (normalize s2) ->
        check_hash (Some (sha1_hex (normalize s1))) (Some s2) = false).
Proof.
  repeat split.
  - intros s Hs. apply check_hash_true. auto.
  - intros s1 s2 Hs E. apply check_hash_true. rewrite E. auto.
  - intros s1 s2 Hd.
    destruct (check_hash _ (Some s2)) eqn:C; [|reflexivity].
    apply check_hash_true in C. destruct C as [_ C].
    inversion C. congruence.
Qed.

Lemma digest_round_trip_witness :
  check_hash (Some (sha1_hex (normalize "Inception"))) (Some "Inception") = true
  /\ check_hash (Some (sha1_hex (normalize "A"))) (Some " a ") = true
  /\ check_hash (Some (sha1_hex (normalize "a"))) (Some "b") = false.
Proof.
  destruct digest_round_trip as [H1 [H2 H3]].
  split; [|split].
  - apply H1. discriminate.
  - apply H2; [discriminate | reflexivity].
  - apply H3. vm_compute. discriminate.
Defined.

(** C3 fails as stated: the empty string does not match the digest of
    its normal form, and ["A"], which differs from the normal form of
    ["a"], yields a digest that ["a"] matches. *)
Lemma digest_round_trip_fails :
  check_hash (Some (sha1_hex (normalize ""))) (Some "") = false
  /\ "A" <> normalize "a"
  /\ check_hash (Some (sha1_hex (normalize "A"))) (Some "a") = true
  /\ ~ (forall s, check_hash (Some (sha1_hex (normalize s))) (Some s) = true)
  /\ ~ (forall s1 s2, s1 <> normalize s2 ->
          check_hash (Some (sha1_hex (normalize s1))) (Some s2) = false).
Proof.
  assert (E : check_hash (Some (sha1_hex (normalize "A"))) (Some "a") = true)
    by (vm_compute; reflexivity).
  split; [reflexivity|]. split; [discriminate|]. split; [exact E|]. split.
  - intro H. specialize (H ""). discriminate.
  - intro H. rewrite (H "A" "a") in E; discriminate.
Qed.

Section DiskReads.

Lemma get_hash_raises (d : Disk.t) (dir : string) (e : exn) :
  Disk.get_hash d dir = inl e
  <-> e = UnicodeDecodeError
      /\ exists r, Disk.riddle_at d dir = Some r
                   /\ Disk.verify_py r = Some Undecodable.
Proof.
  unfold Disk.get_hash. destruct (Disk.riddle_at d dir) as [r|].
  - destruct (Disk.verify_py r) as [[stored|]|] eqn:V; cbn [Disk.read].
    + split; [discriminate|]. intros [_ [r' [R H]]]. congruence.
    + split.
      * intro H. inversion H. eauto.
      * intros [-> _]. reflexivity.
    + split; [discriminate|]. intros [_ [r' [R H]]]. congruence.
  - split; [discriminate|]. intros [_ [r' [R _]]]. discriminate.
Qed.

Lemma get_solution_raises (d : Disk.t) (dir : string) (e : exn) :
  Disk.get_solution d dir = inl e
  <-> e = UnicodeDecodeError
      /\ exists r, Disk.riddle_at d dir = Some r
                   /\ Disk.solution_txt r = Some Undecodable.
Proof.
  unfold Disk.get_solution. destruct (Disk.riddle_at d dir) as [r|].
  - destruct (Disk.solution_txt r) as [[stored|]|] eqn:V; cbn [Disk.read].
    + split; [discriminate|]. intros [_ [r' [R H]]]. congruence.
    + split.
      * intro H. inversion H. eauto.
      * intros [-> _]. reflexivity.
    + split; [discriminate|]. intros [_ [r' [R H]]]. congruence.
  - split; [discriminate|]. intros [_ [r' [R _]]]. discriminate.
Qed.

(** [check_riddle] raises exactly on a folder with a file that does
    not decode. *)
Lemma check_riddle_raises (d : Disk.t) (dir : string) (e : exn) :
  Disk.check_riddle d dir = inl e
  <-> e = UnicodeDecodeError /\ Disk.unreadable d dir = true.
Proof.
  unfold Disk.check_riddle, Disk.unreadable.
  destruct (Disk.get_hash d dir) as [e1|h] eqn:H.
  - apply get_hash_raises in H. destruct H as [-> [r [R V]]].
    rewrite R, V. cbn [Disk.undecodable orb]. split.
    + intro X. inversion X. auto.
    + intros [-> _]. reflexivity.
  - destruct (Disk.get_solution d dir) as [e2|s0] eqn:S.
    + apply get_solution_raises in S. destruct S as [-> [r [R V]]].
      rewrite R, V. cbn [Disk.undecodable]. rewrite orb_true_r. split.
      * intro X. inversion X. auto.
      * intros [-> _]. reflexivity.
    + split; [discriminate|]. intros [_ U]. exfalso.
      destruct (Disk.riddle_at d dir) as [r|] eqn:R; [|discriminate].
      apply orb_true_iff in U. destruct U as [U|U].
      * assert (X : Disk.get_hash d dir = inl UnicodeDecodeError).
        { apply get_hash_raises. split; [reflexivity|]. exists r.
          split; [exact R|]. unfold Disk.undecodable in U.
          destruct (Disk.verify_py r) as [[|]|]; try discriminate. reflexivity. }
        congruence.
      * assert (X : Disk.get_solution d dir = inl UnicodeDecodeError).
        { apply get_solution_raises. split; [reflexivity|]. exists r.
          split; [exact R|]. unfold Disk.undecodable in U.
          destruct (Disk.solution_txt r) as [[|]|]; try discriminate. reflexivity. }
        congruence.
Qed.

End DiskReads.

(** C9 (as amended).  [check_hash] answers false, and raises nothing,
    when the answer is [None] and when the digest is [None].
    [check_riddle] reads both files of the folder: it raises, and then
    [UnicodeDecodeError], exactly when [verify.py] or [solution.txt] is
    there and does not decode.  On a folder without [verify.py] or
    without [solution.txt] it therefore answers false when the other
    file is absent too or decodes, and raises when it does not. *)
Theorem check_total_on_absent :
  (forall hash, check_hash hash None = false)
  /\ (forall solution, check_hash None solution = false)
  /\ (forall d dir e,
        Disk.check_riddle d dir = inl e
        <-> e = UnicodeDecodeError /\ Disk.unreadable d dir = true)
  /\ (forall d dir,
        Disk.riddle_at d dir = None -> Disk.check_riddle d dir = inr false)
  /\ (forall d dir r,
        Disk.riddle_at d dir = Some r ->
        Disk.verify_py r = None \/ Disk.solution_txt r = None ->
        (Disk.unreadable d dir = false -> Disk.check_riddle d dir = inr false)
        /\ (Disk.unreadable d dir = true ->
            Disk.check_riddle d dir = inl UnicodeDecodeError))
  /\ (forall d dir hash solution,
        Disk.get_hash d dir = inr hash ->
        Disk.get_solution d dir = inr solution ->
        hash = None \/ solution = None ->
        Disk.check_riddle d dir = inr false).
Proof.
  split; [exact check_hash_none_solution|].
  split; [exact check_hash_none_hash|].
  split; [exact check_riddle_raises|].
  assert (Last : forall d dir hash solution,
             Disk.get_hash d dir = inr hash ->
             Disk.get_solution d dir = inr solution ->
             hash = None \/ solution = None ->
             Disk.check_riddle d dir = inr false).
  { intros d dir hash solution H S [->| ->]; unfold Disk.check_riddle;
      rewrite H, S;
      [rewrite check_hash_none_hash | rewrite check_hash_none_solution];
      reflexivity. }
  split; [|split; [|exact Last]].
  - intros d dir R. unfold Disk.check_riddle, Disk.get_hash, Disk.get_solution.
    rewrite R. reflexivity.
  - intros d dir r R A. split.
    + intro U.
      destruct (Disk.check_riddle d dir) as [e|b] eqn:C.
      * apply check_riddle_raises in C. destruct C as [_ C]. congruence.
      * unfold Disk.check_riddle in C.
        destruct (Disk.get_hash d dir) as [e1|h] eqn:H; [discriminate|].
        destruct (Disk.get_solution d dir) as [e2|s0] eqn:S; [discriminate|].
        rewrite <- C. f_equal.
        unfold Disk.get_hash in H. unfold Disk.get_solution in S.
        rewrite R in H, S.
        destruct A as [A|A]; [rewrite A in H | rewrite A in S].
        -- inversion H. apply check_hash_none_hash.
        -- inversion S. apply check_hash_none_solution.
    + intro U. apply check_riddle_raises. auto.
Qed.

Lemma check_total_on_absent_witness :
  Disk.check_riddle (disk_of_folder None (Some (Decodes "Alien"))) "00"
  = inr false.
Proof.
  destruct check_total_on_absent as [_ [_ [_ [_ [H _]]]]].
  apply (H (disk_of_folder None (Some (Decodes "Alien"))) "00"
           {| Disk.verify_py := None;
              Disk.solution_txt := Some (Decodes "Alien") |}).
  - reflexivity.
  - left. reflexivity.
  - reflexivity.
Defined.

(** C9 fails as stated.  A folder without an answer whose [verify.py]
    does not decode, and a folder without [verify.py] whose
    [solution.txt] does not decode: [check_riddle] raises on both. *)
Lemma check_riddle_fails_on_absent :
  Disk.solution_txt
    {| Disk.verify_py := Some Undecodable; Disk.solution_txt := None |} = None
  /\ Disk.check_riddle (disk_of_folder (Some Undecodable) None) "00"
     = inl UnicodeDecodeError
  /\ Disk.verify_py
       {| Disk.verify_py := None; Disk.solution_txt := Some Undecodable |} = None
  /\ Disk.check_riddle (disk_of_folder None (Some Undecodable)) "00"
     = inl UnicodeDecodeError
  /\ ~ (forall d dir r,
          Disk.riddle_at d dir = Some r ->
          Disk.verify_py r = None \/ Disk.solution_txt r = None ->
          Disk.check_riddle d dir = inr false).
Proof.
  split; [reflexivity|]. split; [reflexivity|].
  split; [reflexivity|]. split; [reflexivity|].
  intro H.
  specialize (H (disk_of_folder None (Some Undecodable)) "00"
                {| Disk.verify_py := None;
                   Disk.solution_txt := Some Undecodable |}
                eq_refl (or_introl eq_refl)).
  discriminate.
Qed.

(* ================================================================== *)
(** * The pattern of [get_hash]                                         *)
(* ================================================================== *)

Section Pattern.
Local Open Scope string_scope.

Lemma drop_prefix_some (p s r : string) :
  drop_prefix p s = Some r <-> s = p ++ r.
Proof.
  revert s. induction p as [|a p IH]; intros s; simpl.
  - split; intro H; [inversion H | subst]; reflexivity.
  - destruct s as [|b s]; [split; discriminate|].
    destruct (Ascii.eqb a b) eqn:E.
    + apply Ascii.eqb_eq in E. subst b. rewrite IH.
      split; intro H; [subst | inversion H]; reflexivity.
    + apply Ascii.eqb_neq in E. split; [discriminate|].
      intro H. inversion H. congruence.
Qed.

(** [.*'] fails exactly when the line has no quote left. *)
Lemma dot_star_quote_none (s : string) :
  dot_star_quote s = None <-> quote_on_line s = false.
Proof.
  induction s as [|c s IH]; simpl; [tauto|].
  destruct (Ascii.eqb c PyStr.newline); [tauto|].
  destruct (dot_star_quote s) as [g|].
  - split; [discriminate|]. intro H.
    apply orb_false_iff in H. destruct H as [_ H].
    apply IH in H. discriminate.
  - destruct (Ascii.eqb c quote); simpl.
    + split; discriminate.
    + tauto.
Qed.

(** [.*'] is greedy: it stops at the last quote of the line. *)
Lemma dot_star_quote_sound (s g : string) :
  dot_star_quote s = Some g ->
  exists post, s = g ++ String quote post
               /\ no_newline g = true /\ quote_on_line post = false.
Proof.
  revert g. induction s as [|c s IH]; intros g; simpl; [discriminate|].
  destruct (Ascii.eqb c PyStr.newline) eqn:N; [discriminate|].
  destruct (dot_star_quote s) as [g'|] eqn:D.
  - intro H. inversion H; subst g.
    destruct (IH g' eq_refl) as [post [E [Hn Hq]]].
    exists post. simpl. rewrite N. subst s. auto.
  - destruct (Ascii.eqb c quote) eqn:Q; [|discriminate].
    intro H. inversion H; subst g. apply Ascii.eqb_eq in Q. subst c.
    exists s. simpl. apply dot_star_quote_none in D. auto.
Qed.

Lemma dot_star_quote_exact (g post : string) :
  no_newline g = true -> quote_on_line post = false ->
  dot_star_quote (g ++ String quote post) = Some g.
Proof.
  intros Hn Hq. induction g as [|c g IH]; simpl.
  - apply dot_star_quote_none in Hq. rewrite Hq. reflexivity.
  - simpl in Hn. apply andb_true_iff in Hn. destruct Hn as [Hc Hn].
    apply negb_true_iff in Hc. rewrite Hc, (IH Hn). reflexivity.
Qed.

Lemma dot_star_quote_complete (g post : string) :
  no_newline g = true ->
  exists g', dot_star_quote (g ++ String quote post) = Some g'.
Proof.
  intros Hn. induction g as [|c g IH]; simpl.
  - destruct (dot_star_quote post); eauto.
  - simpl in Hn. apply andb_true_iff in Hn. destruct Hn as [Hc Hn].
    apply negb_true_iff in Hc. rewrite Hc.
    destruct (IH Hn) as [g' E]. rewrite E. eauto.
Qed.

(** [(.+)']: at least one character in the group. *)
Lemma dot_plus_quote_sound (s g : string) :
  dot_plus_quote s = Some g ->
  g <> "" /\ no_newline g = true
  /\ exists post, s = g ++ String quote post /\ quote_on_line post = false.
Proof.
  destruct s as [|c s]; simpl; [discriminate|].
  destruct (Ascii.eqb c PyStr.newline) eqn:N; [discriminate|].
  destruct (dot_star_quote s) as [g'|] eqn:D; simpl; [|discriminate].
  intro H. inversion H; subst g.
  destruct (dot_star_quote_sound _ _ D) as [post [E [Hn Hq]]].
  split; [discriminate|]. split.
  - simpl. rewrite N, Hn. reflexivity.
  - exists post. subst s. auto.
Qed.

Lemma dot_plus_quote_exact (g post : string) :
  g <> "" -> no_newline g = true -> quote_on_line post = false ->
  dot_plus_quote (g ++ String quote post) = Some g.
Proof.
  intros Hg Hn Hq. destruct g as [|c g]; [congruence|].
  simpl in *. apply andb_true_iff in Hn. destruct Hn as [Hc Hn].
  apply negb_true_iff in Hc. rewrite Hc.
  rewrite (dot_star_quote_exact g post Hn Hq). reflexivity.
Qed.

Lemma dot_plus_quote_complete (g post : string) :
  g <> "" -> no_newline g = true ->
  exists g', dot_plus_quote (g ++ String quote post) = Some g'.
Proof.
  intros Hg Hn. destruct g as [|c g]; [congruence|].
  simpl in *. apply andb_true_iff in Hn. destruct Hn as [Hc Hn].
  apply negb_true_iff in Hc. rewrite Hc.
  destruct (dot_star_quote_complete g post Hn) as [g' E].
  rewrite E. simpl. eauto.
Qed.

(** The pattern at the head of a text. *)
Lemma match_here_sound (s g : string) :
  match_here s = Some g ->
  g <> "" /\ no_newline g = true
  /\ exists post, s = assert_prefix ++ g ++ String quote post
                  /\ quote_on_line post = false.
Proof.
  unfold match_here.
  destruct (drop_prefix assert_prefix s) as [rest|] eqn:P; [|discriminate].
  apply drop_prefix_some in P. intro H.
  destruct (dot_plus_quote_sound _ _ H) as [Hg [Hn [post [E Hq]]]].
  repeat split; auto. exists post. subst. auto.
Qed.

Lemma match_here_at (rest : string) :
  match_here (assert_prefix ++ rest) = dot_plus_quote rest.
Proof.
  unfold match_here.
  assert (P : drop_prefix assert_prefix (assert_prefix ++ rest) = Some rest)
    by (apply drop_prefix_some; reflexivity).
  rewrite P. reflexivity.
Qed.

Lemma re_search_eq (s : string) :
  re_search s =
  match match_here s with
  | Some g => Some g
  | None => match s with
            | String _ s' => re_search s'
            | EmptyString => None
            end
  end.
Proof. destruct s; reflexivity. Qed.

(** [re.search] finds a match when there is one anywhere, ... *)
Lemma re_search_complete (pre rest g : string) :
  match_here rest = Some g -> exists g', re_search (pre ++ rest) = Some g'.
Proof.
  intro H. induction pre as [|c pre IH].
  - simpl. rewrite re_search_eq, H. eauto.
  - rewrite re_search_eq. simpl.
    destruct (match_here (String c (pre ++ rest))); eauto.
Qed.

(** ... every match it reports is one, ... *)
Lemma re_search_sound (s g : string) :
  re_search s = Some g ->
  exists pre rest, s = pre ++ rest /\ match_here rest = Some g.
Proof.
  induction s as [|c s IH]; rewrite re_search_eq.
  - destruct (match_here "") eqn:E; [|discriminate].
    intro H. inversion H; subst. exists "", "". auto.
  - destruct (match_here (String c s)) eqn:E.
    + intro H. inversion H; subst. exists "", (String c s). auto.
    + intro H. destruct (IH H) as [pre [rest [Es Hm]]].
      exists (String c pre), rest. subst s. auto.
Qed.

(** ... and it reports the leftmost one. *)
Lemma re_search_leftmost (pre rest g : string) :
  starts_within assert_prefix pre rest = false ->
  match_here rest = Some g ->
  re_search (pre ++ rest) = Some g.
Proof.
  intros Hs Hm. induction pre as [|c pre IH].
  - simpl. rewrite re_search_eq, Hm. reflexivity.
  - rewrite re_search_eq.
    change (String c pre ++ rest) with (String c (pre ++ rest)).
    cbn [starts_within] in Hs. unfold match_here at 1.
    destruct (drop_prefix assert_prefix (String c (pre ++ rest)));
      [discriminate|].
    apply IH. exact Hs.
Qed.

(** The pattern fails at the head of a text exactly when the text
    does not begin with a line of its shape. *)
Lemma match_here_none (s : string) :
  match_here s = None <-> ~ pattern_at s.
Proof.
  split.
  - intros H [g [post [E [Hg Hn]]]]. subst s. rewrite match_here_at in H.
    destruct (dot_plus_quote_complete g post Hg Hn) as [g' Hp]. congruence.
  - intro H. destruct (match_here s) as [g|] eqn:E; [|reflexivity].
    exfalso. apply H. destruct (match_here_sound _ _ E) as [Hg [Hn [post [Es _]]]].
    exists g, post. auto.
Qed.

(** [re.search] reports the match at the first position that has one,
    and nothing else. *)
Lemma re_search_first (s g : string) :
  re_search s = Some g
  <-> exists pre rest,
        s = pre ++ rest /\ match_here rest = Some g
        /\ forall pre1 pre2, pre = pre1 ++ pre2 -> pre2 <> "" ->
                             match_here (pre2 ++ rest) = None.
Proof.
  split.
  - induction s as [|c s IH]; rewrite re_search_eq.
    + destruct (match_here "") eqn:E; [|discriminate].
      intro H. inversion H; subst. exists "", "". split; [reflexivity|].
      split; [exact E|]. intros pre1 pre2 Ep Np.
      destruct pre1; destruct pre2; simpl in Ep; congruence.
    + destruct (match_here (String c s)) eqn:E.
      * intro H. inversion H; subst. exists "", (String c s).
        split; [reflexivity|]. split; [exact E|]. intros pre1 pre2 Ep Np.
        destruct pre1; destruct pre2; simpl in Ep; congruence.
      * intro H. destruct (IH H) as [pre [rest [Es [Hm Hf]]]].
        exists (String c pre), rest. split; [subst s; reflexivity|].
        split; [exact Hm|]. intros pre1 pre2 Ep Np.
        destruct pre1 as [|a pre1]; simpl in Ep.
        -- subst pre2. simpl. rewrite <- Es. exact E.
        -- inversion Ep; subst a. apply (Hf pre1 pre2); assumption.
  - intros [pre [rest [Es [Hm Hf]]]]. subst s.
    induction pre as [|c pre IH].
    + simpl. rewrite re_search_eq, Hm. reflexivity.
    + rewrite re_search_eq.
      rewrite (Hf "" (String c pre) eq_refl) by discriminate.
      change (String c pre ++ rest) with (String c (pre ++ rest)).
      apply IH. intros pre1 pre2 Ep Np.
      apply (Hf (String c pre1) pre2); [simpl; congruence | exact Np].
Qed.

End Pattern.

Section GetHash.
Local Open Scope string_scope.

Lemma get_hash_read (w : World) (dir : string) (d : riddle_dir) (txt : string) :
  riddle_at w dir = Some d -> verify_py d = Some txt ->
  get_hash w dir = re_search (read_text txt).
Proof.
  intros Hd Hv. unfold get_hash. rewrite Hd, Hv.
  destruct (re_search (read_text txt)) as [g|] eqn:R; [|reflexivity].
  destruct (re_search_sound _ _ R) as [pre [rest [_ Hm]]].
  destruct (match_here_sound _ _ Hm) as [Hg _].
  apply truthy_true in Hg. rewrite Hg. reflexivity.
Qed.

Lemma length_append (a b : string) :
  String.length (a ++ b) = (String.length a + String.length b)%nat.
Proof. induction a; simpl; congruence. Qed.

End GetHash.

(** C6 (as amended).  [get_hash] returns no digest when the folder or
    its [verify.py] is absent.  When [verify.py] is there, it returns a
    value exactly when the text holds
    [assert sha1(solution).hexdigest() == '], then at least one
    character, then a quote, all on one line; the value is the text
    from the opening quote to the last quote of that line, at the
    leftmost place where the text has that shape: [g] is returned
    exactly when it stands so after a prefix [pre] of the text, and
    the shape begins at no position of [pre].  Nothing checks that it
    is forty hexadecimal digits. *)
Theorem get_hash_spec (w : World) (dir : string) :
  ((forall d, riddle_at w dir = Some d -> verify_py d = None) ->
   get_hash w dir = None)
  /\ (forall d txt,
        riddle_at w dir = Some d -> verify_py d = Some txt ->
        ((exists g, get_hash w dir = Some g)
         <-> (exists pre g post,
                read_text txt = (pre ++ assert_prefix ++ g ++ String quote post)%string
                /\ g <> "" /\ no_newline g = true))
        /\ (forall g,
              get_hash w dir = Some g ->
              exists pre post,
                read_text txt = (pre ++ assert_prefix ++ g ++ String quote post)%string
                /\ g <> "" /\ no_newline g = true
                /\ quote_on_line post = false)
        /\ (forall pre g post,
              read_text txt = (pre ++ assert_prefix ++ g ++ String quote post)%string ->
              g <> "" -> no_newline g = true -> quote_on_line post = false ->
              starts_within assert_prefix pre
                (assert_prefix ++ g ++ String quote post)%string = false ->
              get_hash w dir = Some g)
        /\ (forall g,
              get_hash w dir = Some g
              <-> exists pre post,
                    read_text txt
                    = (pre ++ assert_prefix ++ g ++ String quote post)%string
                    /\ g <> "" /\ no_newline g = true
                    /\ quote_on_line post = false
                    /\ forall pre1 pre2,
                         pre = (pre1 ++ pre2)%string -> pre2 <> "" ->
                         ~ pattern_at
                             (pre2 ++ assert_prefix ++ g ++ String quote post))).
Proof.
  split.
  - intros H. unfold get_hash.
    destruct (riddle_at w dir) as [d|]; [|reflexivity].
    rewrite (H d eq_refl). reflexivity.
  - intros d txt Hd Hv. rewrite (get_hash_read w dir d txt Hd Hv).
    assert (Sound : forall g, re_search (read_text txt) = Some g ->
              exists pre post,
                read_text txt = (pre ++ assert_prefix ++ g ++ String quote post)%string
                /\ g <> "" /\ no_newline g = true
                /\ quote_on_line post = false).
    { intros g R.
      destruct (re_search_sound _ _ R) as [pre [rest [E Hm]]].
      destruct (match_here_sound _ _ Hm) as [Hg [Hn [post [Er Hq]]]].
      exists pre, post. subst rest. auto. }
    split; [split|split; [|split]].
    + intros [g R]. destruct (Sound g R) as [pre [post [E [Hg [Hn _]]]]].
      exists pre, g, post. auto.
    + intros [pre [g [post [E [Hg Hn]]]]]. rewrite E.
      destruct (dot_plus_quote_complete g post Hg Hn) as [g' Hp].
      apply (re_search_complete pre _ g').
      rewrite match_here_at. exact Hp.
    + exact Sound.
    + intros pre g post E Hg Hn Hq Hs. rewrite E.
      apply re_search_leftmost; [exact Hs|].
      rewrite match_here_at. apply dot_plus_quote_exact; assumption.
    + intro g. rewrite re_search_first. split.
      * intros [pre [rest [E [Hm Hf]]]].
        destruct (match_here_sound _ _ Hm) as [Hg [Hn [post [Er Hq]]]].
        exists pre, post. subst rest.
        split; [exact E|]. split; [exact Hg|]. split; [exact Hn|].
        split; [exact Hq|]. intros pre1 pre2 Ep Np.
        apply match_here_none. apply (Hf pre1 pre2); assumption.
      * intros [pre [post [E [Hg [Hn [Hq Hf]]]]]].
        exists pre, (assert_prefix ++ g ++ String quote post)%string.
        split; [exact E|]. split.
        -- rewrite match_here_at. apply dot_plus_quote_exact; assumption.
        -- intros pre1 pre2 Ep Np. apply match_here_none.
           apply (Hf pre1 pre2); assumption.
Qed.

Lemma get_hash_spec_witness :
  get_hash (world_of_verify verify_inception) "00" = Some inception_digest.
Proof.
  destruct (get_hash_spec (world_of_verify verify_inception) "00") as [_ H].
  destruct (H {| verify_py := Some verify_inception; solution_txt := None |}
              verify_inception eq_refl eq_refl) as [_ [_ [H3 _]]].
  apply (H3 ("from hashlib import sha1" ++ nl)%string inception_digest nl).
  - reflexivity.
  - discriminate.
  - reflexivity.
  - reflexivity.
  - reflexivity.
Defined.

(** C6 fails as stated.  A quoted value that is not forty hexadecimal
    digits is returned although the text has no line of the stated
    shape; and a line of the stated shape that goes on with a second
    quote yields more than its forty digits. *)
Lemma get_hash_unchecked :
  get_hash (world_of_verify "assert sha1(solution).hexdigest() == 'xyz'") "00"
  = Some "xyz"
  /\ is_hex40 "xyz" = false
  /\ (forall pre g post,
        "assert sha1(solution).hexdigest() == 'xyz'"
        = (pre ++ assert_prefix ++ g ++ String quote post)%string ->
        is_hex40 g = false)
  /\ is_hex40 inception_digest = true
  /\ get_hash
       (world_of_verify
          ("assert sha1(solution).hexdigest() == '" ++ inception_digest
           ++ "' # the film's title")%string) "00"
     = Some (inception_digest ++ "' # the film")%string
  /\ ~ (forall w dir g, get_hash w dir = Some g -> is_hex40 g = true).
Proof.
  split; [reflexivity|]. split; [reflexivity|]. split; [|split; [|split]].
  - intros pre g post E. apply (f_equal String.length) in E.
    rewrite !length_append in E. simpl in E.
    unfold is_hex40. destruct (String.length g =? 40) eqn:L; [|reflexivity].
    apply Nat.eqb_eq in L. lia.
  - reflexivity.
  - reflexivity.
  - intro H.
    specialize (H (world_of_verify "assert sha1(solution).hexdigest() == 'xyz'")
                  "00" "xyz" eq_refl).
    discriminate.
Qed.

(* ================================================================== *)
(** * Facts about dictionaries                                          *)
(* ================================================================== *)

Module PyDictFacts.
Import PyDict.

Section Facts.
Context {V : Type}.
Implicit Types (d : PyDict.t V) (k : Z) (v : V).

Lemma mem_get k d : mem k d = true <-> exists v, get k d = Some v.
Proof.
  unfold mem. destruct (get k d) as [v|].
  - split; eauto.
  - split; [discriminate | intros [v H]; discriminate].
Qed.

Lemma mem_false_get k d : mem k d = false <-> get k d = None.
Proof.
  unfold mem. destruct (get k d); split; congruence.
Qed.

Lemma mem_keys k d : mem k d = true <-> In k (keys d).
Proof.
  unfold mem. induction d as [|[k' v'] d IH]; simpl.
  - split; [discriminate | tauto].
  - destruct (Z.eqb_spec k k') as [->|N].
    + split; auto.
    + rewrite IH. split; [auto | intros [E|H]; congruence].
Qed.

Lemma get_in k v d : get k d = Some v -> In (k, v) d.
Proof.
  induction d as [|[k' v'] d IH]; simpl; [discriminate|].
  destruct (Z.eqb_spec k k') as [->|N].
  - intro H. inversion H. auto.
  - auto.
Qed.

Lemma in_get k v d : wf d -> In (k, v) d -> get k d = Some v.
Proof.
  unfold wf. induction d as [|[k' v'] d IH]; simpl; [tauto|].
  intros W [E|H].
  - inversion E; subst. rewrite Z.eqb_refl. reflexivity.
  - inversion W as [|? ? Hn W']; subst.
    destruct (Z.eqb_spec k k') as [->|N].
    + exfalso. apply Hn. change (In (fst (k', v)) (map fst d)).
      apply in_map. exact H.
    + auto.
Qed.

Lemma get_set_eq k v d : get k (set k v d) = Some v.
Proof.
  induction d as [|[k' v'] d IH]; simpl.
  - rewrite Z.eqb_refl. reflexivity.
  - destruct (Z.eqb_spec k k') as [->|N]; simpl.
    + rewrite Z.eqb_refl. reflexivity.
    + destruct (Z.eqb_spec k k'); [congruence | exact IH].
Qed.

Lemma get_set_ne k k' v d : k <> k' -> get k' (set k v d) = get k' d.
Proof.
  intro N. induction d as [|[k0 v0] d IH]; simpl.
  - destruct (Z.eqb_spec k' k); [congruence | reflexivity].
  - destruct (Z.eqb_spec k k0) as [->|N0]; simpl.
    + destruct (Z.eqb_spec k' k0); [congruence | reflexivity].
    + destruct (Z.eqb_spec k' k0); [reflexivity | exact IH].
Qed.

Lemma get_del_ne k k' d : k <> k' -> get k' (del k d) = get k' d.
Proof.
  intro N. induction d as [|[k0 v0] d IH]; simpl; [reflexivity|].
  destruct (Z.eqb_spec k k0) as [->|N0]; simpl.
  - destruct (Z.eqb_spec k' k0); [congruence | reflexivity].
  - destruct (Z.eqb_spec k' k0); [reflexivity | exact IH].
Qed.

Lemma keys_del_subset k k' d : In k' (keys (del k d)) -> In k' (keys d).
Proof.
  induction d as [|[k0 v0] d IH]; simpl; [tauto|].
  destruct (Z.eqb_spec k k0) as [->|N0]; simpl; tauto.
Qed.

Lemma wf_del k d : wf d -> wf (del k d).
Proof.
  unfold wf. induction d as [|[k0 v0] d IH]; simpl; [auto|].
  intro W. inversion W as [|? ? Hn W']; subst.
  destruct (Z.eqb_spec k k0) as [->|N0]; simpl; [exact W'|].
  constructor; [|auto].
  intro H. apply Hn. exact (keys_del_subset _ _ _ H).
Qed.

Lemma get_del_eq k d : wf d -> get k (del k d) = None.
Proof.
  unfold wf. induction d as [|[k0 v0] d IH]; simpl; [reflexivity|].
  intro W. inversion W as [|? ? Hn W']; subst.
  destruct (Z.eqb_spec k k0) as [->|N0]; simpl.
  - apply mem_false_get. destruct (mem k0 d) eqn:M; [|reflexivity].
    apply mem_keys in M. contradiction.
  - destruct (Z.eqb_spec k k0); [congruence | auto].
Qed.

Lemma keys_set k k' v d :
  In k' (keys (set k v d)) <-> k' = k \/ In k' (keys d).
Proof.
  rewrite <- !mem_keys, !mem_get.
  destruct (Z.eq_dec k k') as [->|N].
  - rewrite get_set_eq. split; eauto.
  - rewrite (get_set_ne _ _ _ _ N). split; [auto | intros [E|H]; congruence].
Qed.

Lemma wf_set k v d : wf d -> wf (set k v d).
Proof.
  unfold wf. induction d as [|[k0 v0] d IH]; simpl.
  - intros _. constructor; [simpl; tauto | constructor].
  - intro W. inversion W as [|? ? Hn W']; subst.
    destruct (Z.eqb_spec k k0) as [->|N0]; simpl.
    + constructor; assumption.
    + constructor; [|auto].
      intro H. apply keys_set in H. destruct H as [E|H]; congruence.
Qed.

Lemma len_set k v d :
  len (set k v d) = if mem k d then len d else S (len d).
Proof.
  unfold len, mem. induction d as [|[k0 v0] d IH]; simpl; [reflexivity|].
  destruct (Z.eqb_spec k k0) as [->|N0]; simpl; [reflexivity|].
  rewrite IH. destruct (get k d); reflexivity.
Qed.

Lemma len_del k d :
  len (del k d) = if mem k d then pred (len d) else len d.
Proof.
  unfold len, mem. induction d as [|[k0 v0] d IH]; simpl; [reflexivity|].
  destruct (Z.eqb_spec k k0) as [->|N0]; simpl; [reflexivity|].
  rewrite IH. destruct (get k d) eqn:G; [|reflexivity].
  destruct d; [discriminate | reflexivity].
Qed.

Lemma wf_empty : wf (@empty V).
Proof. constructor. Qed.

End Facts.
End PyDictFacts.

(* ================================================================== *)
(** * The registry scan                                                 *)
(* ================================================================== *)

Lemma option_eq_dec {A : Type} (dec : forall x y : A, {x = y} + {x <> y})
  (x y : option A) : {x = y} + {x <> y}.
Proof. decide equality. Qed.

Section Scan.
Import PyDict PyDictFacts.
Variable w : World.

Lemma keyed_cons (file : string) (files : list string) (k : Z) :
  keyed w files k -> keyed w (file :: files) k.
Proof. intros [f [H1 H2]]. exists f. simpl. auto. Qed.

Lemma fresh_head (file : string) (files : list string) (k : Z) :
  NoDup (map PyInt.int (filter (isdir w) (file :: files))) ->
  isdir w file = true -> PyInt.int file = Some k ->
  ~ keyed w files k.
Proof.
  simpl. intros N D I [f [H1 [H2 H3]]]. rewrite D in N. simpl in N.
  apply NoDup_cons_iff in N. destruct N as [N _]. apply N.
  rewrite I, <- H3. apply in_map. apply filter_In. auto.
Qed.

Lemma nodup_tail (file : string) (files : list string) :
  NoDup (map PyInt.int (filter (isdir w) (file :: files))) ->
  NoDup (map PyInt.int (filter (isdir w) files)).
Proof.
  simpl. destruct (isdir w file); simpl; [|auto].
  intro N. apply NoDup_cons_iff in N. tauto.
Qed.

Lemma keyed_found (files : list string) (k : Z) :
  ~ ~ keyed w files k ->
  exists file, In file (filter (isdir w) files) /\ PyInt.int file = Some k.
Proof.
  intro K.
  destruct (in_dec (option_eq_dec Z.eq_dec) (Some k)
              (map PyInt.int (filter (isdir w) files))) as [D|D].
  - apply in_map_iff in D. destruct D as [f [F1 F2]]. eauto.
  - exfalso. apply K. intros [f [F1 [F2 F3]]]. apply D.
    rewrite <- F3. apply in_map. apply filter_In. auto.
Qed.

(** The loop, from any two dictionaries: it ends without an
    exception, leaves alone the keys that are no index of [files],
    and files each folder under its index in exactly one of the two. *)
Lemma scan_loop_spec (files : list string) :
  forall hashes solutions : dict,
  (forall file, In file files -> isdir w file = true ->
                exists k, PyInt.int file = Some k) ->
  NoDup (map PyInt.int (filter (isdir w) files)) ->
  wf hashes -> wf solutions ->
  exists hashes' solutions',
    scan_loop w files hashes solutions = inr (hashes', solutions')
    /\ wf hashes' /\ wf solutions'
    /\ (forall k, ~ keyed w files k ->
          get k hashes' = get k hashes /\ get k solutions' = get k solutions)
    /\ (forall file k,
          In file files -> isdir w file = true -> PyInt.int file = Some k ->
          (check_riddle w file = true
           /\ get k solutions' = Some (get_solution w file)
           /\ get k hashes' = get k hashes)
          \/ (check_riddle w file = false
              /\ get k hashes' = Some (get_hash w file)
              /\ get k solutions' = get k solutions)).
Proof.
  induction files as [|file rest IH]; intros hashes solutions Hint Hnd Wh Ws.
  - exists hashes, solutions. simpl. repeat split; auto. intros ? ? [].
  - assert (Hint' : forall f, In f rest -> isdir w f = true ->
                      exists k, PyInt.int f = Some k)
      by (intros f Hf; apply Hint; simpl; auto).
    pose proof (nodup_tail _ _ Hnd) as Hnd'.
    simpl. destruct (isdir w file) eqn:D.
    + destruct (Hint file (or_introl eq_refl) D) as [k Hk].
      pose proof (fresh_head _ _ _ Hnd D Hk) as Fresh.
      rewrite Hk. destruct (check_riddle w file) eqn:C.
      * destruct (IH hashes (set k (get_solution w file) solutions)
                    Hint' Hnd' Wh (wf_set _ _ _ Ws))
          as [h' [s' [E [Wh' [Ws' [A B]]]]]].
        exists h', s'. split; [exact E|]. split; [exact Wh'|].
        split; [exact Ws'|]. split.
        -- intros k0 Nk.
           assert (Nk' : ~ keyed w rest k0)
             by (intro K; apply Nk; apply keyed_cons; exact K).
           assert (k <> k0)
             by (intros ->; apply Nk; exists file; simpl; auto).
           destruct (A k0 Nk') as [A1 A2]. split; [exact A1|].
           rewrite A2. apply get_set_ne. assumption.
        -- intros f k0 [->|Hf] Df Kf.
           ++ assert (k0 = k) by congruence. subst k0. left.
              destruct (A k Fresh) as [A1 A2].
              rewrite A2, get_set_eq. auto.
           ++ assert (k <> k0)
                by (intros ->; apply Fresh; exists f; auto).
              destruct (B f k0 Hf Df Kf) as [[B1 [B2 B3]]|[B1 [B2 B3]]].
              ** left. auto.
              ** right. rewrite B3, get_set_ne by assumption. auto.
      * destruct (IH (set k (get_hash w file) hashes) solutions
                    Hint' Hnd' (wf_set _ _ _ Wh) Ws)
          as [h' [s' [E [Wh' [Ws' [A B]]]]]].
        exists h', s'. split; [exact E|]. split; [exact Wh'|].
        split; [exact Ws'|]. split.
        -- intros k0 Nk.
           assert (Nk' : ~ keyed w rest k0)
             by (intro K; apply Nk; apply keyed_cons; exact K).
           assert (k <> k0)
             by (intros ->; apply Nk; exists file; simpl; auto).
           destruct (A k0 Nk') as [A1 A2]. split; [|exact A2].
           rewrite A1. apply get_set_ne. assumption.
        -- intros f k0 [->|Hf] Df Kf.
           ++ assert (k0 = k) by congruence. subst k0. right.
              destruct (A k Fresh) as [A1 A2].
              rewrite A1, get_set_eq. auto.
           ++ assert (k <> k0)
                by (intros ->; apply Fresh; exists f; auto).
              destruct (B f k0 Hf Df Kf) as [[B1 [B2 B3]]|[B1 [B2 B3]]].
              ** left. rewrite B3, get_set_ne by assumption. auto.
              ** right. auto.
    + destruct (IH hashes solutions Hint' Hnd' Wh Ws)
        as [h' [s' [E [Wh' [Ws' [A B]]]]]].
      exists h', s'. split; [exact E|]. split; [exact Wh'|].
      split; [exact Ws'|]. split.
      * intros k0 Nk. apply A. intro K. apply Nk. apply keyed_cons. exact K.
      * intros f k0 [->|Hf] Df Kf; [congruence|]. apply B; assumption.
Qed.

End Scan.

(** C2 (as amended).  When the folder names are integers, no two of
    them the same integer, the scan raises nothing and files every
    riddle folder under its index in exactly one of [hashes] and
    [solutions]: in [solutions], with its answer, when [check_riddle]
    holds, and otherwise in [hashes], with whatever [get_hash] returned.
    A folder without a digest is therefore in [hashes], with the value
    [None].  No other key is in either dictionary. *)
Theorem scan_partition (w : World) :
  (forall file, In file (dirs w) -> exists k, PyInt.int file = Some k) ->
  NoDup (map PyInt.int (dirs w)) ->
  exists hashes solutions,
    scan w = inr (hashes, solutions)
    /\ (forall file k,
          In file (dirs w) -> PyInt.int file = Some k ->
          (check_riddle w file = true
           /\ PyDict.get k solutions = Some (get_solution w file)
           /\ PyDict.mem k hashes = false)
          \/ (check_riddle w file = false
              /\ PyDict.get k hashes = Some (get_hash w file)
              /\ PyDict.mem k solutions = false))
    /\ (forall file k,
          In file (dirs w) -> PyInt.int file = Some k ->
          get_hash w file = None ->
          PyDict.get k hashes = Some None /\ PyDict.mem k solutions = false)
    /\ (forall k,
          PyDict.mem k hashes = true \/ PyDict.mem k solutions = true ->
          exists file, In file (dirs w) /\ PyInt.int file = Some k).
Proof.
  intros Hint Hnd. unfold dirs in *.
  destruct (scan_loop_spec w (listdir w) PyDict.empty PyDict.empty)
    as [h [s [E [Wh [Ws [A B]]]]]].
  - intros file Hf D. apply Hint. apply filter_In. auto.
  - exact Hnd.
  - apply PyDictFacts.wf_empty.
  - apply PyDictFacts.wf_empty.
  - exists h, s. split; [exact E|].
    assert (P : forall file k,
               In file (filter (isdir w) (listdir w)) ->
               PyInt.int file = Some k ->
               (check_riddle w file = true
                /\ PyDict.get k s = Some (get_solution w file)
                /\ PyDict.mem k h = false)
               \/ (check_riddle w file = false
                   /\ PyDict.get k h = Some (get_hash w file)
                   /\ PyDict.mem k s = false)).
    { intros file k Hf Hk. apply filter_In in Hf. destruct Hf as [Hf D].
      destruct (B file k Hf D Hk) as [[B1 [B2 B3]]|[B1 [B2 B3]]].
      - left. rewrite PyDictFacts.mem_false_get. auto.
      - right. rewrite PyDictFacts.mem_false_get. auto. }
    split; [exact P|]. split.
    + intros file k Hf Hk Hh.
      destruct (P file k Hf Hk) as [[C _]|[_ [G M]]].
      * unfold check_riddle in C. rewrite Hh, check_hash_none_hash in C.
        discriminate.
      * rewrite <- Hh. auto.
    + intros k Hm. apply (keyed_found w). intro Nk.
      destruct (A k Nk) as [A1 A2].
      destruct Hm as [Hm|Hm]; apply PyDictFacts.mem_get in Hm;
        destruct Hm as [v Hv]; simpl in *; congruence.
Qed.

Lemma scan_partition_witness :
  exists hashes solutions,
    scan registry_world = inr (hashes, solutions)
    /\ PyDict.get 0%Z solutions = Some (Some "InCePtIoN")
    /\ PyDict.get 1%Z hashes = Some (Some inception_digest)
    /\ PyDict.get 2%Z hashes = Some None.
Proof.
  destruct (scan_partition registry_world) as [h [s [E [P _]]]].
  - intros file H. vm_compute in H.
    destruct H as [<-|[<-|[<-|[]]]]; eexists; reflexivity.
  - vm_compute. repeat constructor; simpl; intuition discriminate.
  - exists h, s. split; [exact E|].
    assert (D : forall f, In f ["00"; "01"; "02"] -> In f (dirs registry_world))
      by (intros f H; vm_compute; exact H).
    split; [|split].
    + destruct (P "00" 0%Z) as [[_ [G _]]|[C _]];
        [apply D; simpl; auto | reflexivity | exact G | vm_compute in C; discriminate].
    + destruct (P "01" 1%Z) as [[C _]|[_ [G _]]];
        [apply D; simpl; auto | reflexivity | vm_compute in C; discriminate | exact G].
    + destruct (P "02" 2%Z) as [[C _]|[_ [G _]]];
        [apply D; simpl; auto | reflexivity | vm_compute in C; discriminate | exact G].
Defined.

(** C2 fails as stated: a folder without a digest is filed in
    [hashes]. *)
Lemma scan_files_digestless :
  isdir bare_world "00" = true
  /\ get_hash bare_world "00" = None
  /\ PyInt.int "00" = Some 0%Z
  /\ scan bare_world = inr ([(0%Z, None)], [])
  /\ PyDict.mem 0%Z ([(0%Z, None)] : dict) = true
  /\ ~ (forall w hashes solutions file k,
          scan w = inr (hashes, solutions) ->
          In file (dirs w) -> PyInt.int file = Some k ->
          get_hash w file = None ->
          PyDict.mem k hashes = false /\ PyDict.mem k solutions = false).
Proof.
  assert (S : scan bare_world = inr ([(0%Z, None)], []))
    by (vm_compute; reflexivity).
  split; [reflexivity|]. split; [reflexivity|]. split; [reflexivity|].
  split; [exact S|]. split; [reflexivity|].
  intro H.
  destruct (H bare_world _ _ "00" 0%Z S) as [M _];
    [left; reflexivity | reflexivity | reflexivity | discriminate].
Qed.

(** A scan that ends without an exception has read every folder name
    as an integer. *)
Lemma scan_loop_names (w : World) (files : list string) :
  forall (hashes solutions : dict) r,
  scan_loop w files hashes solutions = inr r ->
  forall file, In file files -> isdir w file = true ->
               exists k, PyInt.int file = Some k.
Proof.
  induction files as [|f fs IH]; intros hashes solutions r E file Hf D.
  - destruct Hf.
  - simpl in E. destruct Hf as [->|Hf].
    + rewrite D in E. destruct (PyInt.int file) as [k|]; [eauto|].
      destruct (check_riddle w file); discriminate.
    + destruct (isdir w f); [|eapply IH; eauto].
      destruct (check_riddle w f); destruct (PyInt.int f);
        try discriminate; eapply IH; eauto.
Qed.

(** The scan hands the resolver two dictionaries that share no index. *)
Lemma scan_disjoint (w : World) (hashes solutions : dict) :
  NoDup (map PyInt.int (dirs w)) ->
  scan w = inr (hashes, solutions) ->
  PyDict.wf hashes /\ PyDict.wf solutions /\ disjoint hashes solutions.
Proof.
  intros Hnd E. unfold scan, dirs in *.
  pose proof (scan_loop_names w _ _ _ _ E) as Hint.
  destruct (scan_loop_spec w (listdir w) PyDict.empty PyDict.empty
              Hint Hnd PyDictFacts.wf_empty PyDictFacts.wf_empty)
    as [h [s [E' [Wh [Ws [A B]]]]]].
  rewrite E in E'. inversion E'; subst h s.
  split; [exact Wh|]. split; [exact Ws|].
  intros k Mh. apply PyDictFacts.mem_false_get.
  destruct (keyed_found w (listdir w) k) as [f [F1 F2]].
  - intro Nk. destruct (A k Nk) as [A1 _].
    apply PyDictFacts.mem_get in Mh. destruct Mh as [v Hv].
    simpl in *. congruence.
  - apply filter_In in F1. destruct F1 as [F1 D].
    destruct (B f k F1 D F2) as [[_ [_ B3]]|[_ [_ B3]]].
    + apply PyDictFacts.mem_get in Mh. destruct Mh as [v Hv].
      simpl in *. congruence.
    + exact B3.
Qed.

(* ================================================================== *)
(** * The brute-force resolver                                          *)
(* ================================================================== *)

Arguments check_hash : simpl never.

Section Resolver.
Import PyDict PyDictFacts.
Implicit Types (hashes solutions : dict) (title : string).

Lemma inner_loop_none title (items : list (Z * option string)) hashes solutions :
  (forall k h, In (k, h) items -> check_hash h (Some title) = false) ->
  inner_loop title items hashes solutions = (hashes, solutions, []).
Proof.
  induction items as [|[k h] items IH]; intro H; simpl; [reflexivity|].
  rewrite (H k h) by (simpl; auto).
  apply IH. intros k' h' Hin. apply (H k' h'). simpl. auto.
Qed.

Lemma inner_loop_first title pre i d post hashes solutions :
  (forall k h, In (k, h) pre -> check_hash h (Some title) = false) ->
  check_hash d (Some title) = true ->
  inner_loop title (pre ++ (i, d) :: post) hashes solutions
  = (del i hashes, set i (Some title) solutions,
     [Printed (Found i d title)]).
Proof.
  induction pre as [|[k h] pre IH]; intros H C; simpl.
  - rewrite C. reflexivity.
  - rewrite (H k h) by (simpl; auto).
    apply IH; [|exact C]. intros k' h' Hin. apply (H k' h'). simpl. auto.
Qed.

(** The loop either leaves the dictionaries alone or moves one entry
    that matches. *)
Lemma inner_loop_cases title (items : list (Z * option string)) hashes solutions :
  inner_loop title items hashes solutions = (hashes, solutions, [])
  \/ exists i d,
       In (i, d) items /\ check_hash d (Some title) = true
       /\ inner_loop title items hashes solutions
          = (del i hashes, set i (Some title) solutions,
             [Printed (Found i d title)]).
Proof.
  induction items as [|[k h] items IH]; simpl; [auto|].
  destruct (check_hash h (Some title)) eqn:C.
  - right. exists k, h. auto.
  - destruct IH as [IH|[i [d [H1 [H2 H3]]]]]; [auto|].
    right. exists i, d. auto.
Qed.

Lemma del_middle (pre post : dict) i d :
  wf (pre ++ (i, d) :: post) -> del i (pre ++ (i, d) :: post) = pre ++ post.
Proof.
  unfold wf, keys. induction pre as [|[k h] pre IH]; simpl; intro W.
  - rewrite Z.eqb_refl. reflexivity.
  - inversion W as [|? ? Hn W']; subst.
    destruct (Z.eqb_spec i k) as [->|N].
    + exfalso. apply Hn. rewrite map_app. apply in_or_app. simpl. auto.
    + rewrite (IH W'). reflexivity.
Qed.

Lemma in_mem i (d : option string) hashes : In (i, d) hashes -> mem i hashes = true.
Proof.
  intro H. apply mem_keys. change i with (fst (i, d)).
  apply in_map. exact H.
Qed.

(** Sizes, one title. *)
Lemma try_title_sizes title hashes solutions :
  forall hashes' solutions' out,
  try_title title hashes solutions = (hashes', solutions', out) ->
  len hashes' <= len hashes /\ len solutions <= len solutions'.
Proof.
  intros h' s' out E. unfold try_title in E.
  destruct (inner_loop_cases title (items hashes) hashes solutions)
    as [U|[i [d [H1 [H2 H3]]]]].
  - rewrite U in E. inversion E; subst. lia.
  - rewrite H3 in E. inversion E; subst.
    rewrite len_del, len_set.
    destruct (mem i hashes), (mem i solutions); lia.
Qed.

(** The sum of the sizes, one title, when no index is on both sides. *)
Lemma try_title_sum title hashes solutions :
  wf hashes -> disjoint hashes solutions ->
  forall hashes' solutions' out,
  try_title title hashes solutions = (hashes', solutions', out) ->
  len hashes' + len solutions' = len hashes + len solutions
  /\ wf hashes' /\ disjoint hashes' solutions'.
Proof.
  intros W Dj h' s' out E. unfold try_title in E.
  destruct (inner_loop_cases title (items hashes) hashes solutions)
    as [U|[i [d [H1 [H2 H3]]]]].
  - rewrite U in E. inversion E; subst. auto.
  - rewrite H3 in E. inversion E; subst. unfold items in H1.
    pose proof (in_mem _ _ _ H1) as Mi.
    pose proof (Dj i Mi) as Si.
    rewrite len_del, len_set, Mi, Si.
    assert (0 < len hashes)
      by (destruct hashes; [destruct H1 | simpl; lia]).
    split; [lia|]. split; [apply wf_del; exact W|].
    intros k Mk. apply mem_false_get.
    destruct (Z.eq_dec i k) as [->|N].
    + apply mem_get in Mk. destruct Mk as [v Hv].
      rewrite (get_del_eq k hashes W) in Hv. discriminate.
    + rewrite get_set_ne by exact N. apply mem_false_get. apply Dj.
      apply mem_get in Mk. destruct Mk as [v Hv].
      rewrite get_del_ne in Hv by exact N.
      apply mem_get. eauto.
Qed.

Lemma resolve_app (ts1 ts2 : list string) hashes solutions :
  resolve (ts1 ++ ts2) hashes solutions
  = resolve ts2 (fst (resolve ts1 hashes solutions))
                (snd (resolve ts1 hashes solutions)).
Proof.
  revert hashes solutions. induction ts1 as [|t ts1 IH]; intros; simpl.
  - reflexivity.
  - destruct (try_title t hashes solutions) as [[h' s'] o]. apply IH.
Qed.

Lemma resolve_sizes (ts : list string) :
  forall hashes solutions,
  len (fst (resolve ts hashes solutions)) <= len hashes
  /\ len solutions <= len (snd (resolve ts hashes solutions)).
Proof.
  induction ts as [|t ts IH]; intros; simpl; [lia|].
  destruct (try_title t hashes solutions) as [[h' s'] o] eqn:E.
  destruct (try_title_sizes _ _ _ _ _ _ E).
  destruct (IH h' s'). lia.
Qed.

Lemma resolve_sum (ts : list string) :
  forall hashes solutions,
  wf hashes -> disjoint hashes solutions ->
  len (fst (resolve ts hashes solutions)) + len (snd (resolve ts hashes solutions))
  = len hashes + len solutions
  /\ wf (fst (resolve ts hashes solutions))
  /\ disjoint (fst (resolve ts hashes solutions))
              (snd (resolve ts hashes solutions)).
Proof.
  induction ts as [|t ts IH]; intros hashes solutions W Dj; simpl; [auto|].
  destruct (try_title t hashes solutions) as [[h' s'] o] eqn:E.
  destruct (try_title_sum _ _ _ W Dj _ _ _ E) as [S1 [W' Dj']].
  destruct (IH h' s' W' Dj') as [S2 R]. split; [lia | exact R].
Qed.

(** An index that is not pending keeps its entry in [solutions]. *)
Lemma resolve_keeps (ts : list string) (i : Z) :
  forall hashes solutions,
  mem i hashes = false ->
  get i (snd (resolve ts hashes solutions)) = get i solutions.
Proof.
  induction ts as [|t ts IH]; intros hashes solutions Mi; simpl; [reflexivity|].
  unfold try_title.
  destruct (inner_loop_cases t (items hashes) hashes solutions)
    as [U|[j [d [H1 [H2 H3]]]]].
  - rewrite U. apply IH. exact Mi.
  - rewrite H3. unfold items in H1.
    assert (N : j <> i)
      by (intros ->; apply in_mem in H1; congruence).
    rewrite IH.
    + apply get_set_ne. exact N.
    + apply mem_false_get. rewrite get_del_ne by exact N.
      apply mem_false_get. exact Mi.
Qed.

End Resolver.

(** After a scan over folders of distinct indices the resolver keeps
    the sum of the two sizes. *)
Lemma scan_then_resolve_sum (w : World) (hashes solutions : dict)
      (ts : list string) :
  NoDup (map PyInt.int (dirs w)) ->
  scan w = inr (hashes, solutions) ->
  PyDict.len (fst (resolve ts hashes solutions))
  + PyDict.len (snd (resolve ts hashes solutions))
  = PyDict.len hashes + PyDict.len solutions.
Proof.
  intros Nd E. destruct (scan_disjoint w hashes solutions Nd E) as [W [_ Dj]].
  apply resolve_sum; assumption.
Qed.

Section Framing.
Implicit Types (hashes solutions : dict) (lines : list string).

Lemma skipn_nth_cons lines (k : nat) :
  k < List.length lines ->
  skipn k lines = nth k lines "" :: skipn (S k) lines.
Proof.
  revert k. induction lines as [|l lines IH]; intros k H; simpl in H; [lia|].
  destruct k as [|k]; [reflexivity|].
  simpl. apply IH. lia.
Qed.

(** The indexed loop reads the lines from [1 + a] on, [n] of them. *)
Lemma outer_loop_titles lines (n : nat) :
  forall (a : nat) hashes solutions,
  (n <> 0 -> 1 + a + n <= List.length lines) ->
  outer_loop lines (map (fun i => (1 + Z.of_nat i)%Z) (seq a n)) hashes solutions
  = titles_loop (map title_of (firstn n (skipn (1 + a) lines))) hashes solutions.
Proof.
  induction n as [|n IH]; intros a hashes solutions B; [reflexivity|].
  assert (La : S a < List.length lines) by lia.
  rewrite (skipn_nth_cons lines (1 + a)) by exact La.
  cbn [seq map firstn outer_loop titles_loop].
  replace (Z.to_nat (1 + Z.of_nat a)) with (1 + a) by lia.
  destruct (title_of (nth (1 + a) lines "")) as [title|]; [|reflexivity].
  destruct (try_title title hashes solutions) as [[h' s'] o1].
  rewrite (IH (S a)) by lia. reflexivity.
Qed.

Lemma range_seq (total : nat) :
  range 1 (Z.of_nat total - 1)
  = map (fun i => (1 + Z.of_nat i)%Z) (seq 0 (total - 2)).
Proof.
  unfold range. f_equal. f_equal. lia.
Qed.

Lemma find_solutions_titles (w : World) (stored : string) hashes solutions :
  data_tsv w = Some stored ->
  find_solutions w hashes solutions
  = match titles_loop
            (map title_of (records (PyStr.readlines (read_text stored))))
            hashes solutions with
    | (r, d, o) =>
        (r, d,
         [Call P_find_solutions;
          Printed (Text "Start brute forcing movies riddles.");
          Printed (Total (List.length (PyStr.readlines (read_text stored))))]
         ++ o)
    end.
Proof.
  intro E. unfold find_solutions, records. rewrite E.
  rewrite range_seq, outer_loop_titles by lia. reflexivity.
Qed.


(** Whatever its outcome, the loop leaves the dictionaries as
    [resolve] does after some of the titles. *)
Lemma titles_loop_prefix (titles : list (option string)) :
  forall hashes solutions r d out,
  titles_loop titles hashes solutions = (r, d, out) ->
  exists ts, d = resolve ts hashes solutions.
Proof.
  induction titles as [|[t|] titles IH]; intros hashes solutions r d out E;
    simpl in E.
  - inversion E. exists []. reflexivity.
  - destruct (try_title t hashes solutions) as [[h' s'] o1] eqn:T.
    destruct (titles_loop titles h' s') as [[r' d'] o2] eqn:L.
    inversion E; subst. destruct (IH _ _ _ _ _ L) as [ts Hts].
    exists (t :: ts). simpl. rewrite T. exact Hts.
  - inversion E. exists []. reflexivity.
Qed.

Lemma find_solutions_prefix (w : World) hashes solutions r d out :
  find_solutions w hashes solutions = (r, d, out) ->
  exists ts, d = resolve ts hashes solutions.
Proof.
  destruct (data_tsv w) as [stored|] eqn:D.
  - rewrite (find_solutions_titles w stored) by exact D.
    destruct (titles_loop _ hashes solutions) as [[r' d'] o] eqn:L.
    intro E. inversion E; subst. eapply titles_loop_prefix. exact L.
  - unfold find_solutions. rewrite D. intro E. inversion E.
    exists []. reflexivity.
Qed.




End Framing.



(** C5 (as amended).  As titles are consumed [hashes] never grows and
    [solutions] never shrinks, in [resolve] and in [find_solutions]
    whatever its outcome.  When no index is in both dictionaries at the
    start, the sum of the two sizes stays what it was. *)
Theorem resolver_conservation (hashes solutions : dict) :
  (forall ts1 ts2,
     PyDict.len (fst (resolve (ts1 ++ ts2) hashes solutions))
     <= PyDict.len (fst (resolve ts1 hashes solutions))
     /\ PyDict.len (snd (resolve ts1 hashes solutions))
        <= PyDict.len (snd (resolve (ts1 ++ ts2) hashes solutions)))
  /\ (forall w r hashes' solutions' out,
        find_solutions w hashes solutions = (r, (hashes', solutions'), out) ->
        PyDict.len hashes' <= PyDict.len hashes
        /\ PyDict.len solutions <= PyDict.len solutions')
  /\ (PyDict.wf hashes -> disjoint hashes solutions ->
      (forall ts,
         PyDict.len (fst (resolve ts hashes solutions))
         + PyDict.len (snd (resolve ts hashes solutions))
         = PyDict.len hashes + PyDict.len solutions)
      /\ (forall w r hashes' solutions' out,
            find_solutions w hashes solutions = (r, (hashes', solutions'), out) ->
            PyDict.len hashes' + PyDict.len solutions'
            = PyDict.len hashes + PyDict.len solutions)).
Proof.
  split; [|split].
  - intros ts1 ts2. rewrite resolve_app. apply resolve_sizes.
  - intros w r h' s' out E.
    destruct (find_solutions_prefix _ _ _ _ _ _ E) as [ts Hts].
    pose proof (resolve_sizes ts hashes solutions) as S.
    rewrite <- Hts in S. exact S.
  - intros W Dj. split.
    + intro ts. apply resolve_sum; assumption.
    + intros w r h' s' out E.
      destruct (find_solutions_prefix _ _ _ _ _ _ E) as [ts Hts].
      destruct (resolve_sum ts hashes solutions W Dj) as [S _].
      rewrite <- Hts in S. exact S.
Qed.

Lemma resolver_conservation_witness :
  PyDict.len (fst (resolve ["Inception"; "inception"]
                     [(0%Z, Some inception_digest); (1%Z, Some "x")] []))
  + PyDict.len (snd (resolve ["Inception"; "inception"]
                       [(0%Z, Some inception_digest); (1%Z, Some "x")] []))
  = 2 + 0.
Proof.
  destruct (resolver_conservation
              [(0%Z, Some inception_digest); (1%Z, Some "x")] [])
    as [_ [_ H]].
  destruct H as [H _].
  - repeat constructor; simpl; intuition discriminate.
  - intros k _. reflexivity.
  - apply (H ["Inception"; "inception"]).
Defined.

(** C5 fails as stated.  The folders [07] and [7] are both riddle 7:
    the scan files the index as solved for one and as pending for the
    other, and when a title matches, one entry leaves [hashes] and none
    is added to [solutions]. *)
Lemma resolver_loses_an_entry :
  scan (dataset_world
          [("07", Dir {| verify_py := Some verify_inception;
                         solution_txt := Some "Inception" |});
           ("7", pending_folder)])
  = inr ([(7%Z, Some inception_digest)], [(7%Z, Some "Inception")])
  /\ fst (find_solutions
            (dataset_world
               [("07", Dir {| verify_py := Some verify_inception;
                              solution_txt := Some "Inception" |});
                ("7", pending_folder)])
            [(7%Z, Some inception_digest)] [(7%Z, Some "Inception")])
     = (inr tt, ([], [(7%Z, Some "Inception")]))
  /\ ~ (forall w hashes solutions r hashes' solutions' out,
          find_solutions w hashes solutions = (r, (hashes', solutions'), out) ->
          PyDict.len hashes' + PyDict.len solutions'
          = PyDict.len hashes + PyDict.len solutions).
Proof.
  assert (F : fst (find_solutions
                     (dataset_world
                        [("07", Dir {| verify_py := Some verify_inception;
                                       solution_txt := Some "Inception" |});
                         ("7", pending_folder)])
                     [(7%Z, Some inception_digest)] [(7%Z, Some "Inception")])
              = (inr tt, ([], [(7%Z, Some "Inception")])))
    by (vm_compute; reflexivity).
  split; [vm_compute; reflexivity|]. split; [exact F|].
  intro H.
  destruct (find_solutions _ [(7%Z, Some inception_digest)] [(7%Z, Some "Inception")])
    as [[r [h' s']] out] eqn:E.
  specialize (H _ _ _ _ _ _ _ E). simpl in F. inversion F; subst.
  simpl in H. discriminate.
Qed.

(** C4 (as amended).  For one title the loop over [hashes] stops at the
    first entry, in the order of the dictionary, whose digest the title
    matches: that entry alone leaves [hashes], the title becomes the
    answer of its index, one line is printed, and the entries behind it
    are not tried.  With no such entry nothing changes.  The answer of
    that index is never replaced by a later title.  A later title that
    matches the same digest changes nothing when no entry left in
    [hashes] carries that digest; when one does, the later title
    becomes the answer of that other index. *)
Theorem first_match_wins (title : string) (hashes solutions : dict) :
  PyDict.wf hashes ->
  ((forall k h, In (k, h) hashes -> check_hash h (Some title) = false) ->
   try_title title hashes solutions = (hashes, solutions, []))
  /\ (forall pre i d post,
        hashes = pre ++ (i, d) :: post ->
        (forall k h, In (k, h) pre -> check_hash h (Some title) = false) ->
        check_hash d (Some title) = true ->
        try_title title hashes solutions
        = (pre ++ post, PyDict.set i (Some title) solutions,
           [Printed (Found i d title)])
        /\ (forall later,
              PyDict.get i
                (snd (resolve later (pre ++ post)
                        (PyDict.set i (Some title) solutions)))
              = Some (Some title))
        /\ (forall title',
              check_hash d (Some title') = true ->
              (forall k h, In (k, h) (pre ++ post) -> h <> d) ->
              try_title title' (pre ++ post) (PyDict.set i (Some title) solutions)
              = (pre ++ post, PyDict.set i (Some title) solutions, []))
        /\ (forall title' pre' j post',
              check_hash d (Some title') = true ->
              pre ++ post = pre' ++ (j, d) :: post' ->
              (forall k h, In (k, h) pre' -> h <> d) ->
              try_title title' (pre ++ post) (PyDict.set i (Some title) solutions)
              = (pre' ++ post',
                 PyDict.set j (Some title') (PyDict.set i (Some title) solutions),
                 [Printed (Found j d title')]))).
Proof.
  intro W. split.
  - intro H. apply inner_loop_none. exact H.
  - intros pre i d post E Hpre C.
    assert (Same : forall t h, check_hash d (Some t) = true ->
                     check_hash h (Some t) = true -> h = d).
    { intros t h C1 C2. apply check_hash_true in C1, C2.
      destruct C1 as [_ ->]. destruct C2 as [_ ->]. reflexivity. }
    assert (Wd : PyDict.wf (pre ++ post)).
    { rewrite <- (del_middle pre post i d) by (rewrite <- E; exact W).
      apply PyDictFacts.wf_del. rewrite <- E. exact W. }
    split; [|split; [|split]].
    + unfold try_title, PyDict.items. rewrite E at 1.
      rewrite inner_loop_first by assumption.
      rewrite E, del_middle by (rewrite <- E; exact W). reflexivity.
    + intro later. rewrite resolve_keeps.
      * apply PyDictFacts.get_set_eq.
      * apply PyDictFacts.mem_false_get.
        rewrite <- (del_middle pre post i d) by (rewrite <- E; exact W).
        apply PyDictFacts.get_del_eq. rewrite <- E. exact W.
    + intros title' C' Hd. apply inner_loop_none.
      intros k h Hin. destruct (check_hash h (Some title')) eqn:Ch; [|reflexivity].
      exfalso. apply (Hd k h Hin). apply (Same title'); assumption.
    + intros title' pre' j post' C' E' Hd.
      unfold try_title, PyDict.items. rewrite E' at 1.
      rewrite inner_loop_first.
      * rewrite E', del_middle by (rewrite <- E'; exact Wd). reflexivity.
      * intros k h Hin. destruct (check_hash h (Some title')) eqn:Ch; [|reflexivity].
        exfalso. apply (Hd k h Hin). apply (Same title'); assumption.
      * exact C'.
Qed.

Lemma first_match_wins_witness :
  try_title "Inception"
    [(0%Z, Some "x"); (1%Z, Some inception_digest); (2%Z, Some inception_digest)] []
  = ([(0%Z, Some "x"); (2%Z, Some inception_digest)],
     [(1%Z, Some "Inception")],
     [Printed (Found 1%Z (Some inception_digest) "Inception")]).
Proof.
  destruct (first_match_wins "Inception"
              [(0%Z, Some "x"); (1%Z, Some inception_digest);
               (2%Z, Some inception_digest)] []) as [_ H].
  - repeat constructor; simpl; intuition discriminate.
  - destruct (H [(0%Z, Some "x")] 1%Z (Some inception_digest)
                [(2%Z, Some inception_digest)]) as [H1 _].
    + reflexivity.
    + intros k h [E|[]]. inversion E. vm_compute. reflexivity.
    + vm_compute. reflexivity.
    + exact H1.
Defined.

(** C4 fails as stated.  Two pending riddles carry one digest; two
    titles match it.  The second title is recorded as an answer too,
    and a second copy of the first title is not without effect. *)
Lemma later_match_recorded :
  check_hash (Some inception_digest) (Some "Inception") = true
  /\ check_hash (Some inception_digest) (Some "inception") = true
  /\ resolve ["Inception"; "inception"]
       [(1%Z, Some inception_digest); (2%Z, Some inception_digest)] []
     = ([], [(1%Z, Some "Inception"); (2%Z, Some "inception")])
  /\ try_title "Inception"
       [(1%Z, Some inception_digest); (2%Z, Some inception_digest)] []
     = ([(2%Z, Some inception_digest)], [(1%Z, Some "Inception")],
        [Printed (Found 1%Z (Some inception_digest) "Inception")])
  /\ try_title "Inception" [(2%Z, Some inception_digest)] [(1%Z, Some "Inception")]
     = ([], [(1%Z, Some "Inception"); (2%Z, Some "Inception")],
        [Printed (Found 2%Z (Some inception_digest) "Inception")])
  /\ ~ (forall title hashes solutions hashes' solutions' e,
          PyDict.wf hashes ->
          try_title title hashes solutions = (hashes', solutions', [e]) ->
          try_title title hashes' solutions' = (hashes', solutions', [])).
Proof.
  assert (T1 : try_title "Inception"
                 [(1%Z, Some inception_digest); (2%Z, Some inception_digest)] []
               = ([(2%Z, Some inception_digest)], [(1%Z, Some "Inception")],
                  [Printed (Found 1%Z (Some inception_digest) "Inception")]))
    by (vm_compute; reflexivity).
  assert (T2 : try_title "Inception" [(2%Z, Some inception_digest)]
                 [(1%Z, Some "Inception")]
               = ([], [(1%Z, Some "Inception"); (2%Z, Some "Inception")],
                  [Printed (Found 2%Z (Some inception_digest) "Inception")]))
    by (vm_compute; reflexivity).
  split; [vm_compute; reflexivity|]. split; [vm_compute; reflexivity|].
  split; [vm_compute; reflexivity|]. split; [exact T1|]. split; [exact T2|].
  intro H.
  assert (W : PyDict.wf [(1%Z, Some inception_digest); (2%Z, Some inception_digest)])
    by (repeat constructor; simpl; intuition discriminate).
  rewrite (H _ _ _ _ _ _ W T1) in T2. discriminate.
Qed.

(* ================================================================== *)
(** * The [--solve] pipeline                                            *)
(* ================================================================== *)

Section Pipeline.

(** [check_solutions] only prints rows and leaves the world as it is. *)
Lemma check_loop_spec (files : list string) (w : World) :
  exists rows,
    check_loop files w = (inr tt, w, rows) /\ Forall is_check_row rows.
Proof.
  induction files as [|file rest IH].
  - exists []. split; [reflexivity | constructor].
  - destruct IH as [rows [E F]].
    cbn [check_loop]. unfold bind at 1. unfold ask.
    destruct (isdir w file).
    + exists (Printed (CheckRow file (get_hash w file) (get_solution w file)
                         (check_hash (get_hash w file) (get_solution w file)))
              :: rows).
      unfold bind, print, emit. rewrite E. simpl.
      split; [reflexivity|]. constructor; [exact I | exact F].
    + exists rows. unfold bind, ret. rewrite E. simpl. auto.
Qed.

Lemma check_solutions_spec (w : World) :
  exists rows,
    check_solutions w
    = (inr tt, w,
       Call P_check_solutions :: Printed (Text "check solutions:") :: rows)
    /\ Forall is_check_row rows.
Proof.
  destruct (check_loop_spec (listdir w) w) as [rows [E F]].
  exists rows. split; [|exact F].
  unfold check_solutions, bind, call, print, emit, ask. rewrite E. reflexivity.
Qed.

End Pipeline.

(** C8 (as amended).  When the scan leaves [hashes] empty, which is
    the test of the code, [execute_riddle_solver] prints
    [No hashes to solve!], runs [check_solutions] and returns: the
    world is as before, and neither [download_data] nor
    [find_solutions] nor [write_solutions] is called.  An entry of
    [hashes] need not hold a digest. *)
Theorem no_pending_no_fetch (w : World) (hashes solutions : dict) :
  scan w = inr (hashes, solutions) ->
  PyDict.len hashes = 0 ->
  exists rows,
    execute_riddle_solver w
    = (inr tt, w,
       [Printed (Text (String PyStr.newline
                         "Searching for hashes and allready found solutions..."));
        Call P_get_hashes_and_solutions;
        Printed (Text "No hashes to solve!");
        Call P_check_solutions;
        Printed (Text "check solutions:")] ++ rows)
    /\ check_solutions w
       = (inr tt, w,
          [Call P_check_solutions; Printed (Text "check solutions:")] ++ rows)
    /\ Forall is_check_row rows
    /\ ~ In (Call P_download_data) (snd (execute_riddle_solver w))
    /\ ~ In (Call P_find_solutions) (snd (execute_riddle_solver w))
    /\ ~ In (Call P_write_solutions) (snd (execute_riddle_solver w)).
Proof.
  intros Hs Hl.
  destruct (check_solutions_spec w) as [rows [E F]].
  exists rows.
  assert (X : execute_riddle_solver w
              = (inr tt, w,
                 [Printed (Text (String PyStr.newline
                            "Searching for hashes and allready found solutions..."));
                  Call P_get_hashes_and_solutions;
                  Printed (Text "No hashes to solve!");
                  Call P_check_solutions;
                  Printed (Text "check solutions:")] ++ rows)).
  { unfold execute_riddle_solver, get_hashes_and_solutions.
    unfold bind at 1 2 3 4. unfold print at 1, call at 1, emit, ask.
    rewrite Hs. unfold ret. cbn [fst snd]. rewrite Hl.
    cbn [Nat.eqb]. unfold bind, print, emit. rewrite E. reflexivity. }
  split; [exact X|]. split; [exact E|]. split; [exact F|].
  rewrite X. cbn [snd].
  assert (N : forall p, p <> P_get_hashes_and_solutions ->
                p <> P_check_solutions ->
                ~ In (Call p)
                    ([Printed (Text (String PyStr.newline
                         "Searching for hashes and allready found solutions..."));
                      Call P_get_hashes_and_solutions;
                      Printed (Text "No hashes to solve!");
                      Call P_check_solutions;
                      Printed (Text "check solutions:")] ++ rows)).
  { intros p N1 N2 H. apply in_app_or in H. destruct H as [H|H].
    - simpl in H.
      destruct H as [H|[H|[H|[H|[H|[]]]]]]; try discriminate;
        inversion H; congruence.
    - rewrite Forall_forall in F. apply F in H. exact H. }
  repeat split; apply N; discriminate.
Qed.

Lemma no_pending_no_fetch_witness :
  fst (execute_riddle_solver
         {| movies := [("00", Dir {| verify_py := Some verify_inception;
                                     solution_txt := Some "Inception" |})];
            data_tsv := None; data_tsv_gz := None; remote := None |})
  = (inr tt,
     {| movies := [("00", Dir {| verify_py := Some verify_inception;
                                 solution_txt := Some "Inception" |})];
        data_tsv := None; data_tsv_gz := None; remote := None |}).
Proof.
  destruct (no_pending_no_fetch
              {| movies := [("00", Dir {| verify_py := Some verify_inception;
                                          solution_txt := Some "Inception" |})];
                 data_tsv := None; data_tsv_gz := None; remote := None |}
              [] [(0%Z, Some "Inception")]) as [rows [E _]].
  - vm_compute. reflexivity.
  - reflexivity.
  - rewrite E. reflexivity.
Defined.

(** C8 fails as stated.  A folder without [verify.py] is an entry of
    [hashes] with the value [None]: no digest is pending, and yet the
    run goes on to [download_data] and never gets to
    [check_solutions]. *)
Lemma digestless_folder_fetches :
  scan digestless_world = inr ([(1%Z, None)], [(0%Z, Some "Inception")])
  /\ get_hash digestless_world "01" = None
  /\ (forall k d, PyDict.get k [(1%Z, @None string)] = Some d -> d = None)
  /\ In (Call P_download_data) (snd (execute_riddle_solver digestless_world))
  /\ ~ In (Call P_check_solutions) (snd (execute_riddle_solver digestless_world))
  /\ ~ (forall w hashes solutions,
          scan w = inr (hashes, solutions) ->
          (forall k d, PyDict.get k hashes = Some d -> d = None) ->
          ~ In (Call P_download_data) (snd (execute_riddle_solver w))).
Proof.
  assert (S : scan digestless_world
              = inr ([(1%Z, None)], [(0%Z, Some "Inception")]))
    by (vm_compute; reflexivity).
  assert (N : forall k d, PyDict.get k [(1%Z, @None string)] = Some d -> d = None).
  { intros k d. cbn [PyDict.get]. destruct (k =? 1)%Z; [congruence | discriminate]. }
  assert (E : snd (execute_riddle_solver digestless_world)
              = [Printed (Text (String PyStr.newline
                           "Searching for hashes and allready found solutions..."));
                 Call P_get_hashes_and_solutions;
                 Call P_download_data;
                 Printed (Text "Downloading movies dataset...")])
    by (vm_compute; reflexivity).
  split; [exact S|]. split; [reflexivity|]. split; [exact N|].
  rewrite E. split; [simpl; auto|]. split.
  - simpl. intros [H|[H|[H|[H|[]]]]]; discriminate.
  - intro H. apply (H digestless_world _ _ S N). rewrite E. simpl. auto.
Qed.

(* ================================================================== *)
(** * Writing the answers and reading them back                         *)
(* ================================================================== *)

Section Strip.
Variable p : ascii -> bool.

Lemma rstrip_with_idem (s : string) :
  PyStr.rstrip_with p (PyStr.rstrip_with p s) = PyStr.rstrip_with p s.
Proof.
  induction s as [|c s IH]; [reflexivity|].
  cbn [PyStr.rstrip_with].
  destruct (PyStr.rstrip_with p s) as [|c' r] eqn:R.
  - destruct (p c) eqn:Pc; [reflexivity|].
    cbn [PyStr.rstrip_with]. rewrite Pc. reflexivity.
  - cbn [PyStr.rstrip_with]. cbn [PyStr.rstrip_with] in IH.
    destruct (PyStr.rstrip_with p r) as [|c'' r'] eqn:R'.
    + destruct (p c'); [discriminate|]. inversion IH; subst. reflexivity.
    + inversion IH; subst. reflexivity.
Qed.

Lemma lstrip_with_head (s : string) :
  PyStr.lstrip_with p s = ""
  \/ exists c t, PyStr.lstrip_with p s = String c t /\ p c = false.
Proof.
  induction s as [|c s IH]; simpl; [auto|].
  destruct (p c) eqn:Pc; [exact IH|]. right. eauto.
Qed.

Lemma rstrip_with_head (c : ascii) (t : string) :
  p c = false -> exists r, PyStr.rstrip_with p (String c t) = String c r.
Proof.
  intro Pc. cbn [PyStr.rstrip_with].
  destruct (PyStr.rstrip_with p t); [rewrite Pc|]; eauto.
Qed.

(** Stripping twice is stripping once. *)
Lemma strip_with_idem (s : string) :
  PyStr.strip_with p (PyStr.strip_with p s) = PyStr.strip_with p s.
Proof.
  unfold PyStr.strip_with.
  destruct (lstrip_with_head s) as [E|[c [t [E Pc]]]]; rewrite E.
  - reflexivity.
  - destruct (rstrip_with_head c t Pc) as [r R]. rewrite R.
    cbn [PyStr.lstrip_with]. rewrite Pc. rewrite <- R.
    apply rstrip_with_idem.
Qed.

End Strip.

Lemma strip_idem (s : string) : PyStr.strip (PyStr.strip s) = PyStr.strip s.
Proof. apply strip_with_idem. Qed.

(** Text without a carriage return is read back as it was written. *)
Lemma read_text_no_cr (s : string) : no_cr s = true -> read_text s = s.
Proof.
  unfold read_text. induction s as [|c s IH]; [reflexivity|].
  cbn [no_cr universal_newlines]. intro H.
  apply andb_true_iff in H. destruct H as [Hc Hs].
  apply negb_true_iff in Hc. rewrite Hc, (IH Hs). reflexivity.
Qed.

Section MovieDir.
Local Open Scope Z_scope.

Lemma to_int_norm (z : Z) : Decimal.norm (Z.to_int z) = Z.to_int z.
Proof. rewrite <- DecimalZ.to_of, DecimalZ.of_to. reflexivity. Qed.

Lemma numeral_parse (z : Z) :
  NilZero.int_of_string (numeral z) = Some (Z.to_int z).
Proof.
  apply NilZero.isi; intro E; pose proof (to_int_norm z) as N;
    rewrite E in N; discriminate.
Qed.

Lemma numeral_inj (z z' : Z) : numeral z = numeral z' -> z = z'.
Proof.
  intro E. apply DecimalZ.to_int_inj.
  pose proof (numeral_parse z) as P. rewrite E, numeral_parse in P.
  congruence.
Qed.

(** A numeral of two characters or more does not start with a
    padding zero. *)
Lemma padded_not_numeral (z z' : Z) :
  (String.length (numeral z) < 2)%nat ->
  (2 <= String.length (numeral z'))%nat ->
  String "0" (numeral z) <> numeral z'.
Proof.
  intros L L' E.
  pose proof (numeral_parse z') as P. rewrite <- E in P.
  pose proof (to_int_norm z') as N.
  rewrite <- E in L'.
  destruct (numeral z) as [|c [|c' t]]; simpl in L, L'; try lia.
  remember (Z.to_int z') as d eqn:D. clear D E L L'.
  destruct c as [[] [] [] [] [] [] [] []]; vm_compute in P;
    try discriminate; inversion P as [P']; rewrite <- P' in N;
    vm_compute in N; discriminate.
Qed.

(** Two indices never share a folder. *)
Lemma get_movie_dir_inj (i j : Z) : get_movie_dir i = get_movie_dir j -> i = j.
Proof.
  unfold get_movie_dir, PyInt.format_02d.
  fold (numeral i). fold (numeral j).
  destruct (Nat.ltb_spec (String.length (numeral i)) 2) as [Li|Li];
    destruct (Nat.ltb_spec (String.length (numeral j)) 2) as [Lj|Lj];
    intro E.
  - inversion E. apply numeral_inj. assumption.
  - exfalso. exact (padded_not_numeral i j Li Lj E).
  - exfalso. exact (padded_not_numeral j i Lj Li (eq_sym E)).
  - apply numeral_inj. exact E.
Qed.

End MovieDir.

Section Files.

Lemma lookup_update_same (name : string) (x : node) (l : list (string * node)) :
  lookup name (update name x l)
  = match lookup name l with Some _ => Some x | None => None end.
Proof.
  induction l as [|[n y] l IH]; simpl; [reflexivity|].
  destruct (String.eqb name n) eqn:E; simpl; rewrite E; auto.
Qed.

Lemma lookup_update_other (name name' : string) (x : node)
      (l : list (string * node)) :
  name <> name' -> lookup name' (update name x l) = lookup name' l.
Proof.
  intro N. induction l as [|[n y] l IH]; simpl; [reflexivity|].
  destruct (String.eqb name n) eqn:E; simpl.
  - apply String.eqb_eq in E. subst n.
    destruct (String.eqb name' name) eqn:E'; [|reflexivity].
    apply String.eqb_eq in E'. congruence.
  - destruct (String.eqb name' n); [reflexivity | exact IH].
Qed.

Lemma map_fst_update (name : string) (x : node) (l : list (string * node)) :
  map fst (update name x l) = map fst l.
Proof.
  induction l as [|[n y] l IH]; simpl; [reflexivity|].
  destruct (String.eqb name n); simpl; congruence.
Qed.

Lemma agree_refl (w : World) : agree w w.
Proof. repeat split. Qed.

Lemma agree_trans (w1 w2 w3 : World) : agree w1 w2 -> agree w2 w3 -> agree w1 w3.
Proof.
  intros [A1 [A2 [A3 [A4 [A5 A6]]]]] [B1 [B2 [B3 [B4 [B5 B6]]]]].
  repeat split; congruence.
Qed.

(** One write: it needs the folder, and changes its [solution.txt]
    only. *)
Lemma write_solution_txt_spec (dir content : string) (w : World) :
  (exists d,
      riddle_at w dir = Some d
      /\ exists w1,
           write_solution_txt dir content w = (inr tt, w1, [])
           /\ riddle_at w1 dir
              = Some {| verify_py := verify_py d; solution_txt := Some content |}
           /\ (forall name, name <> dir ->
                 lookup name (movies w1) = lookup name (movies w))
           /\ agree w w1)
  \/ (riddle_at w dir = None
      /\ exists e, write_solution_txt dir content w = (inl e, w, [])).
Proof.
  unfold write_solution_txt, riddle_at.
  destruct (lookup dir (movies w)) as [[|d]|] eqn:L.
  - right. eauto.
  - left. exists d. split; [reflexivity|]. eexists. split; [reflexivity|].
    assert (Same : lookup dir
              (movies (with_movies w
                 (update dir
                    (Dir {| verify_py := verify_py d; solution_txt := Some content |})
                    (movies w))))
            = Some (Dir {| verify_py := verify_py d; solution_txt := Some content |})).
    { simpl. rewrite lookup_update_same, L. reflexivity. }
    assert (Other : forall name, name <> dir ->
              lookup name
                (movies (with_movies w
                   (update dir
                      (Dir {| verify_py := verify_py d; solution_txt := Some content |})
                      (movies w))))
              = lookup name (movies w)).
    { intros name N. simpl. apply lookup_update_other. congruence. }
    split; [rewrite Same; reflexivity|]. split; [exact Other|].
    unfold agree, listdir, isdir, get_hash, riddle_at.
    repeat split.
    + simpl. apply map_fst_update.
    + intro name. destruct (String.eqb_spec name dir) as [->|N].
      * rewrite Same, L. reflexivity.
      * rewrite (Other name N). reflexivity.
    + intro name. destruct (String.eqb_spec name dir) as [->|N].
      * rewrite Same, L. reflexivity.
      * rewrite (Other name N). reflexivity.
  - right. eauto.
Qed.

End Files.

Section WriteLoop.

Lemma isdir_riddle_at (w : World) (name : string) :
  isdir w name = true <-> exists d, riddle_at w name = Some d.
Proof.
  unfold isdir. destruct (riddle_at w name) as [d|].
  - split; eauto.
  - split; [discriminate | intros [d H]; discriminate].
Qed.

(** The loop of [write_solutions] from any world, whatever its
    outcome. *)
Lemma write_loop_spec (items : list (Z * option string)) :
  forall w r w' out,
  NoDup (map fst items) ->
  write_loop items w = (r, w', out) ->
  out = []
  /\ agree w w'
  /\ (forall name,
        (forall k v, In (k, v) items -> get_movie_dir k <> name) ->
        lookup name (movies w') = lookup name (movies w))
  /\ (r = inr tt ->
      forall k a, In (k, Some a) items ->
        exists d, riddle_at w' (get_movie_dir k) = Some d
                  /\ solution_txt d = Some (PyStr.strip a))
  /\ ((forall k v, In (k, v) items ->
         v <> None /\ isdir w (get_movie_dir k) = true) ->
      r = inr tt).
Proof.
  induction items as [|[k sol] rest IH]; intros w r w' out Nd E.
  - inversion E; subst. split; [reflexivity|]. split; [apply agree_refl|].
    split; [reflexivity|]. split; [intros _ ? ? []|]. reflexivity.
  - simpl in Nd. apply NoDup_cons_iff in Nd. destruct Nd as [Fresh Nd].
    cbn [write_loop] in E. unfold bind at 1 in E.
    destruct (write_solution_txt_spec (get_movie_dir k) "" w)
      as [[d [Hd [w1 [E1 [R1 [F1 A1]]]]]]|[Hn [e E1]]];
      rewrite E1 in E.
    2:{ inversion E; subst. split; [reflexivity|].
        split; [apply agree_refl|]. split; [reflexivity|].
        split; [discriminate|]. intro H.
        destruct (H k sol (or_introl eq_refl)) as [_ D].
        apply isdir_riddle_at in D. destruct D as [d D]. congruence. }
    destruct sol as [s|].
    2:{ unfold raise in E. inversion E; subst. split; [reflexivity|].
        split; [exact A1|]. split.
        - intros name H. apply F1. intros ->.
          exact (H k None (or_introl eq_refl) eq_refl).
        - split; [discriminate|]. intro H.
          destruct (H k None (or_introl eq_refl)) as [N _]. congruence. }
    unfold bind at 1 in E.
    destruct (write_solution_txt_spec (get_movie_dir k) (PyStr.strip s) w1)
      as [[d1 [Hd1 [w2 [E2 [R2 [F2 A2]]]]]]|[Hn _]];
      [|congruence].
    rewrite E2 in E.
    destruct (write_loop rest w2) as [[r' w''] out'] eqn:L.
    destruct (IH w2 r' w'' out' Nd L) as [O [A [F [Rt T]]]].
    simpl in E. inversion E; subst. clear E.
    assert (A12 : agree w w2) by (eapply agree_trans; eassumption).
    split; [reflexivity|]. split; [eapply agree_trans; eassumption|].
    split; [|split].
    + intros name H.
      assert (N : name <> get_movie_dir k)
        by (intros ->; exact (H k (Some s) (or_introl eq_refl) eq_refl)).
      rewrite F by (intros k' v Hin; apply (H k' v); simpl; auto).
      rewrite (F2 name N). apply F1. exact N.
    + intros Hr k' a [Hin|Hin].
      * inversion Hin; subst k' a.
        exists {| verify_py := verify_py d1; solution_txt := Some (PyStr.strip s) |}.
        split; [|reflexivity]. unfold riddle_at. rewrite F.
        -- fold (riddle_at w2 (get_movie_dir k)). exact R2.
        -- intros k' v Hin' Eq. apply get_movie_dir_inj in Eq. subst k'.
           apply Fresh. change k with (fst (k, v)). apply in_map. exact Hin'.
      * apply Rt; assumption.
    + intro H. apply T. intros k' v Hin.
      destruct (H k' v (or_intror Hin)) as [Hv Hdir]. split; [exact Hv|].
      destruct A12 as [_ [_ [_ [_ [Hisdir _]]]]]. rewrite Hisdir. exact Hdir.
Qed.



End WriteLoop.




(* ================================================================== *)
(** * Further properties: answers on disk and folder names              *)
(* ================================================================== *)

Section TextFacts.

(** Text read in text mode holds no carriage return. *)
Lemma universal_newlines_no_cr (s : string) :
  no_cr (universal_newlines s) = true
  /\ forall c, no_cr (universal_newlines (String c s)) = true.
Proof.
  induction s as [|a s [IH1 IH2]].
  - split; [reflexivity|]. intro c. cbn [universal_newlines].
    destruct (Ascii.eqb c CR) eqn:E; cbn [no_cr]; [reflexivity|].
    rewrite E. reflexivity.
  - split; [apply IH2|]. intro c. cbn [universal_newlines].
    destruct (Ascii.eqb c CR) eqn:E.
    + cbn [no_cr]. change (Ascii.eqb PyStr.newline CR) with false.
      cbn [negb andb].
      destruct (Ascii.eqb a PyStr.newline); [exact IH1 | apply IH2].
    + cbn [no_cr]. rewrite E. cbn [negb andb]. apply IH2.
Qed.

Lemma read_text_has_no_cr (s : string) : no_cr (read_text s) = true.
Proof. apply universal_newlines_no_cr. Qed.

Variable p : ascii -> bool.

Lemma lstrip_with_no_cr (s : string) :
  no_cr s = true -> no_cr (PyStr.lstrip_with p s) = true.
Proof.
  induction s as [|c s IH]; [auto|]. intro H. cbn [PyStr.lstrip_with].
  destruct (p c); [|exact H].
  apply IH. cbn [no_cr] in H. apply andb_true_iff in H. tauto.
Qed.

Lemma rstrip_with_no_cr (s : string) :
  no_cr s = true -> no_cr (PyStr.rstrip_with p s) = true.
Proof.
  induction s as [|c s IH]; [auto|]. intro H. cbn [no_cr] in H.
  apply andb_true_iff in H. destruct H as [Hc Hs].
  cbn [PyStr.rstrip_with]. specialize (IH Hs).
  destruct (PyStr.rstrip_with p s) as [|c' r].
  - destruct (p c); [reflexivity|]. cbn [no_cr]. rewrite Hc. reflexivity.
  - cbn [no_cr] in *. rewrite Hc. exact IH.
Qed.

Lemma strip_with_no_cr (s : string) :
  no_cr s = true -> no_cr (PyStr.strip_with p s) = true.
Proof.
  intro H. apply rstrip_with_no_cr. apply lstrip_with_no_cr. exact H.
Qed.

(** Nothing is stripped from a string without a character of [p]. *)
Lemma strip_with_nothing (s : string) :
  all_chars (fun c => negb (p c)) s = true -> PyStr.strip_with p s = s.
Proof.
  intro H. unfold PyStr.strip_with.
  assert (L : PyStr.lstrip_with p s = s).
  { destruct s as [|c s]; [reflexivity|]. cbn [all_chars] in H.
    apply andb_true_iff in H. destruct H as [Hc _].
    apply negb_true_iff in Hc. cbn [PyStr.lstrip_with]. rewrite Hc. reflexivity. }
  rewrite L. clear L. induction s as [|c s IH]; [reflexivity|].
  cbn [all_chars] in H. apply andb_true_iff in H. destruct H as [Hc Hs].
  apply negb_true_iff in Hc. cbn [PyStr.rstrip_with]. rewrite (IH Hs).
  destruct s; [rewrite Hc|]; reflexivity.
Qed.

End TextFacts.

(** X1.  An answer that [get_solution] returns is not empty, has no
    white space around it and no carriage return in it: it is what
    [write_solutions] would write for it, and it is read back
    unchanged. *)
Theorem get_solution_trimmed (w : World) (dir s : string) :
  get_solution w dir = Some s ->
  s <> "" /\ PyStr.strip s = s /\ no_cr s = true.
Proof.
  unfold get_solution.
  destruct (riddle_at w dir) as [d|]; [|discriminate].
  destruct (solution_txt d) as [txt|]; [|discriminate].
  destruct (String.eqb_spec (PyStr.strip (read_text txt)) "") as [E|N];
    [discriminate|].
  cbn [negb]. intro H. inversion H; subst s.
  split; [exact N|]. split; [apply strip_idem|].
  apply strip_with_no_cr. apply read_text_has_no_cr.
Qed.

Lemma get_solution_trimmed_witness :
  get_solution registry_world "00" = Some "InCePtIoN"
  /\ "InCePtIoN" <> "" /\ PyStr.strip "InCePtIoN" = "InCePtIoN"
  /\ no_cr "InCePtIoN" = true.
Proof.
  split; [reflexivity|].
  apply (get_solution_trimmed registry_world "00" "InCePtIoN"). reflexivity.
Defined.

(** X2.  Two indices have the same folder only when they are the same
    index. *)
Theorem get_movie_dir_same_iff (i j : Z) :
  get_movie_dir i = get_movie_dir j <-> i = j.
Proof.
  split; [apply get_movie_dir_inj | intros ->; reflexivity].
Qed.

Section IntOfFolder.
Local Open Scope Z_scope.

Lemma parse_digit_step (c : ascii) (k acc : Z) (b : bool) (s : string) :
  PyInt.digit_val c = Some k ->
  PyInt.parse_digits acc b (String c s) = PyInt.parse_digits (10 * acc + k) true s.
Proof. intro H. cbn [PyInt.parse_digits]. rewrite H. reflexivity. Qed.

Ltac digit_step k :=
  rewrite (parse_digit_step _ k) by reflexivity.

(** Digits after a positive accumulator. *)
Lemma parse_digits_acc (d : Decimal.uint) :
  forall acc : positive,
  PyInt.parse_digits (Zpos acc) true (NilEmpty.string_of_uint d)
  = Some (Zpos (Pos.of_uint_acc d acc)).
Proof.
  induction d; intro acc; cbn [NilEmpty.string_of_uint Pos.of_uint_acc];
    [reflexivity| | | | | | | | | | ].
  - digit_step 0. rewrite <- IHd. f_equal; lia.
  - digit_step 1. rewrite <- IHd. f_equal; lia.
  - digit_step 2. rewrite <- IHd. f_equal; lia.
  - digit_step 3. rewrite <- IHd. f_equal; lia.
  - digit_step 4. rewrite <- IHd. f_equal; lia.
  - digit_step 5. rewrite <- IHd. f_equal; lia.
  - digit_step 6. rewrite <- IHd. f_equal; lia.
  - digit_step 7. rewrite <- IHd. f_equal; lia.
  - digit_step 8. rewrite <- IHd. f_equal; lia.
  - digit_step 9. rewrite <- IHd. f_equal; lia.
Qed.

(** A numeral without sign, leading zeros allowed. *)
Lemma parse_digits_uint (d : Decimal.uint) (b : bool) :
  d <> Decimal.Nil ->
  PyInt.parse_digits 0 b (NilEmpty.string_of_uint d)
  = Some (Z.of_N (Pos.of_uint d)).
Proof.
  revert b. induction d; intros b N; [congruence| | | | | | | | | | ];
    cbn [NilEmpty.string_of_uint Pos.of_uint].
  - digit_step 0. change (10 * 0 + 0) with 0.
    destruct d; try (apply IHd; discriminate). reflexivity.
  - digit_step 1. apply (parse_digits_acc d 1).
  - digit_step 2. apply (parse_digits_acc d 2).
  - digit_step 3. apply (parse_digits_acc d 3).
  - digit_step 4. apply (parse_digits_acc d 4).
  - digit_step 5. apply (parse_digits_acc d 5).
  - digit_step 6. apply (parse_digits_acc d 6).
  - digit_step 7. apply (parse_digits_acc d 7).
  - digit_step 8. apply (parse_digits_acc d 8).
  - digit_step 9. apply (parse_digits_acc d 9).
Qed.

Lemma uint_chars (d : Decimal.uint) :
  all_chars (fun c => negb (PyInt.int_space c)) (NilEmpty.string_of_uint d) = true.
Proof. induction d; cbn [NilEmpty.string_of_uint all_chars]; auto. Qed.

Lemma uint_length (d : Decimal.uint) :
  d <> Decimal.Nil -> (1 <= String.length (NilEmpty.string_of_uint d))%nat.
Proof. destruct d; [congruence|..]; intros _; simpl; lia. Qed.

Lemma nilzero_uint (d : Decimal.uint) :
  d <> Decimal.Nil -> NilZero.string_of_uint d = NilEmpty.string_of_uint d.
Proof. destruct d; [congruence|..]; reflexivity. Qed.

(** [int] on a numeral of digits. *)
Lemma int_of_uint (d : Decimal.uint) :
  d <> Decimal.Nil ->
  PyInt.int (NilEmpty.string_of_uint d) = Some (Z.of_N (Pos.of_uint d)).
Proof.
  intro N. unfold PyInt.int.
  rewrite (strip_with_nothing _ _ (uint_chars d)).
  rewrite <- (parse_digits_uint d false N).
  destruct d; [congruence|..]; reflexivity.
Qed.

Lemma int_of_padded (d : Decimal.uint) :
  PyInt.int (String "0" (NilEmpty.string_of_uint d)) = Some (Z.of_N (Pos.of_uint d)).
Proof.
  change (String "0" (NilEmpty.string_of_uint d))
    with (NilEmpty.string_of_uint (Decimal.D0 d)).
  rewrite int_of_uint by discriminate. reflexivity.
Qed.

Lemma int_of_negative (d : Decimal.uint) :
  d <> Decimal.Nil ->
  PyInt.int (String "-" (NilEmpty.string_of_uint d))
  = Some (- Z.of_N (Pos.of_uint d)).
Proof.
  intro N. unfold PyInt.int.
  rewrite strip_with_nothing
    by (cbn [all_chars]; rewrite uint_chars; reflexivity).
  rewrite (parse_digits_uint d false N). reflexivity.
Qed.

End IntOfFolder.

(** X3.  The name of the folder of an index reads back as that index,
    for every index of at most 4300 digits, which is as far as CPython
    converts: [int(f"{k:02d}") == k], so the scan files the folder
    that [write_solutions] writes for [k] under [k] again. *)
Theorem int_of_movie_dir (k : Z) :
  (Z.abs k < 10 ^ PyInt.max_str_digits)%Z ->
  PyInt.int (get_movie_dir k) = Some k.
Proof.
  intros _. unfold get_movie_dir, PyInt.format_02d. destruct k as [|p|p].
  - reflexivity.
  - cbn [Z.to_int NilZero.string_of_int].
    pose proof (DecimalPos.Unsigned.to_uint_nonnil p) as N.
    rewrite (nilzero_uint _ N).
    destruct (String.length (NilEmpty.string_of_uint (Pos.to_uint p)) <? 2).
    + rewrite int_of_padded, DecimalPos.Unsigned.of_to. reflexivity.
    + rewrite (int_of_uint _ N), DecimalPos.Unsigned.of_to. reflexivity.
  - cbn [Z.to_int NilZero.string_of_int].
    pose proof (DecimalPos.Unsigned.to_uint_nonnil p) as N.
    rewrite (nilzero_uint _ N).
    destruct (Nat.ltb_spec
                (String.length (String "-" (NilEmpty.string_of_uint (Pos.to_uint p)))) 2)
      as [L|L].
    + pose proof (uint_length _ N). simpl in L. lia.
    + rewrite (int_of_negative _ N), DecimalPos.Unsigned.of_to. reflexivity.
Qed.

Lemma int_of_movie_dir_witness :
  PyInt.int (get_movie_dir (-7)) = Some (-7)%Z.
Proof.
  apply int_of_movie_dir.
  apply Z.lt_le_trans with (10 ^ 1)%Z; [reflexivity|].
  apply Z.pow_le_mono_r; [reflexivity|]. unfold PyInt.max_str_digits. lia.
Defined.

(* ================================================================== *)
(** * Further properties: the scan, on the disk                          *)
(* ================================================================== *)

Section DiskScan.
Variable d : Disk.t.

Lemma check_riddle_returns (file : string) (b : bool) :
  Disk.check_riddle d file = inr b ->
  Disk.unreadable d file = false
  /\ exists hash solution,
       Disk.get_hash d file = inr hash
       /\ Disk.get_solution d file = inr solution
       /\ b = check_hash hash solution.
Proof.
  intro C. split.
  - destruct (Disk.unreadable d file) eqn:U; [|reflexivity].
    assert (X : Disk.check_riddle d file = inl UnicodeDecodeError)
      by (apply check_riddle_raises; auto).
    congruence.
  - unfold Disk.check_riddle in C.
    destruct (Disk.get_hash d file) as [e|h]; [discriminate|].
    destruct (Disk.get_solution d file) as [e|s0]; [discriminate|].
    inversion C. eauto.
Qed.

(** One folder of the scan: it raises what is wrong with the folder,
    and goes on when nothing is. *)
Lemma scan_step (file : string) (rest : list string) (hashes solutions : dict) :
  Disk.isdir d file = true ->
  match Disk.fault d file with
  | Some e => Disk.scan_loop d (file :: rest) hashes solutions = inl e
  | None =>
      exists hashes' solutions',
        Disk.scan_loop d (file :: rest) hashes solutions
        = Disk.scan_loop d rest hashes' solutions'
  end.
Proof.
  intro D. cbn [Disk.scan_loop]. rewrite D. unfold Disk.fault.
  destruct (Disk.check_riddle d file) as [e|b] eqn:C.
  - apply check_riddle_raises in C. destruct C as [-> U]. rewrite U. reflexivity.
  - destruct (check_riddle_returns file b C) as [U [h [s0 [H [S _]]]]].
    rewrite U, H, S.
    destruct (PyInt.int file) as [k|]; destruct b; eauto.
Qed.

(** The loop raises at the first folder with something wrong. *)
Lemma scan_loop_first_fault (files : list string) :
  forall (hashes solutions : dict) e,
  Disk.scan_loop d files hashes solutions = inl e
  <-> exists pre file post,
        filter (Disk.isdir d) files = pre ++ file :: post
        /\ (forall f, In f pre -> Disk.fault d f = None)
        /\ Disk.fault d file = Some e.
Proof.
  induction files as [|f fs IH]; intros hashes solutions e.
  - split; [discriminate|]. intros [pre [file [post [E _]]]].
    destruct pre; discriminate.
  - destruct (Disk.isdir d f) eqn:D.
    + cbn [filter]. rewrite D.
      pose proof (scan_step f fs hashes solutions D) as St.
      destruct (Disk.fault d f) as [e1|] eqn:F.
      * rewrite St. split.
        -- intro X. inversion X; subst e1. exists [], f, (filter (Disk.isdir d) fs).
           split; [reflexivity|]. split; [intros ? []|exact F].
        -- intros [pre [file [post [E [Hpre Hf]]]]].
           destruct pre as [|p pre]; simpl in E; inversion E; subst.
           ++ congruence.
           ++ rewrite (Hpre p) in F by (left; reflexivity). discriminate.
      * destruct St as [h' [s' St]]. rewrite St, IH. split.
        -- intros [pre [file [post [E [Hpre Hf]]]]].
           exists (f :: pre), file, post. split; [simpl; congruence|].
           split; [|exact Hf]. intros x [<-|Hx]; [exact F | apply Hpre; exact Hx].
        -- intros [pre [file [post [E [Hpre Hf]]]]].
           destruct pre as [|p pre]; simpl in E; inversion E; subst.
           ++ congruence.
           ++ exists pre, file, post. split; [assumption|].
              split; [|exact Hf]. intros x Hx. apply Hpre. right. exact Hx.
    + cbn [Disk.scan_loop filter]. rewrite D. apply IH.
Qed.

(** The first element of a list that has something wrong. *)
Lemma first_fault (l : list string) (file : string) :
  In file l -> Disk.fault d file <> None ->
  exists pre x post e,
    l = pre ++ x :: post
    /\ (forall f, In f pre -> Disk.fault d f = None)
    /\ Disk.fault d x = Some e.
Proof.
  induction l as [|a l IH]; intros Hin Hf; [destruct Hin|].
  destruct (Disk.fault d a) as [e|] eqn:Fa.
  - exists [], a, l, e. split; [reflexivity|]. split; [intros ? []|exact Fa].
  - assert (Hl : In file l) by (destruct Hin as [->|H]; [congruence|exact H]).
    destruct (IH Hl Hf) as [pre [x [post [e [E [Hpre Hx]]]]]].
    exists (a :: pre), x, post, e. split; [simpl; congruence|].
    split; [|exact Hx]. intros f [<-|H]; [exact Fa | apply Hpre; exact H].
Qed.

(** A scan that raises. *)
Lemma scan_first_fault (e : exn) :
  Disk.scan d = inl e
  <-> (Disk.movies d = None /\ e = FileNotFoundError)
      \/ exists pre file post,
           Disk.dirs d = pre ++ file :: post
           /\ (forall f, In f pre -> Disk.fault d f = None)
           /\ Disk.fault d file = Some e.
Proof.
  unfold Disk.scan, Disk.listdir, Disk.dirs.
  destruct (Disk.movies d) as [l|] eqn:Em.
  - rewrite scan_loop_first_fault. split.
    + intro H. right. exact H.
    + intros [[X _]|H]; [discriminate | exact H].
  - split.
    + intro H. inversion H. left. auto.
    + intros [[_ ->]|[pre [file [post [E _]]]]]; [reflexivity|].
      destruct pre; discriminate.
Qed.

(** A scan that ends has found its folder and nothing wrong in it. *)
Lemma scan_returns (r : dict * dict) :
  Disk.scan d = inr r ->
  Disk.movies d <> None
  /\ forall file, In file (Disk.dirs d) -> Disk.fault d file = None.
Proof.
  intro R. split.
  - intro Em. assert (X : Disk.scan d = inl FileNotFoundError)
      by (apply scan_first_fault; left; auto).
    congruence.
  - intros file Hin.
    destruct (Disk.fault d file) as [e|] eqn:F; [|reflexivity]. exfalso.
    destruct (first_fault (Disk.dirs d) file Hin)
      as [pre [x [post [e' [E [Hpre Hx]]]]]]; [congruence|].
    assert (X : Disk.scan d = inl e')
      by (apply scan_first_fault; right; exists pre, x, post; auto).
    congruence.
Qed.

End DiskScan.

(** X4.  [get_hashes_and_solutions] raises exactly when there is no
    [movies] folder, and then [FileNotFoundError], or some riddle
    folder has something wrong: a [verify.py] or [solution.txt] that
    does not decode, or a name that [int] does not read.  It raises
    at the first such folder of the listing, [UnicodeDecodeError] when
    a file of it does not decode and [ValueError] otherwise; plain
    files in [movies] never matter. *)
Theorem scan_errors (d : Disk.t) :
  (forall e,
     Disk.scan d = inl e
     <-> (Disk.movies d = None /\ e = FileNotFoundError)
         \/ exists pre file post,
              Disk.dirs d = pre ++ file :: post
              /\ (forall f, In f pre -> Disk.fault d f = None)
              /\ Disk.fault d file = Some e)
  /\ ((exists r, Disk.scan d = inr r)
      <-> Disk.movies d <> None
          /\ forall file, In file (Disk.dirs d) -> Disk.fault d file = None).
Proof.
  split; [exact (scan_first_fault d)|]. split.
  - intros [r R]. exact (scan_returns d r R).
  - intros [Em Ok].
    assert (N : forall e, Disk.scan d <> inl e).
    { intros e R. apply scan_first_fault in R.
      destruct R as [[X _]|[pre [file [post [E [_ F]]]]]]; [contradiction|].
      rewrite (Ok file) in F; [discriminate|].
      rewrite E. apply in_or_app. right. left. reflexivity. }
    destruct (Disk.scan d) as [e|r]; [|eauto].
    exfalso. apply (N e). reflexivity.
Qed.

Section Report.

Lemma check_loop_rows (files : list string) (w : World) :
  check_loop files w = (inr tt, w, map (check_row w) (filter (isdir w) files)).
Proof.
  induction files as [|file rest IH]; [reflexivity|].
  cbn [check_loop filter]. unfold bind at 1. unfold ask.
  destruct (isdir w file).
  - unfold bind, print, emit. rewrite IH. reflexivity.
  - unfold bind, ret. rewrite IH. reflexivity.
Qed.

(** The report is the header and the rows of the loop. *)
Lemma check_solutions_run (w : World) :
  check_solutions w
  = (inr tt, w,
     [Call P_check_solutions; Printed (Text "check solutions:")]
     ++ snd (check_loop (listdir w) w)).
Proof.
  unfold check_solutions, bind, call, print, emit, ask.
  rewrite check_loop_rows. reflexivity.
Qed.

End Report.

(* ================================================================== *)
(** * Further properties: clearing and the report, on the disk          *)
(* ================================================================== *)

Section DiskFiles.

Lemma disk_lookup_update_same (name : string) (x : Disk.node)
      (l : list (string * Disk.node)) :
  Disk.lookup name (Disk.update name x l)
  = match Disk.lookup name l with Some _ => Some x | None => None end.
Proof.
  induction l as [|[n y] l IH]; simpl; [reflexivity|].
  destruct (String.eqb name n) eqn:E; simpl; rewrite E; auto.
Qed.

Lemma disk_lookup_update_other (name name' : string) (x : Disk.node)
      (l : list (string * Disk.node)) :
  name <> name' -> Disk.lookup name' (Disk.update name x l) = Disk.lookup name' l.
Proof.
  intro N. induction l as [|[n y] l IH]; simpl; [reflexivity|].
  destruct (String.eqb name n) eqn:E; simpl.
  - apply String.eqb_eq in E. subst n.
    destruct (String.eqb name' name) eqn:E'; [|reflexivity].
    apply String.eqb_eq in E'. congruence.
  - destruct (String.eqb name' n); [reflexivity | exact IH].
Qed.

Lemma disk_map_fst_update (name : string) (x : Disk.node)
      (l : list (string * Disk.node)) :
  map fst (Disk.update name x l) = map fst l.
Proof.
  induction l as [|[n y] l IH]; simpl; [reflexivity|].
  destruct (String.eqb name n); simpl; congruence.
Qed.

Lemma disk_lookup_absent (name : string) (l : list (string * Disk.node)) :
  ~ In name (map fst l) -> Disk.lookup name l = None.
Proof.
  induction l as [|[n x] l IH]; simpl; [reflexivity|]. intro H.
  destruct (String.eqb_spec name n) as [->|N]; [tauto|]. apply IH. tauto.
Qed.

Lemma disk_agree_refl (d : Disk.t) : Disk.agree d d.
Proof. repeat split. Qed.

Lemma disk_agree_trans (d1 d2 d3 : Disk.t) :
  Disk.agree d1 d2 -> Disk.agree d2 d3 -> Disk.agree d1 d3.
Proof.
  intros [A1 [A2 [A3 [A4 [A5 A6]]]]] [B1 [B2 [B3 [B4 [B5 B6]]]]].
  repeat split; congruence.
Qed.

(** One change of a [solution.txt]: it needs the folder, and changes
    that file only. *)
Lemma set_solution_txt_spec (dir : string) (file : option content) (d : Disk.t) :
  (exists r,
      Disk.riddle_at d dir = Some r
      /\ exists d1,
           Disk.set_solution_txt dir file d = (inr tt, d1, [])
           /\ Disk.riddle_at d1 dir
              = Some {| Disk.verify_py := Disk.verify_py r;
                        Disk.solution_txt := file |}
           /\ (forall name, name <> dir -> Disk.entry d1 name = Disk.entry d name)
           /\ Disk.agree d d1)
  \/ (Disk.riddle_at d dir = None
      /\ exists e, Disk.set_solution_txt dir file d = (inl e, d, [])).
Proof.
  unfold Disk.set_solution_txt, Disk.riddle_at, Disk.entry.
  destruct (Disk.movies d) as [l|] eqn:Em; [|right; eauto].
  destruct (Disk.lookup dir l) as [[|r]|] eqn:L.
  - right. eauto.
  - left. exists r. split; [reflexivity|]. eexists. split; [reflexivity|].
    cbn [Disk.movies Disk.with_movies].
    assert (Same : Disk.lookup dir
              (Disk.update dir
                 (Disk.Dir {| Disk.verify_py := Disk.verify_py r;
                              Disk.solution_txt := file |}) l)
            = Some (Disk.Dir {| Disk.verify_py := Disk.verify_py r;
                                Disk.solution_txt := file |}))
      by (rewrite disk_lookup_update_same, L; reflexivity).
    assert (Other : forall name, name <> dir ->
              Disk.lookup name
                (Disk.update dir
                   (Disk.Dir {| Disk.verify_py := Disk.verify_py r;
                                Disk.solution_txt := file |}) l)
              = Disk.lookup name l)
      by (intros name N; apply disk_lookup_update_other; congruence).
    split; [rewrite Same; reflexivity|]. split; [exact Other|].
    unfold Disk.agree, Disk.listdir, Disk.isdir, Disk.get_hash,
      Disk.riddle_at, Disk.entry.
    cbn [Disk.movies Disk.with_movies Disk.data_tsv Disk.data_tsv_gz Disk.remote].
    rewrite Em. repeat split.
    + rewrite disk_map_fst_update. reflexivity.
    + intro name. destruct (String.eqb_spec name dir) as [->|N].
      * rewrite Same, L. reflexivity.
      * rewrite (Other name N). reflexivity.
    + intro name. destruct (String.eqb_spec name dir) as [->|N].
      * rewrite Same, L. reflexivity.
      * rewrite (Other name N). reflexivity.
  - right. eauto.
Qed.

End DiskFiles.

Section DiskClearing.

Lemma disk_solution_absent_none (d : Disk.t) (name : string) :
  Disk.solution_exists d name = false -> Disk.get_solution d name = inr None.
Proof.
  unfold Disk.solution_exists, Disk.get_solution.
  destruct (Disk.riddle_at d name) as [r|]; [|reflexivity].
  destruct (Disk.solution_txt r); [discriminate | reflexivity].
Qed.

Lemma disk_solution_exists_frame (d d1 : Disk.t) (name : string) :
  Disk.entry d1 name = Disk.entry d name ->
  Disk.solution_exists d1 name = Disk.solution_exists d name.
Proof. unfold Disk.solution_exists, Disk.riddle_at. intros ->. reflexivity. Qed.

(** One removal: it needs the file, and takes only that file away. *)
Lemma disk_remove_solution_txt_spec (dir : string) (d : Disk.t) :
  Disk.solution_exists d dir = true ->
  exists d1,
    Disk.remove_solution_txt dir d = (inr tt, d1, [])
    /\ Disk.solution_exists d1 dir = false
    /\ (forall name, name <> dir -> Disk.entry d1 name = Disk.entry d name)
    /\ Disk.agree d d1.
Proof.
  intro S. unfold Disk.remove_solution_txt.
  destruct (set_solution_txt_spec dir None d)
    as [[r [R [d1 [E [R1 [F A]]]]]]|[R _]].
  - unfold Disk.solution_exists in S. rewrite R in *.
    destruct (Disk.solution_txt r); [|discriminate].
    exists d1. split; [exact E|]. split; [|auto].
    unfold Disk.solution_exists. rewrite R1. reflexivity.
  - unfold Disk.solution_exists in S. rewrite R in S. discriminate.
Qed.

(** The loop of [clear_solutions] from any disk. *)
Lemma disk_clear_loop_spec (files : list string) :
  forall d,
  exists d',
    Disk.clear_loop files d = (inr tt, d', [])
    /\ Disk.agree d d'
    /\ (forall name, In name files -> Disk.solution_exists d' name = false)
    /\ (forall name, Disk.solution_exists d name = false ->
                     Disk.solution_exists d' name = false)
    /\ (forall name, ~ In name files -> Disk.entry d' name = Disk.entry d name).
Proof.
  induction files as [|file rest IH]; intro d.
  - exists d. split; [reflexivity|]. split; [apply disk_agree_refl|].
    split; [intros ? []|]. auto.
  - cbn [Disk.clear_loop]. unfold Disk.bind at 1. unfold Disk.ask.
    destruct (Disk.isdir d file && Disk.solution_exists d file) eqn:B.
    + apply andb_true_iff in B. destruct B as [D S]. rewrite D, S.
      destruct (disk_remove_solution_txt_spec file d S) as [d1 [E1 [S1 [F1 A1]]]].
      destruct (IH d1) as [d' [E [A [In' [Keep Fr]]]]].
      exists d'. unfold Disk.bind. rewrite E1, E. split; [reflexivity|].
      split; [eapply disk_agree_trans; eassumption|]. split; [|split].
      * intros name [<-|H]; [apply Keep; exact S1 | apply In'; exact H].
      * intros name Hn. apply Keep.
        destruct (String.eqb_spec name file) as [->|N]; [exact S1|].
        rewrite (disk_solution_exists_frame d d1 name (F1 name N)). exact Hn.
      * intros name Hn. rewrite Fr by (intro H; apply Hn; simpl; auto).
        apply F1. intros ->. apply Hn. simpl. auto.
    + destruct (IH d) as [d' [E [A [In' [Keep Fr]]]]].
      exists d'.
      assert (Step : (if Disk.isdir d file
                      then if Disk.solution_exists d file
                           then Disk.remove_solution_txt file else Disk.ret tt
                      else Disk.ret tt) d = (inr tt, d, [])).
      { destruct (Disk.isdir d file); [|reflexivity].
        destruct (Disk.solution_exists d file); [discriminate | reflexivity]. }
      unfold Disk.bind. rewrite Step, E. split; [reflexivity|].
      split; [exact A|]. split; [|split].
      * intros name [<-|H]; [|apply In'; exact H]. apply Keep.
        unfold Disk.isdir, Disk.solution_exists in *.
        destruct (Disk.riddle_at d file); [exact B | reflexivity].
      * exact Keep.
      * intros name Hn. apply Fr. intro H. apply Hn. simpl. auto.
Qed.

Lemma disk_clear_loop_nothing (files : list string) (d : Disk.t) :
  (forall name, Disk.solution_exists d name = false) ->
  Disk.clear_loop files d = (inr tt, d, []).
Proof.
  intro H. induction files as [|file rest IH]; [reflexivity|].
  cbn [Disk.clear_loop]. unfold Disk.bind at 1. unfold Disk.ask.
  rewrite (H file). unfold Disk.bind.
  destruct (Disk.isdir d file); cbn [Disk.ret]; rewrite IH; reflexivity.
Qed.

(** [clear_solutions] on a disk with its [movies] folder. *)
Lemma disk_clear_solutions_clears (d : Disk.t) :
  Disk.movies d <> None ->
  exists d',
    Disk.clear_solutions d
    = (inr tt, d', [Printed (Text "solutions cleared.")])
    /\ Disk.agree d d'
    /\ (forall name, Disk.solution_exists d' name = false).
Proof.
  intro Em. destruct (Disk.movies d) as [l|] eqn:El; [|contradiction].
  destruct (disk_clear_loop_spec (map fst l) d) as [d' [E [A [Hin [Keep Fr]]]]].
  exists d'. split; [|split; [exact A|]].
  - unfold Disk.clear_solutions, Disk.bind, Disk.ask, Disk.eval, Disk.listdir.
    rewrite El. cbn [Disk.ret]. rewrite E. reflexivity.
  - intro name. destruct (in_dec string_dec name (map fst l)) as [H|H].
    + apply Hin. exact H.
    + apply Keep. unfold Disk.solution_exists, Disk.riddle_at, Disk.entry.
      rewrite El, (disk_lookup_absent name l H). reflexivity.
Qed.

Lemma clear_solutions_cases (d : Disk.t) :
  (Disk.movies d = None
   /\ Disk.clear_solutions d = (inl FileNotFoundError, d, []))
  \/ (Disk.movies d <> None
      /\ exists d',
           Disk.clear_solutions d
           = (inr tt, d', [Printed (Text "solutions cleared.")])
           /\ Disk.agree d d'
           /\ (forall name, Disk.solution_exists d' name = false)).
Proof.
  destruct (Disk.movies d) as [l|] eqn:Em.
  - right. split; [discriminate|].
    apply disk_clear_solutions_clears. congruence.
  - left. split; [reflexivity|].
    unfold Disk.clear_solutions, Disk.bind, Disk.ask, Disk.eval, Disk.listdir.
    rewrite Em. reflexivity.
Qed.

(** With no answer on the disk the scan files no folder as solved. *)
Lemma disk_scan_loop_none_solved (d : Disk.t) (files : list string) :
  (forall name, Disk.get_solution d name = inr None) ->
  forall (hashes solutions hashes' solutions' : dict),
  Disk.scan_loop d files hashes solutions = inr (hashes', solutions') ->
  solutions' = solutions.
Proof.
  intro G. induction files as [|f fs IH]; intros h s0 h' s' E;
    cbn [Disk.scan_loop] in E.
  - inversion E. reflexivity.
  - destruct (Disk.isdir d f); [|eapply IH; eauto].
    unfold Disk.check_riddle in E. rewrite G in E.
    destruct (Disk.get_hash d f) as [e|hash]; [discriminate|].
    rewrite check_hash_none_solution in E.
    destruct (PyInt.int f); [eapply IH; eauto | discriminate].
Qed.

End DiskClearing.

(** X6.  [clear_solutions] raises exactly when there is no [movies]
    folder, and then [FileNotFoundError] with nothing changed and
    nothing printed.  Otherwise it leaves no [solution.txt] behind:
    afterwards [get_solution] returns [None] for every folder, while
    the listing, the data files, the folders and what [get_hash]
    does on each are as before.  Clearing again changes nothing, and
    a scan that follows files no folder as solved. *)
Theorem clear_solutions_spec (d : Disk.t) :
  (Disk.movies d = None ->
   Disk.clear_solutions d = (inl FileNotFoundError, d, []))
  /\ (Disk.movies d <> None ->
      exists d',
        Disk.clear_solutions d
        = (inr tt, d', [Printed (Text "solutions cleared.")])
        /\ Disk.agree d d'
        /\ (forall name, Disk.solution_exists d' name = false)
        /\ (forall name, Disk.get_solution d' name = inr None)
        /\ Disk.clear_solutions d'
           = (inr tt, d', [Printed (Text "solutions cleared.")])
        /\ (forall hashes solutions,
              Disk.scan d' = inr (hashes, solutions) -> solutions = [])).
Proof.
  split.
  - intro Em. unfold Disk.clear_solutions, Disk.bind, Disk.ask, Disk.eval,
      Disk.listdir. rewrite Em. reflexivity.
  - intro Em. destruct (disk_clear_solutions_clears d Em) as [d' [E [A S]]].
    exists d'.
    assert (G : forall name, Disk.get_solution d' name = inr None)
      by (intro name; apply disk_solution_absent_none; apply S).
    assert (Em' : Disk.movies d' <> None).
    { destruct A as [L _]. unfold Disk.listdir in L.
      destruct (Disk.movies d'); [discriminate|].
      destruct (Disk.movies d); [discriminate | contradiction]. }
    split; [exact E|]. split; [exact A|]. split; [exact S|].
    split; [exact G|]. split.
    + destruct (Disk.movies d') as [l'|] eqn:El; [|contradiction].
      unfold Disk.clear_solutions, Disk.bind, Disk.ask, Disk.eval, Disk.listdir.
      rewrite El. cbn [Disk.ret].
      rewrite (disk_clear_loop_nothing _ _ S). reflexivity.
    + intros hashes solutions Es. unfold Disk.scan in Es.
      destruct (Disk.listdir d') as [e|files]; [discriminate|].
      apply (disk_scan_loop_none_solved d' _ G _ _ _ _ Es).
Qed.

Lemma clear_solutions_spec_witness :
  exists d',
    Disk.clear_solutions (to_disk registry_world)
    = (inr tt, d', [Printed (Text "solutions cleared.")])
    /\ Disk.get_solution d' "00" = inr None.
Proof.
  destruct (clear_solutions_spec (to_disk registry_world)) as [_ H].
  destruct H as [d' [E [_ [_ [G _]]]]]; [discriminate|].
  exists d'. split; [exact E | apply G].
Defined.

Section DiskReport.

(** A read of the report that raises has met a file that does not
    decode. *)
Lemma read_raises_unreadable (d : Disk.t) (file : string) (e : exn) :
  Disk.get_solution d file = inl e \/ Disk.get_hash d file = inl e ->
  e = UnicodeDecodeError /\ Disk.unreadable d file = true.
Proof.
  intro H. unfold Disk.unreadable. destruct H as [H|H].
  - apply get_solution_raises in H. destruct H as [-> [r [R V]]].
    rewrite R, V. cbn [Disk.undecodable]. rewrite orb_true_r. auto.
  - apply get_hash_raises in H. destruct H as [-> [r [R V]]].
    rewrite R, V. auto.
Qed.

(** The loop of [check_solutions], whatever its outcome: it changes
    nothing and prints rows only. *)
Lemma disk_check_loop_spec (files : list string) :
  forall d r d' out,
  Disk.check_loop files d = (r, d', out) ->
  d' = d /\ Forall is_check_row out
  /\ (forall e, r = inl e ->
        e = UnicodeDecodeError
        /\ exists file, In file files /\ Disk.isdir d file = true
                        /\ Disk.unreadable d file = true).
Proof.
  induction files as [|file rest IH]; intros d r d' out E.
  - injection E as Hr Hd Ho; subst r d' out.
    split; [reflexivity|]. split; [constructor|].
    intros e X. discriminate.
  - cbn [Disk.check_loop] in E. unfold Disk.bind at 1 in E. unfold Disk.ask in E.
    destruct (Disk.isdir d file) eqn:D.
    + unfold Disk.bind at 1 in E. unfold Disk.bind at 1 in E.
      destruct (Disk.get_solution d file) as [e1|solution] eqn:S;
        cbn [Disk.eval Disk.raise Disk.ret] in E.
      * injection E as Hr Hd Ho; subst r d' out.
        split; [reflexivity|]. split; [constructor|].
        intros e X. inversion X; subst e1.
        destruct (read_raises_unreadable d file e (or_introl S)) as [-> U].
        split; [reflexivity|]. exists file. simpl. auto.
      * unfold Disk.bind at 1 in E.
        destruct (Disk.get_hash d file) as [e1|hash] eqn:H;
          cbn [Disk.eval Disk.raise Disk.ret] in E.
        -- injection E as Hr Hd Ho; subst r d' out.
           split; [reflexivity|]. split; [constructor|].
           intros e X. inversion X; subst e1.
           destruct (read_raises_unreadable d file e (or_intror H)) as [-> U].
           split; [reflexivity|]. exists file. simpl. auto.
        -- unfold Disk.print, Disk.emit in E.
           destruct (Disk.check_loop rest d) as [[r0 d0] o0] eqn:L.
           destruct (IH _ _ _ _ L) as [-> [F Er]].
           cbn [app] in E. injection E as Hr Hd Ho; subst r d' out.
           split; [reflexivity|].
           split; [constructor; [exact I | exact F]|].
           intros e X. destruct (Er e X) as [He [f [H1 H2]]].
           split; [exact He|]. exists f. simpl. auto.
    + unfold Disk.bind at 1 in E. cbn [Disk.ret] in E.
      destruct (Disk.check_loop rest d) as [[r0 d0] o0] eqn:L.
      destruct (IH _ _ _ _ L) as [-> [F Er]].
      cbn [app] in E. injection E as Hr Hd Ho; subst r d' out.
      split; [reflexivity|].
      split; [exact F|].
      intros e X. destruct (Er e X) as [He [f [H1 H2]]].
      split; [exact He|]. exists f. simpl. auto.
Qed.

(** [check_solutions], whatever its outcome. *)
Lemma disk_check_solutions_spec (d d' : Disk.t) (r : result unit) (out : list event) :
  Disk.check_solutions d = (r, d', out) ->
  d' = d
  /\ (exists rows,
        out = Call P_check_solutions :: Printed (Text "check solutions:") :: rows
        /\ Forall is_check_row rows)
  /\ (forall e, r = inl e ->
        (e = FileNotFoundError /\ Disk.movies d = None)
        \/ (e = UnicodeDecodeError
            /\ exists file, In file (Disk.dirs d)
                            /\ Disk.unreadable d file = true)).
Proof.
  unfold Disk.check_solutions, Disk.bind, Disk.call, Disk.print, Disk.emit,
    Disk.ask, Disk.eval, Disk.listdir, Disk.dirs.
  destruct (Disk.movies d) as [l|] eqn:Em; cbn [Disk.ret Disk.raise].
  - destruct (Disk.check_loop (map fst l) d) as [[r0 d0] o0] eqn:L.
    destruct (disk_check_loop_spec _ _ _ _ _ L) as [-> [F Er]].
    cbn [app]. intro E. injection E as Hr Hd Ho; subst r d' out.
    split; [reflexivity|].
    split; [eauto|]. intros e X. right.
    destruct (Er e X) as [He [f [H1 [H2 H3]]]]. split; [exact He|].
    exists f. split; [apply filter_In; auto | exact H3].
  - intro E. injection E as Hr Hd Ho; subst r d' out.
    split; [reflexivity|].
    split; [exists []; split; [reflexivity | constructor]|].
    intros e X. inversion X. left. auto.
Qed.

End DiskReport.

(** X7.  With [--check] the program never runs the solver, whatever
    [--solve] says and whatever the outcome: no procedure but
    [check_solutions] is called, and nothing changes but, with
    [--clear], the [solution.txt] files, which are then all gone.
    It raises only [FileNotFoundError], without a [movies] folder, and
    [UnicodeDecodeError], at a folder with a file that does not
    decode. *)
Theorem main_check (a : args) (d d' : Disk.t) (r : result unit) (out : list event) :
  check a = true ->
  Disk.main a d = (r, d', out) ->
  (forall p, p <> P_check_solutions -> ~ In (Call p) out)
  /\ Disk.agree d d'
  /\ (clear a = false -> d' = d)
  /\ (clear a = true -> Disk.movies d <> None ->
      forall name, Disk.get_solution d' name = inr None)
  /\ (forall e, r = inl e ->
        (e = FileNotFoundError /\ Disk.movies d = None /\ d' = d)
        \/ (e = UnicodeDecodeError
            /\ exists file, In file (Disk.dirs d')
                            /\ Disk.unreadable d' file = true)).
Proof.
  intros C E. unfold Disk.main in E. rewrite C in E.
  assert (Rows : forall rows pre,
             Forall is_check_row rows ->
             (forall x, In x pre -> x = Printed (Text "solutions cleared.")) ->
             forall p, p <> P_check_solutions ->
               ~ In (Call p)
                   (pre ++ Call P_check_solutions
                        :: Printed (Text "check solutions:") :: rows)).
  { intros rows pre F Hpre p Np H. apply in_app_or in H.
    destruct H as [H|[H|[H|H]]].
    - apply Hpre in H. discriminate.
    - inversion H. congruence.
    - discriminate.
    - rewrite Forall_forall in F. apply F in H. exact H. }
  destruct (clear a) eqn:Cl.
  - destruct (clear_solutions_cases d) as [[Em X]|[Em [d1 [X [A S]]]]];
      unfold Disk.bind in E; rewrite X in E.
    + inversion E; subst. split; [intros p _ []|].
      split; [apply disk_agree_refl|]. split; [discriminate|].
      split; [intros _ N; contradiction|].
      intros e He. inversion He. left. auto.
    + destruct (Disk.check_solutions d1) as [[r1 d2] o2] eqn:K.
      destruct (disk_check_solutions_spec _ _ _ _ K) as [-> [[rows [-> F]] Er]].
      inversion E; subst. split.
      * apply (Rows rows [Printed (Text "solutions cleared.")]); [exact F|].
        intros x [<-|[]]. reflexivity.
      * split; [exact A|]. split; [discriminate|]. split.
        -- intros _ _ name. apply disk_solution_absent_none. apply S.
        -- intros e He. destruct (Er e He) as [[_ N]|R]; [|right; exact R].
           exfalso. destruct A as [L _]. unfold Disk.listdir in L.
           rewrite N in L. destruct (Disk.movies d); [discriminate|].
           contradiction.
  - unfold Disk.bind in E. cbn [Disk.ret] in E.
    destruct (Disk.check_solutions d) as [[r1 d2] o2] eqn:K.
    destruct (disk_check_solutions_spec _ _ _ _ K) as [-> [[rows [-> F]] Er]].
    inversion E; subst. split.
    + apply (Rows rows []); [exact F | intros x []].
    + split; [apply disk_agree_refl|]. split; [reflexivity|].
      split; [discriminate|].
      intros e He. destruct (Er e He) as [[-> N]|R]; [left; auto | right; exact R].
Qed.

Lemma main_check_witness :
  Disk.get_solution
    (snd (fst (Disk.main {| solve := true; check := true; clear := true |}
                 (to_disk registry_world)))) "00"
  = inr None.
Proof.
  destruct (Disk.main {| solve := true; check := true; clear := true |}
              (to_disk registry_world)) as [[r d'] out] eqn:E.
  destruct (main_check {| solve := true; check := true; clear := true |}
              _ _ _ _ eq_refl E) as [_ [_ [_ [G _]]]].
  apply G; [reflexivity | discriminate].
Defined.



(* ================================================================== *)
(** * Further properties: what the resolver finds                       *)
(* ================================================================== *)

Section Moves.
Import PyDict PyDictFacts.
Implicit Types (hashes solutions : dict) (title : string).

(** The loop for one title, with what it has passed over. *)
Lemma inner_loop_split title (items : list (Z * option string)) hashes solutions :
  ((forall k h, In (k, h) items -> check_hash h (Some title) = false)
   /\ inner_loop title items hashes solutions = (hashes, solutions, []))
  \/ exists pre i d post,
       items = pre ++ (i, d) :: post
       /\ (forall k h, In (k, h) pre -> check_hash h (Some title) = false)
       /\ check_hash d (Some title) = true
       /\ inner_loop title items hashes solutions
          = (del i hashes, set i (Some title) solutions,
             [Printed (Found i d title)]).
Proof.
  induction items as [|[k h] items IH]; cbn [inner_loop].
  - left. split; [intros ? ? []|reflexivity].
  - destruct (check_hash h (Some title)) eqn:C.
    + right. exists [], k, h, items. repeat split; auto. intros ? ? [].
    + destruct IH as [[N E]|[pre [i [d [post [E [N [Cd R]]]]]]]].
      * left. split; [|exact E]. intros k' h' [X|X]; [|eauto].
        inversion X; subst. exact C.
      * right. exists ((k, h) :: pre), i, d, post. subst items.
        repeat split; auto. intros k' h' [X|X]; [|eauto].
        inversion X; subst. exact C.
Qed.

(** Every index keeps its digest or moves to [solutions] with a title
    that matches it. *)
Lemma resolve_moves (ts : list string) :
  forall hashes solutions,
  wf hashes ->
  forall k,
    (get k hashes = None ->
     get k (fst (resolve ts hashes solutions)) = None
     /\ get k (snd (resolve ts hashes solutions)) = get k solutions)
    /\ (forall d, get k hashes = Some d ->
          (get k (fst (resolve ts hashes solutions)) = Some d
           /\ get k (snd (resolve ts hashes solutions)) = get k solutions)
          \/ (get k (fst (resolve ts hashes solutions)) = None
              /\ exists t, In t ts
                   /\ get k (snd (resolve ts hashes solutions)) = Some (Some t)
                   /\ check_hash d (Some t) = true)).
Proof.
  induction ts as [|t ts IH]; intros hashes solutions W k.
  - cbn [resolve fst snd]. split; [auto|]. intros d G. left. auto.
  - cbn [resolve]. unfold try_title.
    destruct (inner_loop_split t (items hashes) hashes solutions)
      as [[_ E]|[pre [i [d0 [post [Ei [_ [C E]]]]]]]]; rewrite E.
    + destruct (IH hashes solutions W k) as [I1 I2]. split; [exact I1|].
      intros d G. destruct (I2 d G) as [L|[Gn [t' [Ht R]]]]; [left; exact L|].
      right. split; [exact Gn|]. exists t'. simpl. auto.
    + assert (Gi : get i hashes = Some d0).
      { apply in_get; [exact W|]. unfold items in Ei. rewrite Ei.
        apply in_or_app. simpl. auto. }
      pose proof (wf_del i hashes W) as W'.
      destruct (IH (del i hashes) (set i (Some t) solutions) W' k) as [I1 I2].
      destruct (Z.eq_dec i k) as [->|N].
      * destruct (I1 (get_del_eq k hashes W)) as [A B].
        rewrite get_set_eq in B. split; [congruence|].
        intros d G. right. split; [exact A|]. exists t.
        split; [simpl; auto|]. split; [exact B|]. congruence.
      * rewrite (get_del_ne i k hashes N) in I1, I2.
        rewrite (get_set_ne i k (Some t) solutions N) in I1, I2.
        split; [exact I1|]. intros d G.
        destruct (I2 d G) as [L|[Gn [t' [Ht R]]]]; [left; exact L|].
        right. split; [exact Gn|]. exists t'. simpl. auto.
Qed.




End Moves.

Section Outcome.
Implicit Types (hashes solutions : dict).

(** How the loop over titles ends. *)
Lemma titles_loop_outcome (titles : list (option string)) :
  forall hashes solutions r d out,
  titles_loop titles hashes solutions = (r, d, out) ->
  exists ts rest,
    titles = map Some ts ++ rest
    /\ d = resolve ts hashes solutions
    /\ ((r = inr tt /\ rest = [])
        \/ (r = inl IndexError /\ exists rest', rest = None :: rest')).
Proof.
  induction titles as [|[t|] titles IH]; intros hashes solutions r d out E;
    simpl in E.
  - inversion E. exists [], []. auto.
  - destruct (try_title t hashes solutions) as [[h' s'] o1] eqn:T.
    destruct (titles_loop titles h' s') as [[r' d'] o2] eqn:L.
    inversion E; subst.
    destruct (IH _ _ _ _ _ L) as [ts [rest [Et [Ed O]]]].
    exists (t :: ts), rest. simpl. rewrite T. subst titles. auto.
  - inversion E. exists [], (None :: titles). split; [reflexivity|].
    split; [reflexivity|]. right. eauto.
Qed.

Lemma find_solutions_dataset (w : World) hashes solutions r d out :
  find_solutions w hashes solutions = (r, d, out) ->
  data_tsv w <> None ->
  exists out', titles_loop (dataset_titles w) hashes solutions = (r, d, out').
Proof.
  intros E N. unfold dataset_titles.
  destruct (data_tsv w) as [stored|] eqn:D; [|congruence].
  rewrite (find_solutions_titles w stored) in E by exact D.
  destruct (titles_loop _ hashes solutions) as [[r' d'] o].
  inversion E; subst. eauto.
Qed.

(** What is left of the dictionaries, whatever the outcome. *)
Lemma find_solutions_resolved (w : World) hashes solutions r d out :
  find_solutions w hashes solutions = (r, d, out) ->
  (r = inl FileNotFoundError /\ d = (hashes, solutions))
  \/ exists ts rest,
       dataset_titles w = map Some ts ++ rest
       /\ d = resolve ts hashes solutions
       /\ (r = inr tt -> rest = []).
Proof.
  intro E. destruct (data_tsv w) as [stored|] eqn:D.
  - right.
    destruct (find_solutions_dataset w _ _ _ _ _ E) as [out' L];
      [congruence|].
    destruct (titles_loop_outcome _ _ _ _ _ _ L)
      as [ts [rest [Et [Ed [[_ Er]|[Hr _]]]]]];
      exists ts, rest; (split; [exact Et|]); (split; [exact Ed|]).
    + intros _. exact Er.
    + intro X. rewrite X in Hr. discriminate.
  - left. unfold find_solutions in E. rewrite D in E. inversion E. auto.
Qed.

End Outcome.

Section DiskSearch.
Implicit Types (hashes solutions : dict).

(** On a [data.tsv] that decodes the search is that of the world with
    the same text. *)
Lemma find_solutions_decoded (d : Disk.t) (w : World) (stored : string)
      hashes solutions :
  Disk.data_tsv d = Some (Decodes stored) -> data_tsv w = Some stored ->
  Disk.find_solutions d hashes solutions = find_solutions w hashes solutions
  /\ Disk.dataset_titles d = dataset_titles w.
Proof.
  intros Hd Hw.
  unfold Disk.find_solutions, find_solutions, Disk.dataset_titles, dataset_titles.
  rewrite Hd, Hw. split; reflexivity.
Qed.

End DiskSearch.

(** X9.  How [find_solutions] ends.  Without [data.tsv] it raises
    [FileNotFoundError], and on a [data.tsv] that does not decode
    [UnicodeDecodeError]; in both cases the dictionaries are untouched
    and nothing is printed.  Otherwise it goes through the records in
    order; it returns normally when every one of them has a field at
    index 3, and raises [IndexError] at the first that has none, with
    the titles before it already resolved and the records behind it
    not read. *)
Theorem find_solutions_outcome (d : Disk.t) (hashes solutions : dict)
        (r : result unit) (ds : dict * dict) (out : list event) :
  Disk.find_solutions d hashes solutions = (r, ds, out) ->
  (Disk.data_tsv d = None /\ r = inl FileNotFoundError
   /\ ds = (hashes, solutions) /\ out = [Call P_find_solutions])
  \/ (Disk.data_tsv d = Some Undecodable /\ r = inl UnicodeDecodeError
      /\ ds = (hashes, solutions) /\ out = [Call P_find_solutions])
  \/ ((exists stored, Disk.data_tsv d = Some (Decodes stored))
      /\ exists ts rest,
           Disk.dataset_titles d = map Some ts ++ rest
           /\ ds = resolve ts hashes solutions
           /\ ((r = inr tt /\ rest = [])
               \/ (r = inl IndexError /\ exists rest', rest = None :: rest'))).
Proof.
  intro E. destruct (Disk.data_tsv d) as [[stored|]|] eqn:D.
  - right. right. split; [eauto|].
    destruct (find_solutions_decoded d
                {| movies := []; data_tsv := Some stored;
                   data_tsv_gz := None; remote := None |}
                stored hashes solutions D eq_refl) as [F T].
    rewrite F in E. rewrite T.
    destruct (find_solutions_dataset _ _ _ _ _ _ E) as [out' L];
      [discriminate|].
    exact (titles_loop_outcome _ _ _ _ _ _ L).
  - right. left. unfold Disk.find_solutions in E. rewrite D in E.
    cbn [Disk.read] in E. inversion E. auto.
  - left. unfold Disk.find_solutions in E. rewrite D in E. inversion E. auto.
Qed.

Lemma find_solutions_outcome_witness :
  exists ts rest,
    Disk.dataset_titles (to_disk (dataset_world [("00", pending_folder)]))
    = map Some ts ++ rest
    /\ rest = [].
Proof.
  destruct (Disk.find_solutions
              (to_disk (dataset_world [("00", pending_folder)]))
              [(0%Z, Some inception_digest)] []) as [[r ds] out] eqn:E.
  destruct (find_solutions_outcome _ _ _ _ _ _ E)
    as [[D _]|[[D _]|[_ [ts [rest [Et [_ [[_ Er]|[Hr _]]]]]]]]].
  - discriminate.
  - discriminate.
  - exists ts, rest. auto.
  - vm_compute in E. inversion E; subst. discriminate.
Defined.

(** X10.  [find_solutions] moves entries and never loses one: whatever
    its outcome, an index that was not pending is not pending after and
    keeps its answer, and an index that was pending with a digest is
    either still pending with that digest and its previous answer, or
    no longer pending and solved by a title of the dataset that
    [check_hash] accepts for that digest. *)
Theorem find_solutions_moves (w : World) (hashes solutions hashes' solutions' : dict)
        (r : result unit) (out : list event) :
  PyDict.wf hashes ->
  find_solutions w hashes solutions = (r, (hashes', solutions'), out) ->
  forall k,
    (PyDict.get k hashes = None ->
     PyDict.get k hashes' = None
     /\ PyDict.get k solutions' = PyDict.get k solutions)
    /\ (forall d, PyDict.get k hashes = Some d ->
          (PyDict.get k hashes' = Some d
           /\ PyDict.get k solutions' = PyDict.get k solutions)
          \/ (PyDict.get k hashes' = None
              /\ exists t, In (Some t) (dataset_titles w)
                   /\ PyDict.get k solutions' = Some (Some t)
                   /\ check_hash d (Some t) = true)).
Proof.
  intros W E k.
  destruct (find_solutions_resolved _ _ _ _ _ _ E)
    as [[_ Ed]|[ts [rest [Et [Ed _]]]]].
  - inversion Ed; subst. split; [auto|]. intros d G. left. auto.
  - destruct (resolve_moves ts hashes solutions W k) as [I1 I2].
    rewrite <- Ed in I1, I2. cbn [fst snd] in I1, I2.
    split; [exact I1|]. intros d G.
    destruct (I2 d G) as [L|[Gn [t [Ht R]]]]; [left; exact L|].
    right. split; [exact Gn|]. exists t. split; [|exact R].
    rewrite Et. apply in_or_app. left. apply in_map. exact Ht.
Qed.

Lemma find_solutions_moves_witness :
  exists t,
    In (Some t) (dataset_titles (dataset_world [("00", pending_folder)]))
    /\ check_hash (Some inception_digest) (Some t) = true.
Proof.
  destruct (find_solutions (dataset_world [("00", pending_folder)])
              [(0%Z, Some inception_digest)] []) as [[r [h' s']] out] eqn:E.
  assert (W : PyDict.wf [(0%Z, Some inception_digest)])
    by (repeat constructor; simpl; tauto).
  destruct (find_solutions_moves _ _ _ _ _ _ _ W E 0%Z) as [_ H].
  destruct (H (Some inception_digest) eq_refl) as [[G _]|[_ [t [Ht [_ C]]]]].
  - vm_compute in E. inversion E; subst. discriminate.
  - exists t. auto.
Defined.



(** X12.  A dataset of at most two lines yields no candidate: the
    first line and the last line are all there is, so [find_solutions]
    returns with the dictionaries as they were — also when the second
    line is a record and the file does not end in a blank line. *)
Theorem find_solutions_short (w : World) (stored : string) (hashes solutions : dict) :
  data_tsv w = Some stored ->
  List.length (PyStr.readlines (read_text stored)) <= 2 ->
  find_solutions w hashes solutions
  = (inr tt, (hashes, solutions),
     [Call P_find_solutions;
      Printed (Text "Start brute forcing movies riddles.");
      Printed (Total (List.length (PyStr.readlines (read_text stored))))]).
Proof.
  intros D L. rewrite (find_solutions_titles w stored) by exact D.
  unfold records.
  replace (List.length (PyStr.readlines (read_text stored)) - 2) with 0 by lia.
  reflexivity.
Qed.

Lemma find_solutions_short_witness :
  fst (find_solutions
         {| movies := []; data_tsv := Some ("header" ++ nl ++ record_of "tt1" "Inception")%string;
            data_tsv_gz := None; remote := None |}
         [(0%Z, Some inception_digest)] [])
  = (inr tt, ([(0%Z, Some inception_digest)], [])).
Proof.
  rewrite (find_solutions_short _ ("header" ++ nl ++ record_of "tt1" "Inception")%string);
    [reflexivity | reflexivity | vm_compute; lia].
Defined.

(* ================================================================== *)
(** * Further properties: the whole run                                 *)
(* ================================================================== *)

Section Stages.

Lemma bind_inv {A B : Type} (m : M A) (k : A -> M B) (w w' : World)
      (r : result B) (out : list event) :
  bind m k w = (r, w', out) ->
  (exists e o1, m w = (inl e, w', o1) /\ r = inl e /\ out = o1)
  \/ (exists a w1 o1 o2,
        m w = (inr a, w1, o1) /\ k a w1 = (r, w', o2) /\ out = o1 ++ o2).
Proof.
  unfold bind. destruct (m w) as [[[e|a] w1] o1].
  - intro H. inversion H; subst. left. eauto.
  - destruct (k a w1) as [[r2 w2] o2] eqn:K. intro H. inversion H; subst.
    right. exists a, w1, o1, o2. auto.
Qed.

Lemma bind_emit_inv {B : Type} (e : event) (k : unit -> M B) (w w' : World)
      (r : result B) (out : list event) :
  bind (emit e) k w = (r, w', out) ->
  exists o2, k tt w = (r, w', o2) /\ out = e :: o2.
Proof.
  intro H. apply bind_inv in H.
  destruct H as [[x [o1 [Hm _]]]|[a [w1 [o1 [o2 [Hm [Hk Ho]]]]]]];
    unfold emit in Hm; inversion Hm; subst.
  eauto.
Qed.

Lemma print_hashes_spec (items : list (Z * option string)) (w : World) :
  print_hashes items w
  = (inr tt, w, map (fun kh => Printed (HashRow (fst kh) (snd kh))) items).
Proof.
  induction items as [|[k h] items IH]; [reflexivity|].
  cbn [print_hashes]. unfold bind, print, emit. rewrite IH. reflexivity.
Qed.

(** The stages of [execute_riddle_solver], whatever its outcome. *)
Lemma execute_stages (w w' : World) (r : result unit) (out : list event) :
  execute_riddle_solver w = (r, w', out) ->
  (exists e, scan w = inl e /\ r = inl e /\ w' = w)
  \/ exists hashes solutions,
       scan w = inr (hashes, solutions)
       /\ ((PyDict.len hashes = 0 /\ r = inr tt /\ w' = w)
           \/ (PyDict.len hashes <> 0
               /\ exists r1 w1 o1,
                    download_data w = (r1, w1, o1)
                    /\ ((exists e, r1 = inl e /\ r = inl e /\ w' = w1)
                        \/ (r1 = inr tt
                            /\ exists r2 d2 o2,
                                 find_solutions w1 hashes solutions = (r2, d2, o2)
                                 /\ ((exists e, r2 = inl e /\ r = inl e /\ w' = w1)
                                     \/ (r2 = inr tt
                                         /\ exists o3,
                                              write_solutions (snd d2) w1
                                              = (r, w', o3))))))).
Proof.
  unfold execute_riddle_solver. intro H.
  apply bind_emit_inv in H. destruct H as [o [H _]].
  apply bind_inv in H.
  destruct H as [[e [o1 [Hm [Hr _]]]]|[[h s] [w1 [o1 [o2 [Hm [H _]]]]]]].
  - left. exists e. unfold get_hashes_and_solutions, bind, call, emit, ask in Hm.
    destruct (scan w) as [e'|p]; unfold raise, ret in Hm; inversion Hm; subst.
    auto.
  - right. exists h, s.
    unfold get_hashes_and_solutions, bind, call, emit, ask in Hm.
    destruct (scan w) as [e'|p]; unfold raise, ret in Hm; inversion Hm; subst.
    split; [reflexivity|]. cbn [fst snd] in H.
    destruct (Nat.eqb_spec (PyDict.len h) 0) as [L|L].
    + left. apply bind_emit_inv in H. destruct H as [o3 [H _]].
      rewrite check_solutions_run in H. inversion H; subst. auto.
    + right. split; [exact L|].
      apply bind_inv in H.
      destruct H as [[e [od [Hd [Hr _]]]]|[[] [wd [od [o4 [Hd [H _]]]]]]].
      * exists (inl e), w', od. split; [exact Hd|]. left. eauto.
      * exists (inr tt), wd, od. split; [exact Hd|]. right.
        split; [reflexivity|].
        apply bind_emit_inv in H. destruct H as [o5 [H _]].
        apply bind_inv in H.
        destruct H as [[e [o6 [Hp _]]]|[[] [wp [o6 [o7 [Hp [H _]]]]]]];
          rewrite print_hashes_spec in Hp; inversion Hp; subst.
        apply bind_emit_inv in H. destruct H as [o8 [H _]].
        apply bind_inv in H.
        destruct H as [[e [o9 [Hf [Hr _]]]]|[d2 [wq [o9 [o10 [Hf [H _]]]]]]];
          unfold find_solutions_proc in Hf;
          destruct (find_solutions wp h s) as [[[e2|[]] d] ofs] eqn:F;
          inversion Hf; subst; do 3 eexists; (split; [reflexivity|]).
        -- left. eauto.
        -- right. split; [reflexivity|].
           do 7 (apply bind_emit_inv in H; destruct H as [? [H _]]).
           eauto.
Qed.

Lemma same_folders_refl (w : World) : same_folders w w.
Proof. repeat split. Qed.

Lemma same_folders_trans (w1 w2 w3 : World) :
  same_folders w1 w2 -> same_folders w2 w3 -> same_folders w1 w3.
Proof.
  intros [A1 [A2 [A3 A4]]] [B1 [B2 [B3 B4]]]. repeat split; congruence.
Qed.

Lemma agree_same_folders (w w' : World) : agree w w' -> same_folders w w'.
Proof. intros [A1 [_ [_ [A4 [A5 A6]]]]]. repeat split; assumption. Qed.

(** [download_data] writes the two data files and nothing else. *)
Lemma download_data_frame (w w' : World) (r : result unit) (out : list event) :
  download_data w = (r, w', out) -> movies w' = movies w /\ remote w' = remote w.
Proof.
  intro H.
  destruct w as [m [t|] [[g|]|] [[rm|]|]]; cbv in H; inversion H; subst;
    split; reflexivity.
Qed.

Lemma movies_same_folders (w w' : World) :
  movies w' = movies w -> remote w' = remote w -> same_folders w w'.
Proof.
  intros Em Er. unfold same_folders, listdir, isdir, get_hash, riddle_at.
  rewrite Em. auto.
Qed.

(** [write_solutions] keeps everything but [solution.txt] files, for
    any dictionary and whatever its outcome. *)
Lemma write_loop_agree (items : list (Z * option string)) :
  forall w r w' out, write_loop items w = (r, w', out) -> agree w w'.
Proof.
  induction items as [|[k sol] rest IH]; intros w r w' out L.
  - inversion L. apply agree_refl.
  - cbn [write_loop] in L. apply bind_inv in L.
    destruct (write_solution_txt_spec (get_movie_dir k) "" w)
      as [[d [_ [wa [E1 [R1 [_ A1]]]]]]|[_ [e E1]]];
      rewrite E1 in L.
    + destruct L as [[x [o [X _]]]|[a [wb [oa [ob [X [L _]]]]]]];
        inversion X; subst.
      destruct sol as [s0|].
      * apply bind_inv in L.
        destruct (write_solution_txt_spec (get_movie_dir k) (PyStr.strip s0) wb)
          as [[d1 [_ [wc [E2 [_ [_ A2]]]]]]|[Hn _]]; [|congruence].
        rewrite E2 in L.
        destruct L as [[x [o [X' _]]]|[a' [wd [oc [od [X' [L _]]]]]]];
          inversion X'; subst.
        eapply agree_trans; [exact A1|].
        eapply agree_trans; [exact A2|]. eapply IH. exact L.
      * unfold raise in L. inversion L; subst. exact A1.
    + destruct L as [[x [o [X _]]]|[a [wb [oa [ob [X _]]]]]];
        inversion X; subst. apply agree_refl.
Qed.

Lemma write_solutions_agree (solutions : dict) (w w' : World)
      (r : result unit) (out : list event) :
  write_solutions solutions w = (r, w', out) -> agree w w'.
Proof.
  unfold write_solutions. intro H.
  do 2 (apply bind_emit_inv in H; destruct H as [? [H _]]).
  apply bind_inv in H.
  destruct H as [[e [o1 [L _]]]|[a [w1 [o1 [o2 [L [H _]]]]]]].
  - eapply write_loop_agree. exact L.
  - unfold print, emit in H. inversion H; subst.
    eapply write_loop_agree. exact L.
Qed.

End Stages.

(** X13.  Whatever its outcome, a [--solve] run leaves the riddle
    folders in place: the listing of [movies], which names are
    folders, and every [verify.py] are as before.  Only [solution.txt]
    files and the two data files can change. *)
Theorem execute_keeps_folders (w w' : World) (r : result unit) (out : list event) :
  execute_riddle_solver w = (r, w', out) -> same_folders w w'.
Proof.
  intro H. apply execute_stages in H.
  destruct H as [[e [_ [_ ->]]]|[h [s [_ [[_ [_ ->]]|[_ [r1 [w1 [o1 [D H]]]]]]]]]];
    try apply same_folders_refl.
  destruct (download_data_frame _ _ _ _ D) as [Em Er].
  pose proof (movies_same_folders w w1 Em Er) as S1.
  destruct H as [[e [_ [_ ->]]]|[_ [r2 [d2 [o2 [_ [[e [_ [_ ->]]]|[_ [o3 Wr]]]]]]]]];
    try exact S1.
  eapply same_folders_trans; [exact S1|]. apply agree_same_folders.
  eapply write_solutions_agree. exact Wr.
Qed.

Lemma execute_keeps_folders_witness :
  same_folders
    (dataset_world [("00", pending_folder)])
    (snd (fst (execute_riddle_solver (dataset_world [("00", pending_folder)])))).
Proof.
  destruct (execute_riddle_solver (dataset_world [("00", pending_folder)]))
    as [[r w'] out] eqn:E.
  exact (execute_keeps_folders _ _ _ _ E).
Defined.

(* ================================================================== *)
(** * Further properties: what a run leaves on disk                     *)
(* ================================================================== *)

Section Soundness.
Import PyDict PyDictFacts.

(** Lines and fields of a text without carriage return have none. *)
Lemma readlines_no_cr (s : string) :
  no_cr s = true -> forall l, In l (PyStr.readlines s) -> no_cr l = true.
Proof.
  induction s as [|c s IH]; [intros _ l []|].
  cbn [no_cr PyStr.readlines]. intro H.
  apply andb_true_iff in H. destruct H as [Hc Hs]. specialize (IH Hs).
  destruct (Ascii.eqb c PyStr.newline).
  - intros l [<-|Hl]; [cbn [no_cr]; rewrite Hc; reflexivity | apply IH; exact Hl].
  - destruct (PyStr.readlines s) as [|l0 ls].
    + intros l [<-|[]]. cbn [no_cr]. rewrite Hc. reflexivity.
    + intros l [<-|Hl].
      * cbn [no_cr]. rewrite Hc. apply IH. left. reflexivity.
      * apply IH. right. exact Hl.
Qed.

Lemma split_no_cr (sep : ascii) (s : string) :
  no_cr s = true -> forall f, In f (PyStr.split sep s) -> no_cr f = true.
Proof.
  induction s as [|c s IH]; [intros _ f [<-|[]]; reflexivity|].
  cbn [no_cr PyStr.split]. intro H.
  apply andb_true_iff in H. destruct H as [Hc Hs]. specialize (IH Hs).
  destruct (Ascii.eqb c sep).
  - intros f [<-|Hf]; [reflexivity | apply IH; exact Hf].
  - destruct (PyStr.split sep s) as [|f0 fs].
    + intros f [<-|[]]. cbn [no_cr]. rewrite Hc. reflexivity.
    + intros f [<-|Hf].
      * cbn [no_cr]. rewrite Hc. apply IH. left. reflexivity.
      * apply IH. right. exact Hf.
Qed.

Lemma in_records (lines : list string) (line : string) :
  In line (records lines) -> In line lines.
Proof.
  unfold records. intro H. rewrite <- (firstn_skipn 1 lines).
  apply in_or_app. right.
  rewrite <- (firstn_skipn (List.length lines - 2) (skipn 1 lines)).
  apply in_or_app. left. exact H.
Qed.

(** A title read from the dataset holds no carriage return. *)
Lemma title_no_cr (w : World) (t : string) :
  In (Some t) (dataset_titles w) -> no_cr t = true.
Proof.
  unfold dataset_titles. destruct (data_tsv w) as [stored|]; [|intros []].
  intro H. apply in_map_iff in H. destruct H as [line [T Hl]].
  apply in_records in Hl.
  unfold title_of in T. apply nth_error_In in T.
  apply (split_no_cr PyStr.tab line); [|exact T].
  apply (readlines_no_cr (read_text stored)); [|exact Hl].
  apply read_text_has_no_cr.
Qed.

Lemma resolve_wf_solutions (ts : list string) :
  forall hashes solutions : dict,
  wf solutions -> wf (snd (resolve ts hashes solutions)).
Proof.
  induction ts as [|t ts IH]; intros hashes solutions W; [exact W|].
  cbn [resolve]. unfold try_title.
  destruct (inner_loop_cases t (items hashes) hashes solutions)
    as [U|[i [d [_ [_ U]]]]]; rewrite U; apply IH; [exact W|].
  apply wf_set. exact W.
Qed.

(** A scan that has ended files the folders of a canonical listing
    under distinct indices. *)
Lemma canonical_indices (w : World) :
  canonical w ->
  (forall file, In file (dirs w) -> exists k, PyInt.int file = Some k) ->
  NoDup (map PyInt.int (dirs w)).
Proof.
  intros [Nd Can] Names. apply NoDup_map_NoDup_ForallPairs; [|exact Nd].
  intros x y Hx Hy Exy. destruct (Names x Hx) as [k Hk].
  rewrite (Can x k Hx Hk). symmetry. apply Can; [exact Hy|]. congruence.
Qed.

(** What [get_solution] reads from a file [write_solutions] wrote. *)
Lemma get_solution_written (w : World) (name a : string) (d : riddle_dir) :
  riddle_at w name = Some d -> solution_txt d = Some (PyStr.strip a) ->
  no_cr a = true ->
  get_solution w name
  = if String.eqb (PyStr.strip a) "" then None else Some (PyStr.strip a).
Proof.
  intros R S C. unfold get_solution. rewrite R, S.
  rewrite (read_text_no_cr (PyStr.strip a))
    by (apply strip_with_no_cr; exact C).
  rewrite strip_idem. destruct (String.eqb (PyStr.strip a) ""); reflexivity.
Qed.

(** An answer [get_solution] has returned is read back when it is
    written again. *)
Lemma get_solution_rewritten (w w' : World) (dir name s : string) (d : riddle_dir) :
  get_solution w dir = Some s ->
  riddle_at w' name = Some d -> solution_txt d = Some (PyStr.strip s) ->
  get_solution w' name = Some s.
Proof.
  intros G R S.
  assert (N : s <> "" /\ PyStr.strip s = s /\ no_cr s = true).
  { unfold get_solution in G.
    destruct (riddle_at w dir) as [d0|]; [|discriminate].
    destruct (solution_txt d0) as [txt|]; [|discriminate].
    cbv zeta in G.
    destruct (String.eqb_spec (PyStr.strip (read_text txt)) "") as [|N];
      [discriminate|].
    cbn [negb] in G. inversion G; subst s. split; [exact N|].
    split; [apply strip_idem|].
    apply strip_with_no_cr. apply read_text_has_no_cr. }
  destruct N as [N [St C]].
  rewrite (get_solution_written w' name s d R S C), St.
  destruct (String.eqb_spec s ""); [contradiction | reflexivity].
Qed.

End Soundness.

(** X14.  What a [--solve] run that ends normally leaves on disk, when
    every folder bears the name of its index and is listed once.  A
    riddle that was solved is still solved, with the same answer.  A
    riddle that was not is now solved, or its [solution.txt] reads as
    before, or its digest is that of the empty string and a blank
    title has emptied its [solution.txt]. *)
Theorem solve_sound (w w' : World) (out : list event) :
  canonical w ->
  execute_riddle_solver w = (inr tt, w', out) ->
  forall file, In file (dirs w) ->
    (check_riddle w file = true ->
     check_riddle w' file = true
     /\ get_solution w' file = get_solution w file)
    /\ (check_riddle w file = false ->
        check_riddle w' file = true
        \/ get_solution w' file = get_solution w file
        \/ (get_hash w file = Some (sha1_hex "")
            /\ get_solution w' file = None)).
Proof.
  intros Can E file Hf.
  destruct (execute_stages _ _ _ _ E) as [[e [_ [X _]]]|[h [s [Sc St]]]];
    [discriminate|].
  destruct St as [[_ [_ ->]]|[_ [r1 [w1 [o1 [D St]]]]]]; [split; auto|].
  destruct St as [[e [_ [X _]]]|[-> [r2 [[h' s'] [o2 [F St]]]]]];
    [discriminate|].
  destruct St as [[e [_ [X _]]]|[-> [o3 Wr]]]; [discriminate|].
  cbn [snd] in Wr.
  destruct (download_data_frame _ _ _ _ D) as [Em _].
  (* the scan *)
  assert (Names : forall f, In f (listdir w) -> isdir w f = true ->
                            exists k, PyInt.int f = Some k)
    by exact (scan_loop_names w _ _ _ _ Sc).
  assert (Nk : NoDup (map PyInt.int (dirs w))).
  { apply canonical_indices; [exact Can|]. intros f H.
    apply filter_In in H. destruct H. auto. }
  destruct (scan_disjoint w h s Nk Sc) as [Wh [Ws Dj]].
  destruct (scan_loop_spec w (listdir w) PyDict.empty PyDict.empty Names Nk
              PyDictFacts.wf_empty PyDictFacts.wf_empty)
    as [h0 [s0 [Sc' [_ [_ [_ B]]]]]].
  unfold scan in Sc. rewrite Sc in Sc'. inversion Sc'; subst h0 s0. clear Sc'.
  pose proof Hf as Hf'. apply filter_In in Hf'. destruct Hf' as [Hl Hd].
  destruct (Names file Hl Hd) as [k Hk].
  destruct Can as [Nd Can]. pose proof (Can file k Hf Hk) as Ef.
  (* the resolver *)
  destruct (find_solutions_resolved _ _ _ _ _ _ F)
    as [[X _]|[ts [rest [Et [Ed Er]]]]]; [discriminate|].
  rewrite (Er eq_refl), app_nil_r in Et.
  pose proof (resolve_moves ts h s Wh k) as [M1 M2].
  pose proof (resolve_wf_solutions ts h s Ws) as Ws'.
  rewrite <- Ed in M1, M2, Ws'. cbn [fst snd] in M1, M2, Ws'.
  (* the writes *)
  unfold write_solutions in Wr.
  do 2 (apply bind_emit_inv in Wr; destruct Wr as [? [Wr _]]).
  apply bind_inv in Wr.
  destruct Wr as [[e [o4 [_ [X _]]]]|[[] [w2 [o4 [o5 [L [P _]]]]]]];
    [discriminate|].
  unfold print, emit in P. inversion P; subst w2. clear P.
  destruct (write_loop_spec _ _ _ _ _ Ws' L) as [_ [Ag [Fr [Rt _]]]].
  specialize (Rt eq_refl).
  assert (Hh : get_hash w' file = get_hash w file).
  { destruct Ag as [_ [_ [_ [_ [_ Ag]]]]]. rewrite Ag.
    unfold get_hash, riddle_at. rewrite Em. reflexivity. }
  assert (Gw1 : get_solution w1 file = get_solution w file)
    by (unfold get_solution, riddle_at; rewrite Em; reflexivity).
  destruct (B file k Hl Hd Hk) as [[C [Gs Gh]]|[C [Gh Gs]]]; rewrite C.
  - (* solved before *)
    split; [intros _|discriminate].
    cbn [PyDict.get PyDict.empty] in Gh. destruct (M1 Gh) as [_ G'].
    rewrite Gs in G'.
    unfold check_riddle in C.
    destruct (get_solution w file) as [a|] eqn:Ga;
      [|rewrite check_hash_none_solution in C; discriminate].
    destruct (Rt k a (PyDictFacts.get_in _ _ _ G')) as [d [Rd Sd]].
    rewrite <- Ef in Rd.
    assert (G : get_solution w' file = Some a)
      by exact (get_solution_rewritten w w' file file a d Ga Rd Sd).
    split; [|exact G]. unfold check_riddle. rewrite G, Hh. exact C.
  - (* pending before *)
    split; [discriminate|intros _].
    destruct (M2 _ Gh) as [[_ G']|[_ [t [Ht [G' Ct]]]]].
    + (* still pending *)
      right. left. rewrite <- Gw1. unfold get_solution, riddle_at.
      rewrite Fr; [reflexivity|].
      intros k' v Hin Eq. rewrite Ef in Eq. apply get_movie_dir_inj in Eq.
      subst k'. unfold PyDict.items in Hin.
      apply (PyDictFacts.in_get _ _ _ Ws') in Hin.
      cbn [PyDict.get PyDict.empty] in Gs. congruence.
    + (* solved by a title of the dataset *)
      destruct (Rt k t (PyDictFacts.get_in _ _ _ G')) as [d [Rd Sd]].
      rewrite <- Ef in Rd.
      assert (Ct' : no_cr t = true).
      { apply (title_no_cr w1). rewrite Et. apply in_map. exact Ht. }
      pose proof (get_solution_written w' file t d Rd Sd Ct') as G.
      apply check_hash_true in Ct. destruct Ct as [_ Eh].
      destruct (String.eqb_spec (PyStr.strip t) "") as [Eb|Nb].
      * right. right. split; [|exact G].
        rewrite Eh. unfold normalize. rewrite Eb. reflexivity.
      * left. unfold check_riddle. rewrite G, Hh. apply check_hash_true.
        split; [exact Nb|]. rewrite Eh. unfold normalize.
        rewrite strip_idem. reflexivity.
Qed.

Lemma solve_sound_witness :
  check_riddle (snd (fst (execute_riddle_solver remote_world))) "00" = true
  \/ get_solution (snd (fst (execute_riddle_solver remote_world))) "00"
     = get_solution remote_world "00"
  \/ (get_hash remote_world "00" = Some (sha1_hex "")
      /\ get_solution (snd (fst (execute_riddle_solver remote_world))) "00" = None).
Proof.
  assert (R : fst (fst (execute_riddle_solver remote_world)) = inr tt)
    by (vm_compute; reflexivity).
  destruct (execute_riddle_solver remote_world) as [[r w'] out] eqn:E.
  cbn [fst snd] in *. subst r.
  assert (C : canonical remote_world).
  { split.
    - change (dirs remote_world) with ["00"]. repeat constructor; simpl; tauto.
    - intros file k H Hk. change (dirs remote_world) with ["00"] in H.
      destruct H as [<-|[]]. vm_compute in Hk. inversion Hk. reflexivity. }
  destruct (solve_sound _ _ _ C E "00") as [_ H].
  - left. reflexivity.
  - apply H. vm_compute. reflexivity.
Defined.

(* ================================================================== *)
(** * Further properties: what the resolver leaves to write             *)
(* ================================================================== *)

Section Failures.


End Failures.

(* ================================================================== *)
(** * Further properties: how a run fails, on the disk                  *)
(* ================================================================== *)

Section DiskTexts.
Variable d : Disk.t.











End DiskTexts.

Section DiskStages.








End DiskStages.



(* ================================================================== *)
(** * A world is a disk in good order                                   *)
(* ================================================================== *)

(** On the disk of a world, which has its [movies] folder, text in
    every file and archives that [gzip] reads or refuses, every
    procedure over disks does what the procedure over worlds does:
    the same outcome, the same output, the same files. *)
Section DiskOfWorld.

Lemma agrees_ret {A : Type} (a : A) : agrees (Disk.ret a) (ret a).
Proof. intro w. reflexivity. Qed.

Lemma agrees_raise {A : Type} (e : exn) : agrees (@Disk.raise A e) (raise e).
Proof. intro w. reflexivity. Qed.

Lemma agrees_emit (e : event) : agrees (Disk.emit e) (emit e).
Proof. intro w. reflexivity. Qed.

Lemma agrees_bind {A B : Type} (m : Disk.M A) (m' : M A)
      (k : A -> Disk.M B) (k' : A -> M B) :
  agrees m m' -> (forall a, agrees (k a) (k' a)) ->
  agrees (Disk.bind m k) (bind m' k').
Proof.
  intros Hm Hk w. unfold Disk.bind, bind. rewrite Hm.
  destruct (m' w) as [[[e|a] w1] o1]; cbn [on_disk]; [reflexivity|].
  rewrite Hk. destruct (k' a w1) as [[r w2] o2]. reflexivity.
Qed.

Lemma agrees_ask {B : Type} (k : Disk.t -> Disk.M B) (k' : World -> M B) :
  (forall w, k (to_disk w) (to_disk w) = on_disk (k' w w)) ->
  agrees (Disk.bind Disk.ask k) (bind ask k').
Proof.
  intros H w. unfold Disk.bind, bind, Disk.ask, ask. rewrite H.
  destruct (k' w w) as [[r w2] o2]. reflexivity.
Qed.

Lemma to_disk_lookup (name : string) (l : list (string * node)) :
  Disk.lookup name (map to_disk_entry l) = option_map to_disk_node (lookup name l).
Proof.
  induction l as [|[n x] l IH]; simpl; [reflexivity|].
  destruct (String.eqb name n); [reflexivity | exact IH].
Qed.

Lemma to_disk_update (name : string) (x : node) (l : list (string * node)) :
  Disk.update name (to_disk_node x) (map to_disk_entry l)
  = map to_disk_entry (update name x l).
Proof.
  induction l as [|[n y] l IH]; simpl; [reflexivity|].
  destruct (String.eqb name n); simpl; [reflexivity|].
  rewrite IH. reflexivity.
Qed.

Lemma to_disk_riddle_at (w : World) (name : string) :
  Disk.riddle_at (to_disk w) name = option_map to_disk_dir (riddle_at w name).
Proof.
  unfold Disk.riddle_at, Disk.entry, riddle_at. cbn [to_disk Disk.movies].
  rewrite to_disk_lookup. destruct (lookup name (movies w)) as [[|r]|]; reflexivity.
Qed.

Lemma to_disk_isdir (w : World) (name : string) :
  Disk.isdir (to_disk w) name = isdir w name.
Proof.
  unfold Disk.isdir, isdir. rewrite to_disk_riddle_at.
  destruct (riddle_at w name); reflexivity.
Qed.

Lemma to_disk_listdir (w : World) : Disk.listdir (to_disk w) = inr (listdir w).
Proof.
  unfold Disk.listdir, listdir. cbn [to_disk Disk.movies].
  rewrite map_map. reflexivity.
Qed.

Lemma to_disk_get_hash (w : World) (name : string) :
  Disk.get_hash (to_disk w) name = inr (get_hash w name).
Proof.
  unfold Disk.get_hash, get_hash. rewrite to_disk_riddle_at.
  destruct (riddle_at w name) as [r|]; [|reflexivity].
  cbn [option_map to_disk_dir Disk.verify_py].
  destruct (verify_py r); reflexivity.
Qed.

Lemma to_disk_get_solution (w : World) (name : string) :
  Disk.get_solution (to_disk w) name = inr (get_solution w name).
Proof.
  unfold Disk.get_solution, get_solution. rewrite to_disk_riddle_at.
  destruct (riddle_at w name) as [r|]; [|reflexivity].
  cbn [option_map to_disk_dir Disk.solution_txt].
  destruct (solution_txt r); reflexivity.
Qed.

Lemma to_disk_check_riddle (w : World) (name : string) :
  Disk.check_riddle (to_disk w) name = inr (check_riddle w name).
Proof.
  unfold Disk.check_riddle, check_riddle.
  rewrite to_disk_get_hash, to_disk_get_solution. reflexivity.
Qed.

Lemma to_disk_solution_exists (w : World) (name : string) :
  Disk.solution_exists (to_disk w) name = solution_exists w name.
Proof.
  unfold Disk.solution_exists, solution_exists. rewrite to_disk_riddle_at.
  destruct (riddle_at w name) as [r|]; [|reflexivity].
  cbn [option_map to_disk_dir Disk.solution_txt].
  destruct (solution_txt r); reflexivity.
Qed.

Lemma to_disk_scan_loop (w : World) (files : list string) :
  forall hashes solutions : dict,
  Disk.scan_loop (to_disk w) files hashes solutions
  = scan_loop w files hashes solutions.
Proof.
  induction files as [|f fs IH]; intros h s0; [reflexivity|].
  cbn [Disk.scan_loop scan_loop].
  rewrite to_disk_isdir, to_disk_check_riddle, to_disk_get_solution,
    to_disk_get_hash.
  destruct (isdir w f); [|apply IH].
  destruct (check_riddle w f); destruct (PyInt.int f); try reflexivity; apply IH.
Qed.

Lemma to_disk_scan (w : World) : Disk.scan (to_disk w) = scan w.
Proof.
  unfold Disk.scan, scan. rewrite to_disk_listdir. apply to_disk_scan_loop.
Qed.

Lemma to_disk_find_solutions (w : World) (hashes solutions : dict) :
  Disk.find_solutions (to_disk w) hashes solutions
  = find_solutions w hashes solutions.
Proof.
  unfold Disk.find_solutions, find_solutions. cbn [to_disk Disk.data_tsv].
  destruct (data_tsv w); reflexivity.
Qed.

Lemma agrees_get_hashes_and_solutions :
  agrees Disk.get_hashes_and_solutions get_hashes_and_solutions.
Proof.
  unfold Disk.get_hashes_and_solutions, get_hashes_and_solutions.
  apply agrees_bind; [apply agrees_emit|]. intros _.
  apply agrees_ask. intro w. rewrite to_disk_scan.
  destruct (scan w); reflexivity.
Qed.

Lemma agrees_find_solutions_proc (hashes solutions : dict) :
  agrees (Disk.find_solutions_proc hashes solutions)
         (find_solutions_proc hashes solutions).
Proof.
  intro w. unfold Disk.find_solutions_proc, find_solutions_proc.
  rewrite to_disk_find_solutions.
  destruct (find_solutions w hashes solutions) as [[[e|u] ds] o]; reflexivity.
Qed.

Lemma agrees_write_solution_txt (dir content : string) :
  agrees (Disk.write_solution_txt dir content) (write_solution_txt dir content).
Proof.
  intro w. unfold Disk.write_solution_txt, Disk.set_solution_txt, write_solution_txt.
  cbn [to_disk Disk.movies]. rewrite to_disk_lookup.
  destruct (lookup dir (movies w)) as [[|r]|]; cbn [option_map to_disk_node on_disk];
    try reflexivity.
  f_equal. f_equal. unfold Disk.with_movies, to_disk, with_movies.
  cbn [Disk.data_tsv Disk.data_tsv_gz Disk.remote movies data_tsv data_tsv_gz remote].
  f_equal. f_equal.
  rewrite <- to_disk_update. reflexivity.
Qed.

Lemma agrees_remove_solution_txt (dir : string) :
  agrees (Disk.remove_solution_txt dir) (remove_solution_txt dir).
Proof.
  intro w. unfold Disk.remove_solution_txt, remove_solution_txt.
  rewrite to_disk_riddle_at. unfold riddle_at.
  unfold Disk.set_solution_txt. cbn [to_disk Disk.movies]. rewrite to_disk_lookup.
  destruct (lookup dir (movies w)) as [[|r]|]; cbn [option_map to_disk_node on_disk];
    try reflexivity.
  cbn [to_disk_dir Disk.solution_txt].
  destruct (solution_txt r); [|reflexivity].
  cbn [option_map on_disk].
  f_equal. f_equal. unfold Disk.with_movies, to_disk, with_movies.
  cbn [Disk.data_tsv Disk.data_tsv_gz Disk.remote movies data_tsv data_tsv_gz remote].
  f_equal. f_equal.
  rewrite <- to_disk_update. reflexivity.
Qed.

Lemma agrees_write_loop (items : list (Z * option string)) :
  agrees (Disk.write_loop items) (write_loop items).
Proof.
  induction items as [|[k sol] rest IH]; [apply agrees_ret|].
  cbn [Disk.write_loop write_loop].
  apply agrees_bind; [apply agrees_write_solution_txt|]. intros _.
  destruct sol as [s0|]; [|apply agrees_raise].
  apply agrees_bind; [apply agrees_write_solution_txt|]. intros _. exact IH.
Qed.

Lemma agrees_write_solutions (solutions : dict) :
  agrees (Disk.write_solutions solutions) (write_solutions solutions).
Proof.
  unfold Disk.write_solutions, write_solutions.
  apply agrees_bind; [apply agrees_emit|]. intros _.
  apply agrees_bind; [apply agrees_emit|]. intros _.
  apply agrees_bind; [apply agrees_write_loop|]. intros _.
  apply agrees_emit.
Qed.

Lemma agrees_check_loop (files : list string) :
  agrees (Disk.check_loop files) (check_loop files).
Proof.
  induction files as [|f fs IH]; [apply agrees_ret|].
  cbn [Disk.check_loop check_loop].
  apply agrees_ask. intro w.
  rewrite to_disk_isdir, to_disk_get_solution, to_disk_get_hash.
  assert (Step : agrees
            (if isdir w f
             then Disk.bind (Disk.eval (inr (get_solution w f)))
                    (fun solution =>
                       Disk.bind (Disk.eval (inr (get_hash w f)))
                         (fun hash =>
                            Disk.print (CheckRow f hash solution
                                          (check_hash hash solution))))
             else Disk.ret tt)
            (if isdir w f
             then print (CheckRow f (get_hash w f) (get_solution w f)
                           (check_hash (get_hash w f) (get_solution w f)))
             else ret tt)).
  { destruct (isdir w f); [|apply agrees_ret]. intro w0. reflexivity. }
  exact (agrees_bind _ _ _ _ Step (fun _ => IH) w).
Qed.

Lemma agrees_check_solutions : agrees Disk.check_solutions check_solutions.
Proof.
  unfold Disk.check_solutions, check_solutions.
  apply agrees_bind; [apply agrees_emit|]. intros _.
  apply agrees_bind; [apply agrees_emit|]. intros _.
  apply agrees_ask. intro w. rewrite to_disk_listdir.
  unfold Disk.bind, Disk.eval, Disk.ret. rewrite agrees_check_loop.
  destruct (check_loop (listdir w) w) as [[r w1] o]. reflexivity.
Qed.

Lemma agrees_clear_loop (files : list string) :
  agrees (Disk.clear_loop files) (clear_loop files).
Proof.
  induction files as [|f fs IH]; [apply agrees_ret|].
  cbn [Disk.clear_loop clear_loop].
  apply agrees_ask. intro w.
  rewrite to_disk_isdir, to_disk_solution_exists.
  assert (Step : agrees
            (if isdir w f
             then if solution_exists w f
                  then Disk.remove_solution_txt f else Disk.ret tt
             else Disk.ret tt)
            (if isdir w f
             then if solution_exists w f
                  then remove_solution_txt f else ret tt
             else ret tt)).
  { destruct (isdir w f); [|apply agrees_ret].
    destruct (solution_exists w f);
      [apply agrees_remove_solution_txt | apply agrees_ret]. }
  exact (agrees_bind _ _ _ _ Step (fun _ => IH) w).
Qed.

Lemma agrees_clear_solutions : agrees Disk.clear_solutions clear_solutions.
Proof.
  unfold Disk.clear_solutions, clear_solutions.
  apply agrees_ask. intro w. rewrite to_disk_listdir.
  unfold Disk.bind at 1. unfold Disk.eval, Disk.ret. cbn [app].
  pose proof (agrees_bind _ _ _ _ (agrees_clear_loop (listdir w))
                (fun _ => agrees_emit (Printed (Text "solutions cleared."))) w)
    as H.
  unfold Disk.print, print. rewrite H.
  destruct (bind (clear_loop (listdir w))
              (fun _ => emit (Printed (Text "solutions cleared."))) w)
    as [[r w1] o].
  reflexivity.
Qed.

Lemma agrees_download_data : agrees Disk.download_data download_data.
Proof.
  intros [m [t|] [[g|]|] [[rm|]|]]; reflexivity.
Qed.

Lemma agrees_print_hashes (items : list (Z * option string)) :
  agrees (Disk.print_hashes items) (print_hashes items).
Proof.
  induction items as [|[k h] items IH]; [apply agrees_ret|].
  cbn [Disk.print_hashes print_hashes].
  apply agrees_bind; [apply agrees_emit|]. intros _. exact IH.
Qed.

Lemma agrees_execute_riddle_solver :
  agrees Disk.execute_riddle_solver execute_riddle_solver.
Proof.
  unfold Disk.execute_riddle_solver, execute_riddle_solver.
  apply agrees_bind; [apply agrees_emit|]. intros _.
  apply agrees_bind; [apply agrees_get_hashes_and_solutions|]. intros [h s0].
  cbn [fst snd]. destruct (PyDict.len h =? 0).
  - apply agrees_bind; [apply agrees_emit|]. intros _.
    apply agrees_check_solutions.
  - apply agrees_bind; [apply agrees_download_data|]. intros _.
    apply agrees_bind; [apply agrees_emit|]. intros _.
    apply agrees_bind; [apply agrees_print_hashes|]. intros _.
    apply agrees_bind; [apply agrees_emit|]. intros _.
    apply agrees_bind; [apply agrees_find_solutions_proc|]. intros [h' s'].
    cbn [fst snd].
    do 7 (apply agrees_bind; [apply agrees_emit|]; intros _).
    apply agrees_write_solutions.
Qed.

(** The whole program. *)
Lemma agrees_main (a : args) : agrees (Disk.main a) (main a).
Proof.
  unfold Disk.main, main.
  apply agrees_bind.
  - destruct (clear a); [apply agrees_clear_solutions | apply agrees_ret].
  - intros _. destruct (check a); [apply agrees_check_solutions|].
    destruct (solve a); [apply agrees_execute_riddle_solver | apply agrees_ret].
Qed.

End DiskOfWorld.
